(** * kolosal-vibe: the response parsers, the session file store, the
      preview controller and the generation / auto-fix orchestrators

    A shallow embedding of [src/llm.py], [src/agent.py],
    [src/sandbox.py], [src/web/web_agent.py], [src/sessions/manager.py],
    [src/api/websocket.py] and [src/api/routes.py].

    Strings are Python [str] values restricted to code points below 256
    (one [ascii] per code point).  Dictionaries keep insertion order, as
    Python's do, and are association lists with unique keys. *)

From Stdlib Require Import Strings.String Strings.Ascii Lists.List.
From Stdlib Require Import Bool Arith ZArith Lia.
Import ListNotations.
Open Scope string_scope.

(** ** Characters and strings, as Python sees them *)

Module Py.

Definition nl : ascii := "010"%char.
Definition NL : string := String nl "".
Definition dq : string := String "034"%char "".
Definition backtick : ascii := "`"%char.

Definition within (lo hi n : nat) : bool := ((lo <=? n) && (n <=? hi))%nat.

(** [str.isspace] on one code point; this is also the regex class [\s]. *)
Definition isspace (c : ascii) : bool :=
  let n := nat_of_ascii c in
  within 9 13 n || within 28 32 n || (n =? 133)%nat || (n =? 160)%nat.

(** The regex class [\w]: [str.isalnum] or an underscore. *)
Definition isword (c : ascii) : bool :=
  let n := nat_of_ascii c in
  within 48 57 n || within 65 90 n || within 97 122 n || (n =? 95)%nat
  || (n =? 170)%nat || (n =? 178)%nat || (n =? 179)%nat || (n =? 181)%nat
  || (n =? 185)%nat || (n =? 186)%nat || within 188 190 n || within 192 214 n
  || within 216 246 n || within 248 255 n.

(** Lower-casing of one code point, used by [re.IGNORECASE]. *)
Definition lower (c : ascii) : ascii :=
  let n := nat_of_ascii c in
  if within 65 90 n || (within 192 222 n && negb (n =? 215)%nat)
  then ascii_of_nat (n + 32) else c.

Fixpoint lstrip (s : string) : string :=
  match s with
  | "" => ""
  | String c s' => if isspace c then lstrip s' else s
  end.

Fixpoint rstrip (s : string) : string :=
  match s with
  | "" => ""
  | String c s' =>
      match rstrip s' with
      | "" => if isspace c then "" else String c ""
      | r => String c r
      end
  end.

(** [s.strip()] *)
Definition strip (s : string) : string := rstrip (lstrip s).

(** [s.startswith(p)] *)
Fixpoint startswith (s p : string) {struct p} : bool :=
  match p with
  | "" => true
  | String a p' =>
      match s with
      | "" => false
      | String c s' => (a =? c)%char && startswith s' p'
      end
  end.

Fixpoint find_from (sub s : string) (i : nat) : option nat :=
  if startswith s sub then Some i
  else match s with
       | "" => None
       | String _ s' => find_from sub s' (S i)
       end.

(** [s.find(sub)]: the lowest index, or -1. *)
Definition find (s sub : string) : Z :=
  match find_from sub s 0 with
  | Some i => Z.of_nat i
  | None => (-1)%Z
  end.

(** [sub in s] *)
Definition contains (sub s : string) : bool :=
  match find_from sub s 0 with
  | Some _ => true
  | None => false
  end.

Fixpoint drop (n : nat) (s : string) : string :=
  match n, s with
  | S n', String _ s' => drop n' s'
  | _, _ => s
  end.

Fixpoint take (n : nat) (s : string) : string :=
  match n, s with
  | S n', String c s' => String c (take n' s')
  | _, _ => ""
  end.

(** [s[i:]], negative [i] counting from the end. *)
Definition slice_from (s : string) (i : Z) : string :=
  if (i <? 0)%Z
  then drop (Z.to_nat (Z.max 0 (Z.of_nat (String.length s) + i))) s
  else drop (Z.to_nat i) s.

(** [s[:n]] for a non-negative [n]. *)
Definition slice_to (s : string) (n : nat) : string := take n s.

(** A call returns a value or raises.  [Unmodelled] marks a call whose
    behaviour lies outside the fragment of Python embedded here. *)
Inductive exn : Type :=
| ReError (msg : string)
| Exception (msg : string).

(** [str(e)] *)
Definition exn_message (e : exn) : string :=
  match e with
  | ReError m => m
  | Exception m => m
  end.

Inductive outcome (A : Type) : Type :=
| Returns (a : A)
| Raises (e : exn)
| Unmodelled.
Arguments Returns {A} a.
Arguments Raises {A} e.
Arguments Unmodelled {A}.

(** *** Ordered dictionaries *)

Definition dict : Type := list (string * string).

Fixpoint dict_get (d : dict) (k : string) : option string :=
  match d with
  | [] => None
  | (k', v) :: d' => if (k' =? k) then Some v else dict_get d' k
  end.

Definition dict_mem (k : string) (d : dict) : bool :=
  match dict_get d k with
  | Some _ => true
  | None => false
  end.

(** [d[k] = v]: replaces in place, or appends a new key at the end. *)
Fixpoint dict_set (d : dict) (k v : string) : dict :=
  match d with
  | [] => [(k, v)]
  | (k', v') :: d' =>
      if (k' =? k) then (k', v) :: d' else (k', v') :: dict_set d' k v
  end.

Definition keys (d : dict) : list string := map fst d.

(** [not d] *)
Definition dict_is_empty (d : dict) : bool :=
  match d with
  | [] => true
  | _ => false
  end.

End Py.
Import Py.

(** ** The fragment of Python's [re] module the sources use *)

Module Re.

Inductive cset : Type :=
| CChar (c : ascii)
| CAny
| CSpace
| CNotSpace
| CWord.

Inductive regex : Type :=
| REmpty
| RSet (cs : cset)
| RRepeat (greedy : bool) (lo : nat) (hi : option nat) (cs : cset)
| RSeq (r1 r2 : regex)
| RAlt (r1 r2 : regex)
| RGroup (idx : nat) (r : regex).

Record flags : Type := { ignorecase : bool; dotall : bool }.

Definition NOFLAGS := {| ignorecase := false; dotall := false |}.
Definition DOTALL := {| ignorecase := false; dotall := true |}.
Definition DOTALL_IGNORECASE := {| ignorecase := true; dotall := true |}.

(** *** Compiling a pattern string *)

Inductive compiled : Type :=
| Compiled (r : regex)
| BadPattern (msg : string)
| Unsupported.

(** An open parenthesis waiting for its [)]: the group it captures into
    (none for [(?:]) and the alternatives and items read before it. *)
Record frame : Type :=
  { f_group : option nat; f_alts : list regex; f_seq : list regex }.

Record pstate : Type :=
  { p_stack : list frame;
    p_alts : list regex;    (* finished branches, last first *)
    p_seq : list regex;     (* items of the current branch, last first *)
    p_groups : nat }.

Definition pstate0 : pstate :=
  {| p_stack := []; p_alts := []; p_seq := []; p_groups := 0 |}.

Definition mk_seq (items_rev : list regex) : regex :=
  fold_left (fun acc r => RSeq r acc) items_rev REmpty.

Definition mk_alt (alts_rev : list regex) (last : regex) : regex :=
  fold_left (fun acc r => RAlt r acc) alts_rev last.

Definition push (r : regex) (st : pstate) : pstate :=
  {| p_stack := p_stack st; p_alts := p_alts st;
     p_seq := r :: p_seq st; p_groups := p_groups st |}.

Definition open_group (capture : bool) (st : pstate) : pstate :=
  let n := if capture then S (p_groups st) else p_groups st in
  {| p_stack := {| f_group := if capture then Some n else None;
                   f_alts := p_alts st; f_seq := p_seq st |} :: p_stack st;
     p_alts := []; p_seq := []; p_groups := n |}.

Definition next_branch (st : pstate) : pstate :=
  {| p_stack := p_stack st; p_alts := mk_seq (p_seq st) :: p_alts st;
     p_seq := []; p_groups := p_groups st |}.

Definition close_group (st : pstate) : option pstate :=
  match p_stack st with
  | [] => None
  | fr :: stack =>
      let body := mk_alt (p_alts st) (mk_seq (p_seq st)) in
      let item := match f_group fr with
                  | Some i => RGroup i body
                  | None => body
                  end in
      Some {| p_stack := stack; p_alts := f_alts fr;
              p_seq := item :: f_seq fr; p_groups := p_groups st |}
  end.

Inductive quantified : Type :=
| QOk (st : pstate)
| QBad (msg : string)
| QUnsupported.

Definition quantify (greedy : bool) (lo : nat) (hi : option nat)
    (st : pstate) : quantified :=
  match p_seq st with
  | [] => QBad "nothing to repeat"
  | RSet cs :: items =>
      QOk {| p_stack := p_stack st; p_alts := p_alts st;
             p_seq := RRepeat greedy lo hi cs :: items;
             p_groups := p_groups st |}
  | RRepeat _ _ _ _ :: _ => QBad "multiple repeat"
  | _ => QUnsupported
  end.

Definition is_ascii_letter (c : ascii) : bool :=
  let n := nat_of_ascii c in within 65 90 n || within 97 122 n.

Definition is_ascii_digit (c : ascii) : bool :=
  within 48 57 (nat_of_ascii c).

(** The character after a backslash, outside a character set. *)
Definition escape (c : ascii) : option cset :=
  if (c =? "n")%char then Some (CChar nl)
  else if (c =? "t")%char then Some (CChar "009"%char)
  else if (c =? "r")%char then Some (CChar "013"%char)
  else if (c =? "s")%char then Some CSpace
  else if (c =? "S")%char then Some CNotSpace
  else if (c =? "w")%char then Some CWord
  else if is_ascii_letter c || is_ascii_digit c then None
  else Some (CChar c).

(** The characters the pattern syntax gives a meaning to. *)
Definition special (c : ascii) : bool :=
  existsb (Ascii.eqb c)
    ["."; "\"; "["; "{"; "("; ")"; "*"; "+"; "?"; "^"; "$"; "|"]%char.

Definition bounds (c : ascii) : nat * option nat :=
  if (c =? "*")%char then (0, None)
  else if (c =? "+")%char then (1, None)
  else (0, Some 1).

Definition finish (st : pstate) : compiled :=
  match p_stack st with
  | [] => Compiled (mk_alt (p_alts st) (mk_seq (p_seq st)))
  | _ :: _ => BadPattern "missing ), unterminated subpattern"
  end.

Fixpoint parse (p : string) (st : pstate) : compiled :=
  match p with
  | "" => finish st
  | String c p1 =>
      if (c =? "\")%char then
        match p1 with
        | "" => BadPattern "bad escape (end of pattern)"
        | String e p2 =>
            match escape e with
            | Some cs => parse p2 (push (RSet cs) st)
            | None => Unsupported
            end
        end
      else if (c =? ".")%char then parse p1 (push (RSet CAny) st)
      else if (c =? "(")%char then
        match p1 with
        | String "?" (String ":" p3) => parse p3 (open_group false st)
        | String "?" _ => Unsupported
        | _ => parse p1 (open_group true st)
        end
      else if (c =? ")")%char then
        match close_group st with
        | Some st' => parse p1 st'
        | None => BadPattern "unbalanced parenthesis"
        end
      else if (c =? "|")%char then parse p1 (next_branch st)
      else if (c =? "*")%char || (c =? "+")%char || (c =? "?")%char then
        let (lo, hi) := bounds c in
        match p1 with
        | String "?" p2 =>
            match quantify false lo hi st with
            | QOk st' => parse p2 st'
            | QBad msg => BadPattern msg
            | QUnsupported => Unsupported
            end
        | String "+" _ =>
            match quantify true lo hi st with
            | QBad msg => BadPattern msg
            | _ => Unsupported
            end
        | _ =>
            match quantify true lo hi st with
            | QOk st' => parse p1 st'
            | QBad msg => BadPattern msg
            | QUnsupported => Unsupported
            end
        end
      else if special c then Unsupported
      else parse p1 (push (RSet (CChar c)) st)
  end.

(** [re.compile(pattern)] *)
Definition compile (pattern : string) : compiled := parse pattern pstate0.

(** *** Matching, with Python's backtracking order *)

Definition captures : Type := list (nat * string).

Fixpoint cap_get (i : nat) (caps : captures) : option string :=
  match caps with
  | [] => None
  | (j, s) :: caps' => if (i =? j)%nat then Some s else cap_get i caps'
  end.

Definition cap_set (i : nat) (s : string) (caps : captures) : captures :=
  (i, s) :: caps.

(** A match: the captured groups and the text left after the match. *)
Definition found : Type := captures * string.

Definition orelse {A} (x : option A) (y : option A) : option A :=
  match x with
  | Some _ => x
  | None => y
  end.

Definition can_more (hi : option nat) : bool :=
  match hi with
  | Some 0 => false
  | _ => true
  end.

Section Matcher.

Variable fl : flags.

Definition cs_match (cs : cset) (x : ascii) : bool :=
  match cs with
  | CChar c =>
      if ignorecase fl then (lower c =? lower x)%char else (c =? x)%char
  | CAny => dotall fl || negb (x =? nl)%char
  | CSpace => isspace x
  | CNotSpace => negb (isspace x)
  | CWord => isword x
  end.

(** [cs{lo,hi}]: the longest run first. *)
Fixpoint rep_greedy (cs : cset) (lo : nat) (hi : option nat) (s : string)
    (k : string -> option found) : option found :=
  let stop := if (lo =? 0)%nat then k s else None in
  match s with
  | String c s' =>
      if cs_match cs c && can_more hi
      then orelse (rep_greedy cs (pred lo) (option_map pred hi) s' k) stop
      else stop
  | "" => stop
  end.

(** [cs{lo,hi}?]: the shortest run first. *)
Fixpoint rep_lazy (cs : cset) (lo : nat) (hi : option nat) (s : string)
    (k : string -> option found) : option found :=
  let more :=
    match s with
    | String c s' =>
        if cs_match cs c && can_more hi
        then rep_lazy cs (pred lo) (option_map pred hi) s' k
        else None
    | "" => None
    end in
  if (lo =? 0)%nat then orelse (k s) more else more.

Fixpoint m (r : regex) (s : string) (caps : captures)
    (k : string -> captures -> option found) : option found :=
  match r with
  | REmpty => k s caps
  | RSet cs =>
      match s with
      | String c s' => if cs_match cs c then k s' caps else None
      | "" => None
      end
  | RRepeat greedy lo hi cs =>
      (if greedy then rep_greedy else rep_lazy) cs lo hi s
        (fun s' => k s' caps)
  | RSeq a b => m a s caps (fun s' caps' => m b s' caps' k)
  | RAlt a b => orelse (m a s caps k) (m b s caps k)
  | RGroup i a =>
      m a s caps
        (fun s' caps' =>
           k s' (cap_set i (take (String.length s - String.length s') s) caps'))
  end.

(** A match starting at the first character of [s]. *)
Definition match_here (r : regex) (s : string) : option found :=
  m r s [] (fun s' caps => Some (caps, s')).

(** The leftmost match. *)
Fixpoint search_re (r : regex) (s : string) : option found :=
  match match_here r s with
  | Some x => Some x
  | None =>
      match s with
      | "" => None
      | String _ s' => search_re r s'
      end
  end.

(** All non-overlapping matches, left to right.  [skip] counts the
    characters of the previous match still to be passed over. *)
Fixpoint findall_re (r : regex) (s : string) (skip : nat) : list captures :=
  match skip with
  | S skip' =>
      match s with
      | "" => []
      | String _ s' => findall_re r s' skip'
      end
  | 0 =>
      match match_here r s with
      | Some (caps, rest) =>
          caps ::
          match s with
          | "" => []
          | String _ s' => findall_re r s' (String.length s - String.length rest - 1)
          end
      | None =>
          match s with
          | "" => []
          | String _ s' => findall_re r s' 0
          end
      end
  end.

End Matcher.

(** [match.group(i)], for a group that took part in the match (as
    group 1 does in every pattern of the sources). *)
Definition group (mt : found) (i : nat) : string :=
  match cap_get i (fst mt) with
  | Some s => s
  | None => ""
  end.

(** [re.search(pattern, s, flags)] *)
Definition search (pattern s : string) (fl : flags)
    : outcome (option found) :=
  match compile pattern with
  | Compiled r => Returns (search_re fl r s)
  | BadPattern msg => Raises (ReError msg)
  | Unsupported => Unmodelled
  end.

(** [re.findall(pattern, s, flags)] for a pattern with two groups. *)
Definition findall2 (pattern s : string) (fl : flags)
    : outcome (list (string * string)) :=
  match compile pattern with
  | Compiled r =>
      Returns (map (fun caps => (group (caps, "") 1, group (caps, "") 2))
                 (findall_re fl r s 0))
  | BadPattern msg => Raises (ReError msg)
  | Unsupported => Unmodelled
  end.

(** [re.findall(pattern, s, flags)] for a pattern with one group. *)
Definition findall1 (pattern s : string) (fl : flags)
    : outcome (list string) :=
  match compile pattern with
  | Compiled r =>
      Returns (map (fun caps => group (caps, "") 1) (findall_re fl r s 0))
  | BadPattern msg => Raises (ReError msg)
  | Unsupported => Unmodelled
  end.

End Re.

(** Sequencing of calls that may raise. *)
Definition bind {A B} (x : outcome A) (f : A -> outcome B) : outcome B :=
  match x with
  | Returns a => f a
  | Raises e => Raises e
  | Unmodelled => Unmodelled
  end.

Notation "x <- c1 ;; c2" := (bind c1 (fun x => c2))
  (at level 61, c1 at next level, right associativity).

(** ** [KolosalClient._extract_code] (src/llm.py) *)

Module Llm.

Record extracted : Type :=
  { code : string; language : string; raw_response : string }.

Definition _extract_code (response language : string) : outcome extracted :=
  (* Try to find code block with language identifier *)
  let pattern := "```" ++ language ++ "\n?(.*?)```" in
  mt <- Re.search pattern response Re.DOTALL_IGNORECASE ;;
  match mt with
  | Some mt =>
      Returns {| code := strip (Re.group mt 1); language := language;
                 raw_response := response |}
  | None =>
      (* Try generic code block *)
      let pattern := "```\n?(.*?)```" in
      mt <- Re.search pattern response Re.DOTALL ;;
      match mt with
      | Some mt =>
          Returns {| code := strip (Re.group mt 1); language := language;
                     raw_response := response |}
      | None =>
          (* No code block found, return the whole response *)
          Returns {| code := strip response; language := language;
                     raw_response := response |}
      end
  end.

End Llm.

(** ** [WebCodeAgent._parse_web_files] (src/web/web_agent.py) *)

Module Parse.

Definition lines (ls : list string) : string :=
  String.concat NL ls.

Definition q (s : string) : string := dq ++ s ++ dq.

(** The document wrapped around a block that does not look like markup. *)
Definition script_wrapper (content : string) : string :=
  lines
    [ "<!DOCTYPE html>";
      "<html lang=" ++ q "en" ++ ">";
      "<head>";
      "    <meta charset=" ++ q "UTF-8" ++ ">";
      "    <meta name=" ++ q "viewport" ++ " content="
        ++ q "width=device-width, initial-scale=1.0" ++ ">";
      "    <title>Generated App</title>";
      "    <script src=" ++ q "https://cdn.tailwindcss.com" ++ "></script>";
      "</head>";
      "<body class=" ++ q "bg-gray-100 min-h-screen" ++ ">";
      "    <div id=" ++ q "app" ++ " class=" ++ q "container mx-auto p-4"
        ++ ">";
      "        <script>" ++ content ++ "</script>";
      "    </div>";
      "</body>";
      "</html>" ].

(** The placeholder page that shows the start of the raw response. *)
Definition placeholder_page (shown : string) : string :=
  lines
    [ "<!DOCTYPE html>";
      "<html lang=" ++ q "en" ++ ">";
      "<head>";
      "    <meta charset=" ++ q "UTF-8" ++ ">";
      "    <meta name=" ++ q "viewport" ++ " content="
        ++ q "width=device-width, initial-scale=1.0" ++ ">";
      "    <title>Generated App</title>";
      "    <script src=" ++ q "https://cdn.tailwindcss.com" ++ "></script>";
      "</head>";
      "<body class="
        ++ q "bg-gray-100 min-h-screen flex items-center justify-center"
        ++ ">";
      "    <div class=" ++ q "bg-white p-8 rounded-lg shadow-lg max-w-2xl"
        ++ ">";
      "        <h1 class=" ++ q "text-2xl font-bold mb-4"
        ++ ">Generated Content</h1>";
      "        <pre class="
        ++ q "bg-gray-100 p-4 rounded overflow-auto text-sm" ++ ">"
        ++ shown ++ "</pre>";
      "    </div>";
      "</body>";
      "</html>" ].

Definition pattern1 : string :=
  "```(\S+\.(?:html|css|js|json))\s*\n(.*?)```".

Definition html_patterns : list string :=
  [ "```html\s*\n(.*?)```";
    "```HTML\s*\n(.*?)```";
    "```htm\s*\n(.*?)```" ].

Definition css_patterns : list string :=
  [ "```css\s*\n(.*?)```";
    "```CSS\s*\n(.*?)```" ].

Definition js_patterns : list string :=
  [ "```javascript\s*\n(.*?)```";
    "```js\s*\n(.*?)```";
    "```JavaScript\s*\n(.*?)```";
    "```JS\s*\n(.*?)```" ].

Definition generic_pattern : string := "```(?:\w*)\s*\n(.*?)```".

(** [for filename, content in matches: files[filename.strip()] =
    content.strip()] *)
Definition store_matches (matches : list (string * string)) (files : dict)
    : dict :=
  fold_left (fun files fc => dict_set files (strip (fst fc)) (strip (snd fc)))
    matches files.

(** [for pattern in patterns: match = re.search(...); if match:
    files[name] = match.group(1).strip(); break] *)
Fixpoint try_patterns (patterns : list string) (response name : string)
    (files : dict) : outcome dict :=
  match patterns with
  | [] => Returns files
  | pattern :: patterns' =>
      mt <- Re.search pattern response Re.DOTALL ;;
      match mt with
      | Some mt => Returns (dict_set files name (strip (Re.group mt 1)))
      | None => try_patterns patterns' response name files
      end
  end.

Definition looks_like_html (content : string) : bool :=
  startswith content "<!DOCTYPE" || startswith content "<html"
  || contains "<" content.

(** Fallback: if no files found, try to extract any code block. *)
Definition generic_fallback (response : string) (files : dict)
    : outcome dict :=
  if dict_is_empty files then
    matches <- Re.findall1 generic_pattern response Re.DOTALL ;;
    match matches with
    | first :: _ =>
        let content := strip first in
        if looks_like_html content
        then Returns (dict_set files "index.html" content)
        else Returns (dict_set files "index.html" (script_wrapper content))
    | [] => Returns files
    end
  else Returns files.

(** Ultimate fallback: create a basic HTML file. *)
Definition ultimate_fallback (response : string) (files : dict) : dict :=
  if dict_is_empty files then
    if contains "<!DOCTYPE" response || contains "<html" response then
      let html_start := find response "<!DOCTYPE" in
      let html_start :=
        if (html_start =? -1)%Z then find response "<html" else html_start in
      if negb (html_start =? -1)%Z
      then dict_set files "index.html" (strip (slice_from response html_start))
      else files
    else
      dict_set files "index.html" (placeholder_page (slice_to response 2000))
  else files.

Definition _parse_web_files (response : string) : outcome dict :=
  let files : dict := [] in
  (* Pattern 1: ```filename.ext format *)
  matches <- Re.findall2 pattern1 response Re.DOTALL_IGNORECASE ;;
  let files := store_matches matches files in
  (* Pattern 2: ```language format *)
  files <- (if negb (dict_mem "index.html" files)
            then try_patterns html_patterns response "index.html" files
            else Returns files) ;;
  files <- (if negb (dict_mem "styles.css" files)
               && negb (dict_mem "style.css" files)
            then try_patterns css_patterns response "styles.css" files
            else Returns files) ;;
  files <- (if negb (dict_mem "script.js" files)
               && negb (dict_mem "app.js" files)
            then try_patterns js_patterns response "script.js" files
            else Returns files) ;;
  files <- generic_fallback response files ;;
  Returns (ultimate_fallback response files).

End Parse.

(** ** The collaborators and the state of one agent

    The LLM endpoint, the sandbox SDK and the clock are an oracle that
    answers each call; the program is written over it in a state and
    exception monad.  Console output ([print], the rich panels) is left
    out.  Attributes the sources read with a [hasattr] default are plain
    fields of the answer. *)

Module Model.

(** *** Calls that leave the process *)

Record message : Type := { role : string; content : string }.

(** Every request the program makes of the LLM endpoint, of the sandbox
    SDK or of the clock.  A temperature is given in tenths. *)
Inductive call : Type :=
| LlmChat (messages : list message) (temperature : nat) (max_tokens : N)
    (stream : bool)
| SdkConnect                         (* Daytona(DaytonaConfig(...)) *)
| SdkCreate                          (* daytona.create() *)
| SdkExec (command : string)         (* sandbox.process.exec(command) *)
| SdkUpload (content path : string)  (* sandbox.fs.upload_file(...) *)
| SdkPreviewLink (port : N)          (* sandbox.get_preview_link(port) *)
| SdkDelete                          (* daytona.delete(sandbox) *)
| Sleep (seconds : nat).             (* asyncio.sleep(seconds) *)

(** What comes back.  [raised] is the message of the exception the call
    ended with, if it did.  A chat completion has its [text]; a streamed
    one has its [deltas], after which the stream may break; a command has
    its output in [text], its [stderr] and [exit_code]; a preview link has
    a [url] and a [token]. *)
Record reply : Type :=
  { raised : option string;
    text : string;
    deltas : list string;
    broken : option string;
    stderr : string;
    exit_code : Z;
    url : string;
    token : option string }.

(** The world outside: the answer to the [n]-th call, and base64. *)
Record env : Type :=
  { oracle : nat -> call -> reply;
    b64encode : string -> string }.

(** *** Values of the program *)

(** The dictionary [SandboxManager.execute_code] returns. *)
Record exec_result : Type :=
  { er_error : option string;
    er_stdout : string;
    er_stderr : string;
    er_exit_code : Z }.

(** One entry of [CodeAgent.history]. *)
Inductive turn : Type :=
| Generate (prompt code language : string)
| Execute (code language : string) (result : exec_result)
| GenerateWeb (prompt : string) (files : list string)
    (raw_response : option string).

(** A message sent over the websocket. *)
Inductive event : Type :=
| Token (content : string)
| Code (filename code : string)
| Preview (url : string) (token : option string)
| Complete (files : list string)
| Error (content : string).

(** The agent of one session, the session's preview fields, and what an
    observer of the run has seen: every call made (last first), every
    file [SandboxManager.upload_file] has written (last first) and every
    event sent (first first).  [sandbox] is [None] before a
    [SandboxManager] exists, then tells whether the manager holds a
    created sandbox. *)
Record state : Type :=
  { trace : list call;
    sandbox : option bool;
    history : list turn;
    project_files : dict;
    server_running : bool;
    preview_url : option string;
    preview_token : option string;
    uploaded : list (string * string);
    sent : list event }.

Definition initial : state :=
  {| trace := []; sandbox := None; history := []; project_files := [];
     server_running := false; preview_url := None; preview_token := None;
     uploaded := []; sent := [] |}.

Definition set_trace (v : list call) (s : state) : state :=
  {| trace := v; sandbox := sandbox s; history := history s;
     project_files := project_files s; server_running := server_running s;
     preview_url := preview_url s; preview_token := preview_token s;
     uploaded := uploaded s; sent := sent s |}.

Definition set_sandbox (v : option bool) (s : state) : state :=
  {| trace := trace s; sandbox := v; history := history s;
     project_files := project_files s; server_running := server_running s;
     preview_url := preview_url s; preview_token := preview_token s;
     uploaded := uploaded s; sent := sent s |}.

Definition set_history (v : list turn) (s : state) : state :=
  {| trace := trace s; sandbox := sandbox s; history := v;
     project_files := project_files s; server_running := server_running s;
     preview_url := preview_url s; preview_token := preview_token s;
     uploaded := uploaded s; sent := sent s |}.

Definition set_project_files (v : dict) (s : state) : state :=
  {| trace := trace s; sandbox := sandbox s; history := history s;
     project_files := v; server_running := server_running s;
     preview_url := preview_url s; preview_token := preview_token s;
     uploaded := uploaded s; sent := sent s |}.

Definition set_server_running (v : bool) (s : state) : state :=
  {| trace := trace s; sandbox := sandbox s; history := history s;
     project_files := project_files s; server_running := v;
     preview_url := preview_url s; preview_token := preview_token s;
     uploaded := uploaded s; sent := sent s |}.

Definition set_preview (u t : option string) (s : state) : state :=
  {| trace := trace s; sandbox := sandbox s; history := history s;
     project_files := project_files s; server_running := server_running s;
     preview_url := u; preview_token := t;
     uploaded := uploaded s; sent := sent s |}.

Definition set_uploaded (v : list (string * string)) (s : state) : state :=
  {| trace := trace s; sandbox := sandbox s; history := history s;
     project_files := project_files s; server_running := server_running s;
     preview_url := preview_url s; preview_token := preview_token s;
     uploaded := v; sent := sent s |}.

Definition set_sent (v : list event) (s : state) : state :=
  {| trace := trace s; sandbox := sandbox s; history := history s;
     project_files := project_files s; server_running := server_running s;
     preview_url := preview_url s; preview_token := preview_token s;
     uploaded := uploaded s; sent := v |}.

(** *** Statements: state passing with exceptions *)

Definition M (A : Type) : Type := state -> outcome A * state.

Definition ret {A} (a : A) : M A := fun s => (Returns a, s).

Definition bindM {A B} (c : M A) (f : A -> M B) : M B :=
  fun s =>
    match c s with
    | (Returns a, s') => f a s'
    | (Raises e, s') => (Raises e, s')
    | (Unmodelled, s') => (Unmodelled, s')
    end.

Notation "x <~ c1 ;; c2" := (bindM c1 (fun x => c2))
  (at level 61, c1 at next level, right associativity).
Notation "c1 >> c2" := (bindM c1 (fun _ => c2))
  (at level 61, right associativity).

Definition raise {A} (e : exn) : M A := fun s => (Raises e, s).

Definition lift {A} (o : outcome A) : M A := fun s => (o, s).

Definition get : M state := fun s => (Returns s, s).

Definition modify (f : state -> state) : M unit :=
  fun s => (Returns tt, f s).

(** [try: body  except Exception as e: handler(e)] *)
Definition try_except {A} (body : M A) (handler : exn -> M A) : M A :=
  fun s =>
    match body s with
    | (Raises e, s') => handler e s'
    | other => other
    end.

(** [for x in xs: body(x)] *)
Fixpoint for_each {A} (xs : list A) (body : A -> M unit) : M unit :=
  match xs with
  | [] => ret tt
  | x :: xs' => body x >> for_each xs' body
  end.

(** [l[-n:]] *)
Definition last_n {A} (n : nat) (l : list A) : list A :=
  skipn (List.length l - n) l.

Section Program.

Variable E : env.

(** One call: it is recorded, then it raises or answers. *)
Definition perform (c : call) : M reply :=
  fun s =>
    let r := oracle E (List.length (trace s)) c in
    let s' := set_trace (c :: trace s) s in
    match raised r with
    | Some msg => (Raises (Exception msg), s')
    | None => (Returns r, s')
    end.

(** **** src/sandbox.py: [SandboxManager], reached through
    [self.sandbox] of the agent *)

(** Calling a method on [self.sandbox] while it is [None]. *)
Definition the_manager : M bool :=
  s <~ get ;;
  match sandbox s with
  | Some created => ret created
  | None => raise (Exception "'NoneType' object has no attribute")
  end.

Definition create_sandbox : M unit :=
  perform SdkCreate >> modify (set_sandbox (Some true)).

(** [if not self.sandbox: self.create_sandbox()] *)
Definition need_sandbox : M unit :=
  created <~ the_manager ;;
  if created then ret tt else create_sandbox.

(** Upload the script, then run [interpreter] on it. *)
Definition run_script (code file_path interpreter : string) : M reply :=
  perform (SdkUpload code file_path) >>
  perform (SdkExec (interpreter ++ " " ++ file_path)).

Definition parse_result (result : reply) : exec_result :=
  {| er_error := None; er_stdout := text result;
     er_stderr := stderr result; er_exit_code := exit_code result |}.

Definition execute_code (code language : string) : M exec_result :=
  need_sandbox >>
  if language =? "python" then
    result <~ run_script code "/tmp/script.py" "python3" ;;
    ret (parse_result result)
  else if language =? "javascript" then
    result <~ run_script code "/tmp/script.js" "node" ;;
    ret (parse_result result)
  else if language =? "bash" then
    result <~ perform (SdkExec code) ;;
    ret (parse_result result)
  else
    ret {| er_error := Some ("Unsupported language: " ++ language);
           er_stdout := ""; er_stderr := ""; er_exit_code := 1 |}.

Definition execute_command (command : string) : M exec_result :=
  need_sandbox >>
  result <~ perform (SdkExec command) ;;
  ret {| er_error := None; er_stdout := text result; er_stderr := "";
         er_exit_code := exit_code result |}.

Fixpoint before_last_slash (path : string) : option string :=
  match path with
  | "" => None
  | String c path' =>
      match before_last_slash path' with
      | Some d => Some (String c d)
      | None => if (c =? "/")%char then Some "" else None
      end
  end.

(** ["/".join(path.split("/")[:-1])] *)
Definition dir_path (path : string) : string :=
  match before_last_slash path with
  | Some d => d
  | None => ""
  end.

Definition record_upload (path content : string) (s : state) : state :=
  set_uploaded ((path, content) :: uploaded s) s.

Definition upload_file (path content : string) : M bool :=
  need_sandbox >>
  try_except
    (* Try SDK method first *)
    (perform (SdkUpload content path) >> ret tt)
    (* Fallback: use base64 encoding and shell command *)
    (fun e =>
       let encoded := b64encode E content in
       let dir_path := dir_path path in
       (if dir_path =? "" then ret tt
        else perform (SdkExec ("mkdir -p " ++ dir_path)) >> ret tt) >>
       perform (SdkExec ("echo '" ++ encoded ++ "' | base64 -d > " ++ path))
       >> ret tt) >>
  modify (record_upload path content) >>
  ret true.

Definition manager_get_preview_url (port : N) : M reply :=
  created <~ the_manager ;;
  if created then perform (SdkPreviewLink port)
  else raise (Exception "No sandbox created").

Definition destroy : M unit :=
  created <~ the_manager ;;
  if created then
    try_except (perform SdkDelete >> ret tt) (fun _ => ret tt) >>
    modify (set_sandbox (Some false))
  else ret tt.

(** **** src/llm.py: [KolosalClient] *)

Definition nonempty (s : string) : bool := negb (s =? "").

(** [chat(messages, temperature, max_tokens)], not streamed. *)
Definition chat (messages : list message) (temperature : nat)
    (max_tokens : N) : M string :=
  response <~ perform (LlmChat messages temperature max_tokens false) ;;
  ret (text response).

Fixpoint fold_each {A B} (xs : list B) (acc : A) (body : A -> B -> M A)
    : M A :=
  match xs with
  | [] => ret acc
  | x :: xs' => acc' <~ body acc x ;; fold_each xs' acc' body
  end.

(** [for chunk in chat(messages, stream=True, ...): acc = body(acc,
    chunk)]: the request, then the non-empty deltas in order, then the
    break of the stream if there is one. *)
Definition chat_stream {A} (messages : list message)
    (temperature : nat) (max_tokens : N) (acc : A)
    (body : A -> string -> M A) : M A :=
  response <~ perform (LlmChat messages temperature max_tokens true) ;;
  acc <~ fold_each (filter nonempty (deltas response)) acc body ;;
  match broken response with
  | Some msg => raise (Exception msg)
  | None => ret acc
  end.

Definition generate_code_prompt (language : string) : string :=
  "You are an expert " ++ language
  ++ " programmer. Generate clean, working code based on the user's request."
  ++ NL ++ NL ++ "IMPORTANT RULES:" ++ NL
  ++ "1. Return ONLY the code, no explanations before or after" ++ NL
  ++ "2. Include necessary imports" ++ NL
  ++ "3. Make the code complete and executable" ++ NL
  ++ "4. Use proper error handling where appropriate" ++ NL
  ++ "5. If you need to show output, use print statements" ++ NL ++ NL
  ++ "Wrap your code in triple backticks with the language identifier:"
  ++ NL ++ "```" ++ language ++ NL ++ "# your code here" ++ NL ++ "```".

Definition generate_code (prompt language : string) : M Llm.extracted :=
  let messages :=
    [ {| role := "system"; content := generate_code_prompt language |};
      {| role := "user"; content := prompt |} ] in
  response <~ chat messages 3 4096%N ;;
  lift (Llm._extract_code response language).

Definition analyze_error_system (language : string) : string :=
  "You are a " ++ language
  ++ " debugging expert. Analyze the error and provide a corrected"
  ++ " version of the code." ++ NL ++ NL
  ++ "Return ONLY the fixed code wrapped in triple backticks:" ++ NL
  ++ "```" ++ language ++ NL ++ "# fixed code here" ++ NL ++ "```".

Definition analyze_error_user (code error language : string) : string :=
  "The following code produced an error:" ++ NL ++ NL
  ++ "```" ++ language ++ NL ++ code ++ NL ++ "```" ++ NL ++ NL
  ++ "Error:" ++ NL ++ error ++ NL ++ NL ++ "Please fix the code.".

Definition analyze_error (code error language : string) : M Llm.extracted :=
  let messages :=
    [ {| role := "system"; content := analyze_error_system language |};
      {| role := "user";
         content := analyze_error_user code error language |} ] in
  response <~ chat messages 2 4096%N ;;
  lift (Llm._extract_code response language).

(** **** src/agent.py: [CodeAgent] *)

Definition MAX_RETRIES : nat := 3.

Definition _ensure_sandbox : M unit :=
  s <~ get ;;
  match sandbox s with
  | None =>
      perform SdkConnect >>
      modify (set_sandbox (Some false)) >>
      create_sandbox
  | Some _ => ret tt
  end.

Definition append_history (t : turn) : M unit :=
  modify (fun s => set_history (history s ++ [t]) s).

Definition generate (prompt language : string) : M Llm.extracted :=
  result <~ generate_code prompt language ;;
  append_history (Generate prompt (Llm.code result) language) >>
  ret result.

Definition execute (code language : string) : M exec_result :=
  _ensure_sandbox >>
  result <~ execute_code code language ;;
  append_history (Execute code language result) >>
  ret result.

Record run_result : Type :=
  { rr_prompt : string;
    rr_code : string;
    rr_language : string;
    rr_output : string;
    rr_errors : string;
    rr_exit_code : Z;
    rr_retries : nat }.

(** [while auto_fix and exec_result.get("stderr") and retries <
    MAX_RETRIES: ...], entered with [budget = MAX_RETRIES - retries]. *)
Fixpoint auto_fix_loop (budget : nat) (language code : string)
    (exec_result : exec_result) (retries : nat)
    : M (string * Model.exec_result * nat) :=
  match budget with
  | 0 => ret (code, exec_result, retries)
  | S budget' =>
      if nonempty (er_stderr exec_result) then
        let retries := retries + 1 in
        (* Get fixed code from LLM *)
        fix_result <~ analyze_error code (er_stderr exec_result) language ;;
        let code := Llm.code fix_result in
        (* Re-execute *)
        exec_result <~ execute code language ;;
        if negb (nonempty (er_stderr exec_result))
        then ret (code, exec_result, retries)
        else auto_fix_loop budget' language code exec_result retries
      else ret (code, exec_result, retries)
  end.

Definition run (prompt language : string) (auto_fix : bool) : M run_result :=
  gen_result <~ generate prompt language ;;
  let code := Llm.code gen_result in
  exec_result <~ execute code language ;;
  looped <~ (if auto_fix
             then auto_fix_loop MAX_RETRIES language code exec_result 0
             else ret (code, exec_result, 0)) ;;
  let '(code, exec_result, retries) := looped in
  ret {| rr_prompt := prompt; rr_code := code; rr_language := language;
         rr_output := er_stdout exec_result;
         rr_errors := er_stderr exec_result;
         rr_exit_code := er_exit_code exec_result;
         rr_retries := retries |}.

Definition cleanup : M unit :=
  s <~ get ;;
  match sandbox s with
  | Some _ => destroy >> modify (set_sandbox None)
  | None => ret tt
  end.

(** **** src/web/web_agent.py: [WebCodeAgent] *)

Definition WORKSPACE_DIR : string := "/home/daytona/project".

Definition WEB_SYSTEM_PROMPT : string :=
  Parse.lines
    [ "You are an expert web developer building apps for users. You create complete, working web applications.";
      "";
      "HOW TO RESPOND:";
      "1. First, briefly explain what you're going to build (1-2 sentences)";
      "2. Then output the code files (these will be deployed automatically)";
      "3. Finally, describe what was created and how to use it";
      "";
      "CODING RULES:";
      "- Generate complete HTML, CSS, and JavaScript files";
      "- Use modern, responsive CSS (flexbox, grid)";
      "- Use Tailwind CSS via CDN for quick styling";
      "- Make designs visually appealing with good colors and spacing";
      "- Ensure the app is fully functional";
      "";
      "FILE OUTPUT FORMAT (required for deployment):";
      "```index.html";
      "<!DOCTYPE html>";
      "<html>...</html>";
      "```";
      "";
      "```styles.css";
      "/* styles */";
      "```";
      "";
      "```script.js";
      "// code";
      "```";
      "";
      "RESPONSE STYLE:";
      "- Keep explanations brief and friendly";
      "- Don't explain the code in detail - users will see the live preview";
      "- Focus on what the app does, not how it's coded";
      "- Use bullet points for features" ].

Definition _setup_workspace : M unit :=
  s <~ get ;;
  match sandbox s with
  | Some _ => execute_command ("mkdir -p " ++ WORKSPACE_DIR) >> ret tt
  | None => ret tt
  end.

(** [WebCodeAgent._ensure_sandbox] *)
Definition web_ensure_sandbox : M unit :=
  _ensure_sandbox >> _setup_workspace.

(** The last three turns, as seen by the model: the prompts of the web
    generations and the list of files each created. *)
Definition history_context (intro : string) (h : list turn)
    : list message :=
  flat_map
    (fun item =>
       match item with
       | GenerateWeb prompt files _ =>
           [ {| role := "user"; content := prompt |};
             {| role := "assistant";
                content := intro ++ String.concat ", " files |} ]
       | _ => []
       end)
    (last_n 3 h).

Definition web_messages (intro prompt : string) (h : list turn)
    : list message :=
  [ {| role := "system"; content := WEB_SYSTEM_PROMPT |} ]
  ++ history_context intro h
  ++ [ {| role := "user"; content := prompt |} ].

(** [self.project_files[filename] = content] *)
Definition store_file (filename content : string) : M unit :=
  modify (fun s =>
            set_project_files (dict_set (project_files s) filename content) s).

Definition workspace_path (filename : string) : string :=
  WORKSPACE_DIR ++ "/" ++ filename.

Record web_result : Type :=
  { wr_message : string; wr_files : dict; wr_code : string }.

Definition generate_web_code (prompt : string) : M web_result :=
  s <~ get ;;
  let messages :=
    web_messages "I created the following files: " prompt (history s) in
  response <~ chat messages 5 8192%N ;;
  (* Parse multi-file response *)
  files <~ lift (Parse._parse_web_files response) ;;
  (* Upload files to sandbox *)
  web_ensure_sandbox >>
  for_each files
    (fun fc =>
       upload_file (workspace_path (fst fc)) (snd fc) >>
       store_file (fst fc) (snd fc)) >>
  append_history (GenerateWeb prompt (keys files) (Some response)) >>
  ret {| wr_message := "Code generated successfully";
         wr_files := files;
         wr_code := match dict_get files "index.html" with
                    | Some c => c
                    | None => ""
                    end |}.

(** The generator [stream_generate]; [yield] is what its consumer does
    with each item before asking for the next. *)
Definition stream_generate (prompt : string) (yield : event -> M unit)
    : M unit :=
  s <~ get ;;
  let messages := web_messages "I created these files: " prompt (history s) in
  (* Use streaming from LLM *)
  full_response <~
    chat_stream messages 5 8192%N ""
      (fun full_response chunk =>
         yield (Token chunk) >> ret (full_response ++ chunk)) ;;
  (* Parse and upload files *)
  files <~ lift (Parse._parse_web_files full_response) ;;
  web_ensure_sandbox >>
  for_each files
    (fun fc =>
       upload_file (workspace_path (fst fc)) (snd fc) >>
       store_file (fst fc) (snd fc) >>
       yield (Code (fst fc) (snd fc))) >>
  append_history (GenerateWeb prompt (keys files) None).

Definition start_preview_server : M unit :=
  s <~ get ;;
  if server_running s then ret tt
  else
    match sandbox s with
    | None => ret tt
    | Some _ =>
        (* Kill any existing server *)
        execute_command "pkill -f 'python3 -m http.server' 2>/dev/null || true" >>
        (* Start server in background *)
        execute_command
          ("cd " ++ WORKSPACE_DIR
           ++ " && nohup python3 -m http.server 8000 > /dev/null 2>&1 &") >>
        (* Wait for server to start *)
        perform (Sleep 1) >>
        modify (set_server_running true)
    end.

Definition get_project_files : M (list string) :=
  s <~ get ;; ret (keys (project_files s)).

Definition get_file_content (filename : string) : M (option string) :=
  s <~ get ;; ret (dict_get (project_files s) filename).

Definition update_file (filename content : string) : M unit :=
  s <~ get ;;
  match sandbox s with
  | None => ret tt
  | Some _ =>
      upload_file (workspace_path filename) content >>
      store_file filename content
  end.

(** **** src/sessions/manager.py: [Session] and [create_session] *)

Definition get_preview_url : M (option reply) :=
  s <~ get ;;
  match sandbox s with
  | Some true =>
      preview <~ manager_get_preview_url 8000%N ;;
      modify (set_preview (Some (url preview)) (token preview)) >>
      ret (Some preview)
  | _ => ret None
  end.

Definition deploy_and_preview : M (option reply) :=
  start_preview_server >> get_preview_url.

(** [create_session]: a new agent whose sandbox is set up at once. *)
Definition create_session : M unit := web_ensure_sandbox.

(** **** src/api/websocket.py and src/api/routes.py *)

(** [await websocket.send_json(...)]; the transport itself is outside
    the model, a send is recorded and returns. *)
Definition send_json (ev : event) : M unit :=
  modify (fun s => set_sent (sent s ++ [ev]) s).

Definition send_preview (preview : option reply) : M unit :=
  match preview with
  | Some p => send_json (Preview (url p) (token p))
  | None => ret tt
  end.

(** The statements under [try:] of a "chat" message. *)
Definition chat_turn_body (prompt : string) : M unit :=
  (* Stream the response *)
  stream_generate prompt send_json >>
  (* After generation, deploy and get preview *)
  preview <~ deploy_and_preview ;;
  send_preview preview >>
  files <~ get_project_files ;;
  send_json (Complete files).

(** A "chat" message on the websocket. *)
Definition chat_turn (prompt : string) : M unit :=
  try_except (chat_turn_body prompt)
    (fun e => send_json (Error (exn_message e))).

(** An "update_code" message on the websocket. *)
Definition update_code_turn (path content : string) : M unit :=
  if nonempty path then
    update_file path content >>
    preview <~ deploy_and_preview ;;
    send_preview preview
  else ret tt.

(** [POST /chat] *)
Definition rest_chat (prompt : string) : M web_result :=
  result <~ generate_web_code prompt ;;
  deploy_and_preview >>
  ret result.

(** [PUT /files/{session_id}/{path}] *)
Definition rest_update_file (path content : string) : M unit :=
  update_file path content >>
  deploy_and_preview >>
  ret tt.

(** What a client can ask of a session. *)
Inductive request : Type :=
| WsChat (prompt : string)
| WsUpdateCode (path content : string)
| RestChat (prompt : string)
| RestUpdateFile (path content : string)
| RestPreview.

Definition serve (r : request) : M unit :=
  match r with
  | WsChat prompt => chat_turn prompt
  | WsUpdateCode path content => update_code_turn path content
  | RestChat prompt => rest_chat prompt >> ret tt
  | RestUpdateFile path content => rest_update_file path content
  | RestPreview => get_preview_url >> ret tt
  end.

End Program.

End Model.


(** ** The notions the properties are stated with *)

Module Notions.
Import Re Model.

(** *** Texts and patterns *)

(** Every character of [s] satisfies [p]. *)
Fixpoint all (p : ascii -> bool) (s : string) : bool :=
  match s with
  | "" => true
  | String c s' => p c && all p s'
  end.

(** A pattern that opens with a literal fence. *)
Definition fence_then (r : regex) : regex :=
  RSeq (RSet (CChar backtick))
    (RSeq (RSet (CChar backtick)) (RSeq (RSet (CChar backtick)) r)).

Definition fence_pattern (p : string) : Prop :=
  exists r, compile p = Compiled (fence_then r).

Definition suffix (s' s : string) : Prop := exists p, s = p ++ s'.

(** A sequence whose remaining items end in a literal fence. *)
Definition starts_fence (r : regex) : bool :=
  match r with
  | RSeq (RSet (CChar a)) (RSeq (RSet (CChar b)) (RSeq (RSet (CChar c)) _)) =>
      (a =? backtick)%char && (b =? backtick)%char && (c =? backtick)%char
  | _ => false
  end.

Fixpoint needs_fence (r : regex) : bool :=
  starts_fence r ||
  match r with
  | RSeq _ b => needs_fence b
  | _ => false
  end.

(** The characters of [s] read literally, then [r]. *)
Fixpoint lits (s : string) (r : regex) : regex :=
  match s with
  | "" => r
  | String c s' => RSeq (RSet (CChar c)) (lits s' r)
  end.

(** What [(.*?)] compiles to. *)
Definition lazy_group : regex :=
  RGroup 1 (RSeq (RRepeat false 0 None CAny) REmpty).

(** What [\s*\n(.*?)```] compiles to. *)
Definition block_tail : regex :=
  RSeq (RRepeat true 0 None CSpace)
    (RSeq (RSet (CChar nl)) (RSeq lazy_group (fence_then REmpty))).

(** The continuation at the end of a pattern. *)
Definition accept : string -> captures -> option found :=
  fun s' caps => Some (caps, s').

(** What is left of [\s*\n(.*?)```] once the blanks are read. *)
Definition after_newline (fl : flags) (post : string) (caps : captures)
    : string -> option found :=
  fun s' =>
    m fl (RSeq (RSet (CChar nl)) (RSeq lazy_group (fence_then REmpty)))
      s' caps accept.

(** A response [pre ++ "```" ++ tag ++ NL ++ body ++ "```" ++ post] with
    exactly one fenced block: no fence starts in the text before the
    block, in its body or after it.  Single backticks may occur, except
    where they would touch a fence. *)
Record one_block (pre body post : string) : Prop :=
  { clean_pre : contains "```" (pre ++ "``") = false;
    clean_body : contains "```" (body ++ "``") = false;
    clean_post : contains "```" ("``" ++ post) = false }.

(** The spellings of a language tag that step 2 of the resolver looks
    for, each with the file name it fills. *)
Definition recognised_tags : list (string * string) :=
  [ ("html", "index.html"); ("HTML", "index.html"); ("htm", "index.html");
    ("css", "styles.css"); ("CSS", "styles.css");
    ("javascript", "script.js"); ("js", "script.js");
    ("JavaScript", "script.js"); ("JS", "script.js") ].

(** [s.lower()] *)
Fixpoint lower_str (s : string) : string :=
  match s with
  | "" => ""
  | String c s' => String (lower c) (lower_str s')
  end.

(** A character without a meaning in the pattern syntax. *)
Definition plain (c : ascii) : bool := negb (special c).

(** The parser state after reading the plain characters of [s]. *)
Fixpoint push_all (s : string) (st : pstate) : pstate :=
  match s with
  | "" => st
  | String c s' => push_all s' (push (RSet (CChar c)) st)
  end.

Fixpoint rev_lits (s : string) (acc : list regex) : list regex :=
  match s with
  | "" => acc
  | String c s' => rev_lits s' (RSet (CChar c) :: acc)
  end.

(** What [\n?(.*?)```] compiles to. *)
Definition ext_tail : regex :=
  RSeq (RRepeat true 0 (Some 1) (CChar nl))
    (RSeq lazy_group (fence_then REmpty)).

(** *** Runs *)

(** What a statement does to the state, whatever its outcome. *)
Definition keeps (R : state -> state -> Prop) {A} (c : M A) : Prop :=
  forall s, R s (snd (c s)).

(** A relation between the state before and the state after that the
    plumbing cannot break: it is a preorder and does not look at the
    trace, at the sandbox flag once there is a manager, at the server
    flag or at the preview fields. *)
Class quiet (R : state -> state -> Prop) : Prop :=
  { q_refl : forall s, R s s;
    q_trans : forall s1 s2 s3, R s1 s2 -> R s2 s3 -> R s1 s3;
    q_trace : forall s v, R s (set_trace v s);
    q_sandbox : forall s b, R s (set_sandbox (Some b) s);
    q_running : forall s b, R s (set_server_running b s);
    q_preview : forall s u t, R s (set_preview u t s) }.

(** Relations that also ignore the file store and the uploads, the
    history, or the events sent. *)
Class ignores_files (R : state -> state -> Prop) : Prop :=
  { q_files : forall s v, R s (set_project_files v s);
    q_uploaded : forall s v, R s (set_uploaded v s) }.

Class ignores_history (R : state -> state -> Prop) : Prop :=
  { q_history : forall s v, R s (set_history v s) }.

Class ignores_sent (R : state -> state -> Prop) : Prop :=
  { q_sent : forall s v, R s (set_sent v s) }.

(** The part of [upload_file] before the upload is recorded. *)
Definition try_upload (E : env) (path content : string) : M unit :=
  need_sandbox E >>
  try_except
    (perform E (SdkUpload content path) >> ret tt)
    (fun e =>
       let encoded := b64encode E content in
       let dir_path := dir_path path in
       (if dir_path =? "" then ret tt
        else perform E (SdkExec ("mkdir -p " ++ dir_path)) >> ret tt) >>
       perform E (SdkExec ("echo '" ++ encoded ++ "' | base64 -d > " ++ path))
       >> ret tt).

(** The files last uploaded: [uploaded] read as a dictionary, its first
    entry for a path being the latest.  The store and the uploads agree
    on every workspace file, and nothing else was uploaded. *)
Definition synced (s : state) : Prop :=
  (forall f, dict_get (project_files s) f
             = dict_get (uploaded s) (workspace_path f))
  /\ (forall p c, In (p, c) (uploaded s) -> exists f, p = workspace_path f).

Definition sync_kept (s s' : state) : Prop := synced s -> synced s'.

(** The states a session goes through: created with its sandbox set up,
    then serving requests, whatever their outcome. *)
Inductive session_state (E : env) : state -> Prop :=
| session_created (s : state) :
    create_session E initial = (Returns tt, s) -> session_state E s
| session_served (s : state) (r : request) :
    session_state E s -> session_state E (snd (serve E r s)).

Definition manager_kept (s s' : state) : Prop :=
  sandbox s <> None -> sandbox s' <> None.

Definition store_same (s s' : state) : Prop :=
  project_files s' = project_files s.

(** *** Worlds to run the program in *)

(** An answer: the text of a completion or the output of a command, and
    what the command wrote to stderr. *)
Definition answer (t err : string) : reply :=
  {| raised := None; text := t; deltas := [t]; broken := None;
     stderr := err; exit_code := 0;
     url := "https://preview.example"; token := Some "secret" |}.

(** A call that raises. *)
Definition failure (msg : string) : reply :=
  {| raised := Some msg; text := ""; deltas := []; broken := None;
     stderr := ""; exit_code := 1; url := ""; token := None |}.

Definition hello_page : string :=
  "```index.html" ++ NL ++ "<h1>Hi</h1>" ++ NL ++ "```".

(** Every call answers; programs run without complaint. *)
Definition calm_world : env :=
  {| oracle := fun _ _ => answer hello_page ""; b64encode := fun s => s |}.

(** Every call answers; every program run writes to stderr. *)
Definition failing_programs : env :=
  {| oracle := fun _ _ => answer hello_page "Traceback";
     b64encode := fun s => s |}.

(** The sandbox refuses to kill the old preview server. *)
Definition deploy_fails : env :=
  {| oracle := fun _ c =>
                 match c with
                 | SdkExec command =>
                     if startswith command "pkill"
                     then failure "sandbox unreachable"
                     else answer hello_page ""
                 | _ => answer hello_page ""
                 end;
     b64encode := fun s => s |}.

(** *** Outcomes, events, history and calls *)

(** [post c s Q]: run from [s], the statement [c] ends with an outcome
    and a state that satisfy [Q]. *)
Definition post {A} (c : M A) (s : state)
    (Q : outcome A -> state -> Prop) : Prop :=
  Q (fst (c s)) (snd (c s)).

(** From [s] to [s'] the events sent all satisfy [P]. *)
Definition emits (P : event -> Prop) (s s' : state) : Prop :=
  exists evs, sent s' = (sent s ++ evs)%list /\ Forall P evs.

(** The events that do not end a turn. *)
Definition benign (ev : event) : Prop :=
  match ev with
  | Token _ | Code _ _ | Preview _ _ => True
  | Complete _ | Error _ => False
  end.

Definition history_same (s s' : state) : Prop := history s' = history s.

(** What the batch generation does to the history. *)
Definition batch_history (prompt : string) (s : state)
    (r : outcome web_result) (s' : state) : Prop :=
  match r with
  | Returns result =>
      exists raw,
        history s'
        = (history s
           ++ [GenerateWeb prompt (keys (wr_files result)) (Some raw)])%list
  | _ => history s' = history s
  end.

(** What the streamed generation does to the history. *)
Definition stream_history (prompt : string) (s : state)
    (r : outcome unit) (s' : state) : Prop :=
  match r with
  | Returns _ =>
      exists response files,
        Parse._parse_web_files response = Returns files
        /\ history s'
           = (history s ++ [GenerateWeb prompt (keys files) None])%list
  | _ => history s' = history s
  end.

(** No call to the outside raises. *)
Definition calm (E : env) : Prop := forall n c, raised (oracle E n c) = None.

(** Every command run in the sandbox writes to stderr. *)
Definition noisy (E : env) : Prop :=
  forall n command, stderr (oracle E n (SdkExec command)) <> "".

(** The languages [execute_code] runs. *)
Definition supported : list string := ["python"; "javascript"; "bash"].

Definition is_llm (c : call) : bool :=
  match c with
  | LlmChat _ _ _ _ => true
  | _ => false
  end.

Definition is_exec (c : call) : bool :=
  match c with
  | SdkExec _ => true
  | _ => false
  end.

Definition llm_calls (s : state) : nat :=
  List.length (filter is_llm (trace s)).

Definition exec_runs (s : state) : nat :=
  List.length (filter is_exec (trace s)).

(** From [s] to [s']: [l] more LLM calls, [x] more commands run. *)
Definition calls_added (l x : nat) (s s' : state) : Prop :=
  llm_calls s' = llm_calls s + l /\ exec_runs s' = exec_runs s + x.

End Notions.
Import Notions.

(** * The conversation, the session manager and the REST endpoints *)

(** ** [CodeAgent.chat] (src/agent.py) *)

Module Conversation.
Import Model.
Section Program.
Variable E : env.

Definition CHAT_SYSTEM_PROMPT : string :=
  Parse.lines
    [ "You are a helpful coding assistant. You can:";
      "1. Generate code when asked";
      "2. Explain code concepts";
      "3. Help debug issues";
      "4. Answer programming questions";
      "";
      "When generating code, wrap it in triple backticks with the language identifier.";
      "Be concise and helpful." ].

(** The last five turns, as seen by the model: the generations only,
    each as a request and the code it got. *)
Definition chat_context (h : list turn) : list message :=
  flat_map
    (fun item =>
       match item with
       | Generate prompt code language =>
           [ {| role := "user"; content := "Generate code: " ++ prompt |};
             {| role := "assistant";
                content := "```" ++ language ++ NL ++ code ++ NL ++ "```" |} ]
       | _ => []
       end)
    (last_n 5 h).

Definition chat_messages (user_message : string) (h : list turn)
    : list message :=
  [ {| role := "system"; content := CHAT_SYSTEM_PROMPT |} ]
  ++ chat_context h
  ++ [ {| role := "user"; content := user_message |} ].

(** [CodeAgent.chat(message)] *)
Definition agent_chat (user_message : string) : M string :=
  s <~ get ;;
  let messages := chat_messages user_message (history s) in
  response <~ chat E messages 7 4096%N ;;
  ret response.

End Program.
End Conversation.
Import Conversation.

(** ** [SessionManager] (src/sessions/manager.py)

    The sessions of the process, each with its agent, in a dictionary
    keyed by the session identifier.  The identifiers drawn and the clock
    readings come from outside, as the answers to the calls do; the calls
    of all the sessions are recorded together, in the order they are
    made.  A coroutine runs to its end before the next one starts: what
    another request does while this one awaits is not modelled. *)

Module Sessions.
Import Model.

(** *** Dictionaries keyed by a string, in insertion order *)

Section Odict.

Context {V : Type}.

Definition odict : Type := list (string * V).

Fixpoint od_get (d : odict) (k : string) : option V :=
  match d with
  | [] => None
  | (k', v) :: d' => if (k' =? k) then Some v else od_get d' k
  end.

(** [d[k] = v] *)
Fixpoint od_set (d : odict) (k : string) (v : V) : odict :=
  match d with
  | [] => [(k, v)]
  | (k', v') :: d' =>
      if (k' =? k) then (k', v) :: d' else (k', v') :: od_set d' k v
  end.

(** [d.pop(k, None)]: the value, and the dictionary without the key. *)
Fixpoint od_pop (d : odict) (k : string) : option V * odict :=
  match d with
  | [] => (None, [])
  | (k', v) :: d' =>
      if (k' =? k) then (Some v, d')
      else let (found, rest) := od_pop d' k in (found, (k', v) :: rest)
  end.

Definition od_keys (d : odict) : list string := map fst d.

End Odict.

Arguments odict V : clear implicits.

(** *** Dates and durations, in microseconds *)

(** A [datetime] counts from 0001-01-01 00:00:00 and ends with the
    year 9999. *)
Definition MAX_DATETIME : Z := 3652059 * 86400 * 1000000 - 1.

(** [timedelta(minutes=n)], within the days a [timedelta] can hold. *)
Definition timedelta_minutes (n : Z) : outcome Z :=
  let microseconds := (n * 60000000)%Z in
  if (Z.abs (microseconds / 86400000000) <=? 999999999)%Z
  then Returns microseconds
  else Unmodelled.

(** [moment - delta] *)
Definition datetime_sub (moment delta : Z) : outcome Z :=
  let result := (moment - delta)%Z in
  if ((0 <=? result) && (result <=? MAX_DATETIME))%Z
  then Returns result
  else Raises (Exception "date value out of range").

(** *** Sessions *)

Definition DEFAULT_MODEL : string :=
  "meta-llama/llama-4-maverick-17b-128e-instruct".

(** [Session]; [agent] holds the agent and the preview fields of the
    session, [model] the model of the agent's LLM client. *)
Record session : Type :=
  { id : string;
    agent : state;
    model : string;
    status : string;
    files : list string;
    created_at : Z;
    last_activity : Z }.

Definition set_agent (a : state) (x : session) : session :=
  {| id := id x; agent := a; model := model x; status := status x;
     files := files x; created_at := created_at x;
     last_activity := last_activity x |}.

Definition set_last_activity (t : Z) (x : session) : session :=
  {| id := id x; agent := agent x; model := model x; status := status x;
     files := files x; created_at := created_at x; last_activity := t |}.

(** What lies outside the process. *)
Record outside : Type :=
  { sdk : env;
    uuid4 : nat -> string;    (* str(uuid.uuid4()), draw after draw *)
    now : nat -> Z }.         (* datetime.now(), reading after reading *)

(** The manager: its sessions, and what an observer has seen of calls,
    draws and clock readings. *)
Record manager : Type :=
  { sessions : odict session;
    world : list call;
    drawn : nat;
    ticks : nat }.

Definition empty_manager : manager :=
  {| sessions := []; world := []; drawn := 0; ticks := 0 |}.

Definition set_sessions (v : odict session) (m : manager) : manager :=
  {| sessions := v; world := world m; drawn := drawn m; ticks := ticks m |}.

Definition set_world (v : list call) (m : manager) : manager :=
  {| sessions := sessions m; world := v; drawn := drawn m;
     ticks := ticks m |}.

Definition set_drawn (v : nat) (m : manager) : manager :=
  {| sessions := sessions m; world := world m; drawn := v;
     ticks := ticks m |}.

Definition set_ticks (v : nat) (m : manager) : manager :=
  {| sessions := sessions m; world := world m; drawn := drawn m;
     ticks := v |}.

Section Manager.

Variable W : outside.

(** A statement of an agent, run where the calls of all sessions are
    recorded. *)
Definition on_agent {A} (c : M A) (a : state) (m : manager)
    : outcome A * state * manager :=
  let (r, a') := c (set_trace (world m) a) in
  (r, a', set_world (trace a') m).

(** [datetime.now()] *)
Definition read_clock (m : manager) : Z * manager :=
  (now W (ticks m), set_ticks (S (ticks m)) m).

(** [model or DEFAULT_MODEL] *)
Definition model_or_default (requested : option string) : string :=
  match requested with
  | Some name => if name =? "" then DEFAULT_MODEL else name
  | None => DEFAULT_MODEL
  end.

Definition create_session (requested : option string) (m : manager)
    : outcome session * manager :=
  let session_id := take 8 (uuid4 W (drawn m)) in
  let m := set_drawn (S (drawn m)) m in
  (* Initialize sandbox in background *)
  match on_agent (web_ensure_sandbox (sdk W)) initial m with
  | (Returns _, a, m) =>
      let (created, m) := read_clock m in
      let (active, m) := read_clock m in
      let session :=
        {| id := session_id; agent := a;
           model := model_or_default requested; status := "active";
           files := []; created_at := created; last_activity := active |} in
      (Returns session,
       set_sessions (od_set (sessions m) session_id session) m)
  | (Raises e, _, m) => (Raises e, m)
  | (Unmodelled, _, m) => (Unmodelled, m)
  end.

Definition get_session (session_id : string) (m : manager)
    : option session * manager :=
  match od_get (sessions m) session_id with
  | Some session =>
      let (t, m) := read_clock m in
      let session := set_last_activity t session in
      (Some session,
       set_sessions (od_set (sessions m) session_id session) m)
  | None => (None, m)
  end.

Definition destroy_session (session_id : string) (m : manager)
    : outcome bool * manager :=
  match od_pop (sessions m) session_id with
  | (Some session, rest) =>
      match on_agent (cleanup (sdk W)) (agent session)
              (set_sessions rest m) with
      | (Returns _, _, m) => (Returns true, m)
      | (Raises e, _, m) => (Raises e, m)
      | (Unmodelled, _, m) => (Unmodelled, m)
      end
  | (None, _) => (Returns false, m)
  end.

(** [for sid in ids: await self.destroy_session(sid)] *)
Fixpoint destroy_each (ids : list string) (m : manager)
    : outcome unit * manager :=
  match ids with
  | [] => (Returns tt, m)
  | sid :: ids' =>
      match destroy_session sid m with
      | (Returns _, m) => destroy_each ids' m
      | (Raises e, m) => (Raises e, m)
      | (Unmodelled, m) => (Unmodelled, m)
      end
  end.

Definition cleanup_inactive (max_age_minutes : Z) (m : manager)
    : outcome unit * manager :=
  let (t, m) := read_clock m in
  match (delta <- timedelta_minutes max_age_minutes ;;
         datetime_sub t delta) with
  | Returns cutoff =>
      let to_remove :=
        od_keys
          (filter (fun kv => (last_activity (snd kv) <? cutoff)%Z)
             (sessions m)) in
      destroy_each to_remove m
  | Raises e => (Raises e, m)
  | Unmodelled => (Unmodelled, m)
  end.

Definition cleanup_all (m : manager) : outcome unit * manager :=
  destroy_each (od_keys (sessions m)) m.

End Manager.

End Sessions.

(** ** The REST endpoints of a session (src/api/routes.py)

    Each handler takes the manager and gives its answer and the manager
    after it.  [list_models] and [proxy_preview], which speak HTTP to
    other servers, are left out. *)

Module Routes.
Import Model Sessions.

(** How a handler ends: with its answer, with the [HTTPException] it
    raises, or with another exception, which it does not catch. *)
Inductive response (A : Type) : Type :=
| Ok (body : A)
| HTTPException (status_code : nat) (detail : string)
| Failed (e : exn)
| Beyond.
Arguments Ok {A} body.
Arguments HTTPException {A} status_code detail.
Arguments Failed {A} e.
Arguments Beyond {A}.

Record SessionResponse : Type :=
  { sr_session_id : string;
    sr_status : string;
    sr_preview_url : option string;
    sr_files : option (list string) }.

Record ChatResponse : Type :=
  { cr_message : string;
    cr_code : option string;
    cr_files : list string;
    cr_preview_url : option string }.

Record PreviewResponse : Type :=
  { pr_url : option string; pr_token : option string }.

Record FileInfo : Type :=
  { fi_path : string; fi_name : string; fi_content : option string }.

Section Routes.

Variable W : outside.

Definition session_not_found {A} : response A :=
  HTTPException 404 "Session not found".

(** What an exception that is not caught makes of a handler. *)
Definition uncaught {A B} (r : outcome A) (f : A -> response B)
    : response B :=
  match r with
  | Returns a => f a
  | Raises e => Failed e
  | Unmodelled => Beyond
  end.

(** The session, after a statement of its agent, back in the
    dictionary: the session object is the one the dictionary holds. *)
Definition with_agent {A} (c : M A) (session_id : string)
    (session : session) (m : manager) : outcome A * state * manager :=
  let '(r, a, m) := on_agent c (agent session) m in
  (r, a,
   set_sessions (od_set (sessions m) session_id (set_agent a session)) m).

(** [POST /sessions] *)
Definition create_session (request : option (option string)) (m : manager)
    : response SessionResponse * manager :=
  let model := match request with
               | Some requested => requested
               | None => None
               end in
  let (r, m) := Sessions.create_session W model m in
  (uncaught r
     (fun session =>
        Ok {| sr_session_id := id session; sr_status := "active";
              sr_preview_url := None; sr_files := None |}),
   m).

(** [GET /sessions/{session_id}] *)
Definition get_session (session_id : string) (m : manager)
    : response SessionResponse * manager :=
  match Sessions.get_session W session_id m with
  | (None, m) => (session_not_found, m)
  | (Some session, m) =>
      (Ok {| sr_session_id := id session; sr_status := status session;
             sr_preview_url := preview_url (agent session);
             sr_files := Some (keys (project_files (agent session))) |},
       m)
  end.

(** [DELETE /sessions/{session_id}] *)
Definition delete_session (session_id : string) (m : manager)
    : response string * manager :=
  let (r, m) := Sessions.destroy_session W session_id m in
  (uncaught r
     (fun success =>
        if success then Ok "destroyed" else session_not_found),
   m).

(** [POST /chat] *)
Definition chat (session_id prompt : string) (m : manager)
    : response ChatResponse * manager :=
  match Sessions.get_session W session_id m with
  | (None, m) => (session_not_found, m)
  | (Some session, m) =>
      let '(r, a, m) :=
        with_agent (rest_chat (sdk W) prompt) session_id session m in
      (uncaught r
         (fun result =>
            Ok {| cr_message := wr_message result;
                  cr_code := Some (wr_code result);
                  cr_files := keys (wr_files result);
                  cr_preview_url := preview_url a |}),
       m)
  end.

(** [GET /preview/{session_id}] *)
Definition get_preview (session_id : string) (m : manager)
    : response PreviewResponse * manager :=
  match Sessions.get_session W session_id m with
  | (None, m) => (session_not_found, m)
  | (Some session, m) =>
      let '(r, a, m) :=
        with_agent (get_preview_url (sdk W)) session_id session m in
      (uncaught r
         (fun preview =>
            Ok {| pr_url := option_map url preview;
                  pr_token := match preview with
                              | Some p => token p
                              | None => None
                              end |}),
       m)
  end.

(** [GET /files/{session_id}] *)
Definition list_files (session_id : string) (m : manager)
    : response (list FileInfo) * manager :=
  match Sessions.get_session W session_id m with
  | (None, m) => (session_not_found, m)
  | (Some session, m) =>
      (Ok (map (fun f => {| fi_path := f; fi_name := f;
                            fi_content := None |})
             (keys (project_files (agent session)))),
       m)
  end.

(** [GET /files/{session_id}/{path}] *)
Definition get_file (session_id path : string) (m : manager)
    : response (string * string) * manager :=
  match Sessions.get_session W session_id m with
  | (None, m) => (session_not_found, m)
  | (Some session, m) =>
      match dict_get (project_files (agent session)) path with
      | None => (HTTPException 404 "File not found", m)
      | Some content => (Ok (path, content), m)
      end
  end.

(** [PUT /files/{session_id}/{path}]; [content] is the entry "content"
    of the body, if it has one. *)
Definition update_file (session_id path : string) (content : option string)
    (m : manager) : response (string * string) * manager :=
  match Sessions.get_session W session_id m with
  | (None, m) => (session_not_found, m)
  | (Some session, m) =>
      let text := match content with
                  | Some c => c
                  | None => ""
                  end in
      let '(r, a, m) :=
        with_agent (rest_update_file (sdk W) path text) session_id session
          m in
      (uncaught r (fun _ => Ok ("updated", path)), m)
  end.

End Routes.

End Routes.

(** ** Notions for the further properties *)

Module BlockNotions.
Import Re.

(** The names the resolver gives to blocks that carry none. *)
Definition default_names : list string :=
  ["index.html"; "styles.css"; "script.js"].

(** A text without blanks at either end. *)
Definition stripped (s : string) : Prop := strip s = s.

Definition nonspace (c : ascii) : bool := negb (isspace c).

(** What the resolver may add to the files that blocks name themselves:
    entries under the default names, each at most once and none for a
    name already there; "styles.css" only if no block named "style.css",
    "script.js" only if none named "app.js". *)
Definition additions (named extra : dict) : Prop :=
  NoDup (keys extra)
  /\ (forall name, In name (keys extra) ->
        In name default_names /\ dict_mem name named = false)
  /\ (In "styles.css" (keys extra) -> dict_mem "style.css" named = false)
  /\ (In "script.js" (keys extra) -> dict_mem "app.js" named = false).

(** What [(.*?)] compiles to as group [i]. *)
Definition lazy_group_n (i : nat) : regex :=
  RGroup i (RSeq (RRepeat false 0 None CAny) REmpty).

(** [\s*\n(.*?)```] with the body in group [i]. *)
Definition block_tail_n (i : nat) : regex :=
  RSeq (RRepeat true 0 None CSpace)
    (RSeq (RSet (CChar nl)) (RSeq (lazy_group_n i) (fence_then REmpty))).

(** [html|css|js|json] *)
Definition ext_alt : regex :=
  RAlt (lits "html" REmpty)
    (RAlt (lits "css" REmpty) (RAlt (lits "js" REmpty) (lits "json" REmpty))).

(** [\S+\.(?:html|css|js|json)] *)
Definition name_part : regex :=
  RSeq (RRepeat true 1 None CNotSpace)
    (RSeq (RSet (CChar ".")) (RSeq ext_alt REmpty)).

(** What follows the fence in pattern 1 and in the generic pattern. *)
Definition labelled_block : regex :=
  RSeq (RGroup 1 name_part) (block_tail_n 2).

Definition anonymous_block : regex :=
  RSeq (RSeq (RRepeat true 0 None CWord) REmpty) block_tail.

(** Sets and patterns that match no blank character, and capture
    nothing. *)
Definition cs_solid (cs : cset) : bool :=
  match cs with
  | CChar a => negb (isspace a) && negb (isspace (lower a))
  | CNotSpace | CWord => true
  | CAny | CSpace => false
  end.

Fixpoint solid (r : regex) : bool :=
  match r with
  | REmpty => true
  | RSet cs | RRepeat _ _ _ cs => cs_solid cs
  | RSeq a b | RAlt a b => solid a && solid b
  | RGroup _ _ => false
  end.

(** The text is over, or goes on with a blank. *)
Definition blank_head (s : string) : bool :=
  match s with
  | "" => true
  | String c _ => isspace c
  end.

(** The file extensions pattern 1 takes for a file name, and the tags
    step 2 knows. *)
Definition extensions : list string := ["html"; "css"; "js"; "json"].

Definition language_tags : list string := map fst recognised_tags.

(** A character a file name or a tag is made of here: neither a blank
    nor a backtick. *)
Definition name_char (c : ascii) : bool :=
  negb (isspace c) && negb (c =? backtick)%char.

(** A response [pre ++ "```" ++ inner ++ "```" ++ post] in which the two
    fences shown are the only ones. *)
Record fenced_once (pre inner post : string) : Prop :=
  { fence_before : contains "```" (pre ++ "``") = false;
    fence_inside : contains "```" ("``" ++ inner ++ "``") = false;
    fence_after : contains "```" ("``" ++ post) = false }.

(** A character of a language name that is read literally in a pattern
    and is no backtick. *)
Definition language_char (c : ascii) : bool :=
  plain c && negb (c =? backtick)%char.

(** [inner] opens with the language name, in any case. *)
Definition tagged_with (language inner : string) : bool :=
  startswith (lower_str inner) (lower_str language).

(** What follows the blanks of a block tail, with the body in group
    [i]. *)
Definition after_newline_n (fl : flags) (i : nat) (caps : captures)
    : string -> option found :=
  fun s' =>
    m fl (RSeq (RSet (CChar nl)) (RSeq (lazy_group_n i) (fence_then REmpty)))
      s' caps accept.

End BlockNotions.
Import BlockNotions.

Module AgentNotions.
Import Model.

(** Relations between the state before and the state after that see the
    calls made, and hold across a call that [ok] lets through.  They do
    not look at the server flag, the preview fields, the file store, the
    uploads or the events sent. *)
Class steady (ok : call -> bool) (R : state -> state -> Prop) : Prop :=
  { s_refl : forall s, R s s;
    s_trans : forall s1 s2 s3, R s1 s2 -> R s2 s3 -> R s1 s3;
    s_call : forall s c, ok c = true -> R s (set_trace (c :: trace s) s);
    s_running : forall s b, R s (set_server_running b s);
    s_preview : forall s u t, R s (set_preview u t s);
    s_files : forall s v, R s (set_project_files v s);
    s_uploaded : forall s v, R s (set_uploaded v s);
    s_sent : forall s v, R s (set_sent v s) }.

Class ignores_sandbox (R : state -> state -> Prop) : Prop :=
  { q_any_sandbox : forall s v, R s (set_sandbox v s) }.

Definition not_llm (c : call) : bool := negb (is_llm c).

(** No LLM call was made from [s] to [s']. *)
Definition llm_same (s s' : state) : Prop := llm_calls s' = llm_calls s.

(** The calls that make, reach or delete a sandbox. *)
Definition is_lifecycle (c : call) : bool :=
  match c with
  | SdkConnect | SdkCreate | SdkDelete => true
  | _ => false
  end.

Definition not_lifecycle (c : call) : bool := negb (is_lifecycle c).

Definition lifecycle (s : state) : list call :=
  filter is_lifecycle (trace s).

(** A sandbox that is there stays, and no other is made. *)
Definition sandbox_kept (s s' : state) : Prop :=
  sandbox s = Some true ->
  sandbox s' = Some true /\ lifecycle s' = lifecycle s.

(** The requests that ask the LLM. *)
Definition asks_llm (r : request) : bool :=
  match r with
  | WsChat _ | RestChat _ => true
  | _ => false
  end.

(** Neither an LLM call nor a history entry from [s] to [s']. *)
Definition still (s s' : state) : Prop :=
  llm_calls s' = llm_calls s /\ history s' = history s.

(** From [s] to [s']: [l] more LLM calls, [h] more history entries. *)
Definition grown (l h : nat) (s s' : state) : Prop :=
  llm_calls s' = llm_calls s + l
  /\ List.length (history s') = List.length (history s) + h.

(** Every call answers but the fourth, which the SDK refuses. *)
Definition fourth_call_fails : env :=
  {| oracle := fun n _ =>
                 if (n =? 3)%nat then failure "upload refused"
                 else answer hello_page "";
     b64encode := fun s => s |}.

(** The calls that put a file or run a command in the sandbox. *)
Definition is_work (c : call) : bool :=
  match c with
  | SdkExec _ | SdkUpload _ _ => true
  | _ => false
  end.

Definition not_work (c : call) : bool := negb (is_work c).

Definition work (s : state) : list call := filter is_work (trace s).

(** Nothing was put or run in the sandbox from [s] to [s']. *)
Definition idle (s s' : state) : Prop := work s' = work s.

End AgentNotions.
Import AgentNotions.

Module ServerNotions.
Import Model Sessions Routes.

(** The keys of the dictionary of sessions are distinct, as the keys of
    a dictionary are. *)
Definition wf (m : manager) : Prop := NoDup (od_keys (sessions m)).

(** The agent of the session holds a created sandbox. *)
Definition holds_sandbox (x : session) : bool :=
  match sandbox (agent x) with
  | Some true => true
  | _ => false
  end.

(** How many sessions of a dictionary hold a created sandbox. *)
Definition sandboxes (d : odict session) : nat :=
  List.length (filter (fun kv => holds_sandbox (snd kv)) d).

Definition mem (k : string) (ids : list string) : bool :=
  existsb (String.eqb k) ids.

Definition registered (session_id : string) (m : manager) : bool :=
  match od_get (sessions m) session_id with
  | Some _ => true
  | None => false
  end.

(** A request to one of the endpoints of a session. *)
Inductive rest : Type :=
| PostSession (request : option (option string))
| GetSession (session_id : string)
| DeleteSession (session_id : string)
| PostChat (session_id prompt : string)
| GetPreview (session_id : string)
| GetFiles (session_id : string)
| GetFile (session_id path : string)
| PutFile (session_id path : string) (content : option string).

(** The manager after the request is answered. *)
Definition after (W : outside) (r : rest) (m : manager) : manager :=
  match r with
  | PostSession request => snd (create_session W request m)
  | GetSession session_id => snd (get_session W session_id m)
  | DeleteSession session_id => snd (delete_session W session_id m)
  | PostChat session_id prompt => snd (chat W session_id prompt m)
  | GetPreview session_id => snd (get_preview W session_id m)
  | GetFiles session_id => snd (list_files W session_id m)
  | GetFile session_id path => snd (get_file W session_id path m)
  | PutFile session_id path content =>
      snd (update_file W session_id path content m)
  end.

(** The manager of a server that has answered the requests, one after
    the other, since it started. *)
Definition served (W : outside) (requests : list rest) : manager :=
  fold_left (fun m r => after W r m) requests empty_manager.

(** Every session is stored under its own identifier and holds a
    created sandbox. *)
Definition sound (m : manager) : Prop :=
  wf m
  /\ forall k x, In (k, x) (sessions m) ->
       id x = k /\ sandbox (agent x) = Some true.

(** An outside to run the manager in: every call answers, the
    identifiers drawn differ, the clock advances by ten minutes at
    each reading. *)
Definition steady_clock : outside :=
  {| sdk := calm_world;
     uuid4 := fun n =>
                nth n [ "1b9d6bcd-bbfd-4b2d-9b5d-ab8dfbbd4bed";
                        "9c5b94b1-35ad-49bb-b118-8e8fc24abf80" ]
                  "6ec0bd7f-11c0-43da-975e-2a8ad9ebae0b";
     now := fun n => (63900000000000000 + Z.of_nat n * 600000000)%Z |}.

End ServerNotions.
Import ServerNotions.

Module StoreNotions.

(** [for name, content in files.items(): d[name] = content] *)
Definition store_all (files d : dict) : dict :=
  fold_left (fun d fc => dict_set d (fst fc) (snd fc)) files d.

(** What [generate_web_code] returns for the files it has parsed. *)
Definition web_result_of (files : dict) : Model.web_result :=
  {| Model.wr_message := "Code generated successfully";
     Model.wr_files := files;
     Model.wr_code := match dict_get files "index.html" with
                      | Some c => c
                      | None => ""
                      end |}.

(** After a web generation that returned [r] the store holds the files
    parsed, over what it held in [s]. *)
Definition stores_parsed (s : Model.state) (r : outcome Model.web_result)
    (s' : Model.state) : Prop :=
  match r with
  | Returns result =>
      exists files,
        NoDup (keys files) /\ files <> []
        /\ result = web_result_of files
        /\ Model.project_files s'
           = store_all files (Model.project_files s)
  | _ => True
  end.

End StoreNotions.
Import StoreNotions.

(** * Properties *)

(** ** Strings *)

Module StrFacts.

Lemma find_from_none (sub s : string) (i j : nat) :
  find_from sub s i = None -> find_from sub s j = None.
Proof.
  revert i j; induction s as [|c s IH]; intros i j; cbn [find_from].
  - destruct (startswith "" sub); [discriminate | reflexivity].
  - destruct (startswith (String c s) sub); [discriminate |].
    apply IH.
Qed.

Lemma contains_false_here (sub s : string) :
  contains sub s = false -> startswith s sub = false.
Proof.
  unfold contains. destruct s as [|c s]; cbn [find_from].
  - destruct (startswith "" sub); [discriminate | reflexivity].
  - destruct (startswith (String c s) sub); [discriminate | reflexivity].
Qed.

Lemma contains_false_tail (sub : string) (c : ascii) (s : string) :
  contains sub (String c s) = false -> contains sub s = false.
Proof.
  unfold contains; cbn [find_from].
  destruct (startswith (String c s) sub); [discriminate |].
  destruct (find_from sub s 1) eqn:E; [discriminate |].
  intros _. now rewrite (find_from_none _ _ _ 0 E).
Qed.

Lemma contains_find (sub s : string) :
  contains sub s = true -> find s sub <> (-1)%Z.
Proof.
  unfold contains, find. destruct (find_from sub s 0); [lia | discriminate].
Qed.

Lemma not_contains_find (sub s : string) :
  contains sub s = false -> find s sub = (-1)%Z.
Proof.
  unfold contains, find. destruct (find_from sub s 0);
    [discriminate | reflexivity].
Qed.

Lemma contains_cons (sub : string) (c : ascii) (s : string) :
  contains sub (String c s) = startswith (String c s) sub || contains sub s.
Proof.
  unfold contains; cbn [find_from].
  destruct (startswith (String c s) sub); [reflexivity |]. cbn [orb].
  destruct (find_from sub s 1) eqn:E1, (find_from sub s 0) eqn:E0;
    try reflexivity.
  - now rewrite (find_from_none _ _ _ 1 E0) in E1.
  - now rewrite (find_from_none _ _ _ 0 E1) in E0.
Qed.

Lemma startswith_contains (sub s : string) :
  startswith s sub = true -> contains sub s = true.
Proof.
  intros H. unfold contains. destruct s; cbn [find_from]; now rewrite H.
Qed.

Lemma contains_app_l (sub p s : string) :
  contains sub s = true -> contains sub (p ++ s) = true.
Proof.
  intros H. induction p as [|c p IH]; [exact H |].
  cbn [append]. rewrite contains_cons, IH. apply orb_true_r.
Qed.

Lemma app_assoc (a b c : string) : (a ++ b) ++ c = a ++ (b ++ c).
Proof. induction a as [|x a IH]; cbn; [reflexivity | now rewrite IH]. Qed.

Lemma app_nil_r (a : string) : a ++ "" = a.
Proof. induction a as [|x a IH]; cbn; [reflexivity | now rewrite IH]. Qed.

Lemma length_app (a b : string) :
  String.length (a ++ b) = String.length a + String.length b.
Proof. induction a as [|x a IH]; cbn; [reflexivity | now rewrite IH]. Qed.

Lemma take_app (a b : string) : take (String.length a) (a ++ b) = a.
Proof. induction a as [|x a IH]; cbn; [now destruct b | now rewrite IH]. Qed.

(** Whether a fence starts at the head of [a ++ "``" ++ b] is decided
    inside [a ++ "``"] as soon as [a] is not empty. *)
Lemma startswith_fence_app (c : ascii) (a b : string) :
  startswith (String c (a ++ "``" ++ b)) "```"
  = startswith (String c (a ++ "``")) "```".
Proof.
  destruct a as [|c2 [|c3 a]]; cbn;
    repeat match goal with |- context [(?x =? ?y)%char] =>
      destruct (x =? y)%char end; reflexivity.
Qed.

Lemma lstrip_app_space (w g : string) :
  all isspace w = true -> lstrip (w ++ g) = lstrip g.
Proof.
  induction w as [|c w IH]; cbn [all append lstrip]; [reflexivity |].
  intros H. apply andb_true_iff in H as [-> H]. now apply IH.
Qed.

Lemma contains_fence_skip (c : ascii) (s : string) :
  (backtick =? c)%char = false ->
  contains "```" (String c s) = contains "```" s.
Proof.
  intros H. rewrite contains_cons. cbn [startswith].
  change "`"%char with backtick. now rewrite H.
Qed.

Lemma contains_fence_skip2 (c : ascii) (s : string) :
  (backtick =? c)%char = false ->
  contains "```" (String backtick (String backtick (String c s)))
  = contains "```" s.
Proof.
  intros H. rewrite !contains_cons. cbn [startswith].
  change "`"%char with backtick. rewrite H, !andb_false_r.
  reflexivity.
Qed.

Lemma dict_set_nonempty (d : dict) (k v : string) : dict_set d k v <> [].
Proof.
  destruct d as [|[k' v'] d]; simpl; [discriminate |].
  destruct (k' =? k); discriminate.
Qed.

End StrFacts.
Import StrFacts.

(** ** The matcher *)

Module ReFacts.
Import Re.

Lemma backtick_match (fl : flags) (x : ascii) :
  cs_match fl (CChar backtick) x = true -> x = backtick.
Proof.
  unfold cs_match. destruct (ignorecase fl).
  - destruct x as [[] [] [] [] [] [] [] []]; vm_compute;
      intros H; try discriminate H; reflexivity.
  - intros H. symmetry. now apply Ascii.eqb_eq.
Qed.

Lemma backtick_self (fl : flags) :
  cs_match fl (CChar backtick) "`"%char = true.
Proof. unfold cs_match. destruct (ignorecase fl); reflexivity. Qed.

Lemma match_here_fence (fl : flags) (r : regex) (s : string) :
  startswith s "```" = false -> match_here fl (fence_then r) s = None.
Proof.
  unfold match_here, fence_then. intros H.
  destruct s as [|c1 s]; [reflexivity |]. cbn [m].
  destruct (cs_match fl (CChar backtick) c1) eqn:E1; [|reflexivity].
  apply backtick_match in E1; subst c1.
  destruct s as [|c2 s]; [reflexivity |]. cbn [m].
  destruct (cs_match fl (CChar backtick) c2) eqn:E2; [|reflexivity].
  apply backtick_match in E2; subst c2.
  destruct s as [|c3 s]; [reflexivity |]. cbn [m].
  destruct (cs_match fl (CChar backtick) c3) eqn:E3; [|reflexivity].
  apply backtick_match in E3; subst c3.
  cbn in H. discriminate H.
Qed.

Lemma search_re_no_fence (fl : flags) (r : regex) (s : string) :
  contains "```" s = false -> search_re fl (fence_then r) s = None.
Proof.
  induction s as [|c s IH]; intros H.
  - cbn [search_re]. now rewrite match_here_fence.
  - cbn [search_re].
    rewrite match_here_fence by now apply contains_false_here.
    apply IH. eapply contains_false_tail; eassumption.
Qed.

Lemma findall_re_no_fence (fl : flags) (r : regex) (s : string) (skip : nat) :
  contains "```" s = false -> findall_re fl (fence_then r) s skip = [].
Proof.
  revert skip; induction s as [|c s IH]; intros skip H.
  - destruct skip; [|reflexivity]. cbn [findall_re].
    now rewrite match_here_fence.
  - pose proof (contains_false_tail _ _ _ H) as Ht.
    destruct skip as [|skip]; cbn [findall_re].
    + rewrite match_here_fence by now apply contains_false_here.
      now apply IH.
    + now apply IH.
Qed.

Lemma search_fence_pattern (p s : string) (fl : flags) :
  fence_pattern p -> exists mt, search p s fl = Returns mt.
Proof.
  intros [r Hr]. unfold search. rewrite Hr. eauto.
Qed.

Lemma search_no_fence (p s : string) (fl : flags) :
  fence_pattern p -> contains "```" s = false -> search p s fl = Returns None.
Proof.
  intros [r Hr] H. unfold search. rewrite Hr.
  now rewrite search_re_no_fence.
Qed.

Lemma findall2_fence_pattern (p s : string) (fl : flags) :
  fence_pattern p -> exists l, findall2 p s fl = Returns l.
Proof.
  intros [r Hr]. unfold findall2. rewrite Hr. eauto.
Qed.

Lemma findall2_no_fence (p s : string) (fl : flags) :
  fence_pattern p -> contains "```" s = false -> findall2 p s fl = Returns [].
Proof.
  intros [r Hr] H. unfold findall2. rewrite Hr.
  now rewrite findall_re_no_fence.
Qed.

Lemma findall1_fence_pattern (p s : string) (fl : flags) :
  fence_pattern p -> exists l, findall1 p s fl = Returns l.
Proof.
  intros [r Hr]. unfold findall1. rewrite Hr. eauto.
Qed.

Lemma findall1_no_fence (p s : string) (fl : flags) :
  fence_pattern p -> contains "```" s = false -> findall1 p s fl = Returns [].
Proof.
  intros [r Hr] H. unfold findall1. rewrite Hr.
  now rewrite findall_re_no_fence.
Qed.

(** *** Every match goes through the continuation *)

Lemma suffix_refl (s : string) : suffix s s.
Proof. now exists "". Qed.

Lemma suffix_cons (c : ascii) (s' s : string) :
  suffix s' s -> suffix s' (String c s).
Proof. intros [p ->]. now exists (String c p). Qed.

Lemma suffix_trans (a b c : string) : suffix a b -> suffix b c -> suffix a c.
Proof.
  intros [p ->] [p' ->]. exists (p' ++ p). now rewrite app_assoc.
Qed.

Lemma contains_suffix (sub s' s : string) :
  suffix s' s -> contains sub s' = true -> contains sub s = true.
Proof. intros [p ->]. apply contains_app_l. Qed.

Lemma rep_greedy_sound (fl : flags) (cs : cset) (s : string) :
  forall lo hi k x, rep_greedy fl cs lo hi s k = Some x ->
  exists s', suffix s' s /\ k s' = Some x.
Proof.
  induction s as [|c s IH]; intros lo hi k x; cbn [rep_greedy].
  - destruct (lo =? 0)%nat; [|discriminate].
    intros H. exists "". split; [apply suffix_refl | exact H].
  - assert (Hstop : (if (lo =? 0)%nat then k (String c s) else None) = Some x
                    -> exists s', suffix s' (String c s) /\ k s' = Some x).
    { destruct (lo =? 0)%nat; [|discriminate].
      intros H. eexists. split; [apply suffix_refl | exact H]. }
    destruct (cs_match fl cs c && can_more hi); [|exact Hstop].
    destruct (rep_greedy fl cs (pred lo) (option_map pred hi) s k) eqn:E.
    + cbn [orelse]. intros [= <-].
      destruct (IH _ _ _ _ E) as (s' & Hs & Hk).
      exists s'. split; [now apply suffix_cons | exact Hk].
    + exact Hstop.
Qed.

Lemma rep_lazy_sound (fl : flags) (cs : cset) (s : string) :
  forall lo hi k x, rep_lazy fl cs lo hi s k = Some x ->
  exists s', suffix s' s /\ k s' = Some x.
Proof.
  induction s as [|c s IH]; intros lo hi k x; cbn [rep_lazy].
  - destruct (lo =? 0)%nat; [|discriminate].
    destruct (k "") eqn:E; cbn [orelse]; [|discriminate].
    intros [= <-]. exists "". split; [apply suffix_refl | exact E].
  - assert (Hmore :
      (if cs_match fl cs c && can_more hi
       then rep_lazy fl cs (pred lo) (option_map pred hi) s k
       else None) = Some x ->
      exists s', suffix s' (String c s) /\ k s' = Some x).
    { destruct (cs_match fl cs c && can_more hi); [|discriminate].
      intros E. destruct (IH _ _ _ _ E) as (s' & Hs & Hk).
      exists s'. split; [now apply suffix_cons | exact Hk]. }
    destruct (lo =? 0)%nat; [|exact Hmore].
    destruct (k (String c s)) eqn:E; cbn [orelse]; [|exact Hmore].
    intros [= <-]. eexists. split; [apply suffix_refl | exact E].
Qed.

Lemma m_sound (fl : flags) (r : regex) :
  forall s caps k x, m fl r s caps k = Some x ->
  exists s' caps', suffix s' s /\ k s' caps' = Some x.
Proof.
  induction r as [|cs|greedy lo hi cs|a IHa b IHb|a IHa b IHb|i a IHa];
    intros s caps k x; cbn [m].
  - intros H. exists s, caps. split; [apply suffix_refl | exact H].
  - destruct s as [|c s]; [discriminate |].
    destruct (cs_match fl cs c); [|discriminate].
    intros H. exists s, caps. split; [|exact H].
    apply suffix_cons, suffix_refl.
  - destruct greedy; intros H.
    + apply rep_greedy_sound in H as (s' & Hs & Hk). now exists s', caps.
    + apply rep_lazy_sound in H as (s' & Hs & Hk). now exists s', caps.
  - intros H. apply IHa in H as (s1 & caps1 & Hs1 & H).
    apply IHb in H as (s2 & caps2 & Hs2 & H).
    exists s2, caps2. split; [eapply suffix_trans; eassumption | exact H].
  - destruct (m fl a s caps k) eqn:E; cbn [orelse].
    + intros [= <-]. now apply IHa in E.
    + apply IHb.
  - intros H. apply IHa in H as (s1 & caps1 & Hs1 & H).
    now exists s1, (cap_set i (take (String.length s - String.length s1) s)
                      caps1).
Qed.

(** *** Patterns that cannot match without a fence ahead *)

Lemma starts_fence_shape (r : regex) :
  starts_fence r = true -> exists r', r = fence_then r'.
Proof.
  destruct r as [| | |r1 r2| |]; try discriminate.
  destruct r1 as [|[a| | | | ]| | | |]; try discriminate.
  destruct r2 as [| | |r1 r2| |]; try discriminate.
  destruct r1 as [|[b| | | | ]| | | |]; try discriminate.
  destruct r2 as [| | |r1 r2| |]; try discriminate.
  destruct r1 as [|[c| | | | ]| | | |]; try discriminate.
  cbn [starts_fence]. intros H.
  apply andb_true_iff in H as [H Hc]. apply andb_true_iff in H as [Ha Hb].
  apply Ascii.eqb_eq in Ha, Hb, Hc. subst. now exists r2.
Qed.

Lemma m_fence_none (fl : flags) (r : regex) (s : string) (caps : captures)
    (k : string -> captures -> option found) :
  startswith s "```" = false -> m fl (fence_then r) s caps k = None.
Proof.
  unfold fence_then. intros H.
  destruct s as [|c1 s]; [reflexivity |]. cbn [m].
  destruct (cs_match fl (CChar backtick) c1) eqn:E1; [|reflexivity].
  apply backtick_match in E1; subst c1.
  destruct s as [|c2 s]; [reflexivity |]. cbn [m].
  destruct (cs_match fl (CChar backtick) c2) eqn:E2; [|reflexivity].
  apply backtick_match in E2; subst c2.
  destruct s as [|c3 s]; [reflexivity |]. cbn [m].
  destruct (cs_match fl (CChar backtick) c3) eqn:E3; [|reflexivity].
  apply backtick_match in E3; subst c3.
  cbn in H. discriminate H.
Qed.

Lemma needs_fence_sound (fl : flags) (r : regex) :
  needs_fence r = true ->
  forall s caps k x, m fl r s caps k = Some x -> contains "```" s = true.
Proof.
  induction r as [|cs|greedy lo hi cs|a IHa b IHb|a IHa b IHb|i a IHa];
    cbn [needs_fence]; try (cbn; discriminate).
  intros H s caps k x Hm. apply orb_true_iff in H as [H|H].
  - apply starts_fence_shape in H as [r' Er]. rewrite Er in Hm.
    destruct (startswith s "```") eqn:E;
      [now apply startswith_contains |].
    now rewrite m_fence_none in Hm.
  - cbn [m] in Hm. apply m_sound in Hm as (s1 & caps1 & Hs1 & Hm).
    eapply contains_suffix; [exact Hs1 |]. eapply IHb; eassumption.
Qed.

(** *** Searching a text with one fenced block *)

Lemma search_re_skip (fl : flags) (r : regex) (a b : string) :
  contains "```" (a ++ "``") = false ->
  search_re fl (fence_then r) (a ++ "``" ++ b)
  = search_re fl (fence_then r) ("``" ++ b).
Proof.
  induction a as [|c a IH]; intros H; [reflexivity |].
  change (String c a ++ "``" ++ b) with (String c (a ++ "``" ++ b)).
  change (String c a ++ "``") with (String c (a ++ "``")) in H.
  cbn [search_re]. rewrite match_here_fence.
  - apply IH. eapply contains_false_tail; eassumption.
  - rewrite startswith_fence_app. now apply contains_false_here.
Qed.

Lemma search_re_one_block (fl : flags) (r : regex) (pre inner post : string) :
  needs_fence r = true ->
  contains "```" (pre ++ "``") = false ->
  contains "```" ("``" ++ inner ++ "``") = false ->
  contains "```" ("``" ++ post) = false ->
  search_re fl (fence_then r) (pre ++ "```" ++ inner ++ "```" ++ post)
  = match_here fl (fence_then r) ("```" ++ inner ++ "```" ++ post).
Proof.
  intros Hr Hpre Hin Hpost.
  change (pre ++ "```" ++ inner ++ "```" ++ post)
    with (pre ++ "``" ++ String backtick (inner ++ "```" ++ post)).
  rewrite search_re_skip by exact Hpre.
  change ("``" ++ String backtick (inner ++ "```" ++ post))
    with (String backtick ("``" ++ inner ++ "```" ++ post)).
  change ("```" ++ inner ++ "```" ++ post)
    with (String backtick ("``" ++ inner ++ "```" ++ post)).
  cbn [search_re].
  destruct (match_here fl (fence_then r)
              (String backtick ("``" ++ inner ++ "```" ++ post)));
    [reflexivity |].
  replace ("``" ++ inner ++ "```" ++ post)
    with (("``" ++ inner) ++ "``" ++ String backtick post)
    by (now rewrite app_assoc).
  rewrite search_re_skip by (now rewrite app_assoc).
  change ("``" ++ String backtick post) with (String backtick ("``" ++ post)).
  cbn [search_re].
  rewrite (search_re_no_fence fl r _ Hpost).
  destruct (match_here fl (fence_then r) (String backtick ("``" ++ post)))
    as [x|] eqn:E; [|reflexivity].
  exfalso. unfold match_here, fence_then in E.
  change (String backtick ("``" ++ post)) with ("```" ++ post) in E.
  cbn [append m] in E.
  rewrite !backtick_self in E.
  apply (needs_fence_sound fl r Hr) in E.
  cbn [append] in Hpost.
  do 2 (rewrite contains_cons in Hpost; apply orb_false_iff in Hpost
        as [_ Hpost]).
  congruence.
Qed.

Lemma findall_re_none (fl : flags) (r : regex) (s : string) :
  search_re fl r s = None -> forall skip, findall_re fl r s skip = [].
Proof.
  induction s as [|c s IH]; cbn [search_re]; intros H skip.
  - destruct skip; [|reflexivity]. cbn [findall_re].
    destruct (match_here fl r ""); [discriminate | reflexivity].
  - destruct (match_here fl r (String c s)) eqn:E; [discriminate |].
    destruct skip; cbn [findall_re]; [rewrite E |]; now apply IH.
Qed.

(** *** The body of a fenced block *)

Lemma m_fence_some (fl : flags) (r : regex) (s : string) (caps : captures)
    (k : string -> captures -> option found) :
  m fl (fence_then r) ("```" ++ s) caps k = m fl r s caps k.
Proof.
  unfold fence_then. cbn [append m]. now rewrite !backtick_self.
Qed.

Lemma m_lits (fl : flags) (tag : string) (r : regex) (s : string)
    (caps : captures) (k : string -> captures -> option found) :
  m fl (lits tag r) (tag ++ s) caps k = m fl r s caps k.
Proof.
  induction tag as [|c tag IH]; [reflexivity |].
  cbn [lits append m].
  replace (cs_match fl (CChar c) c) with true; [exact IH |].
  unfold cs_match. destruct (ignorecase fl); now rewrite Ascii.eqb_refl.
Qed.

(** The lazy [.*?] stops at the first fence. *)
Lemma lazy_scan (fl : flags) (k : string -> option found) (w t : string) :
  dotall fl = true ->
  contains "```" (w ++ "``") = false ->
  (forall s', startswith s' "```" = false -> k s' = None) ->
  rep_lazy fl CAny 0 None (w ++ "``" ++ t) k
  = rep_lazy fl CAny 0 None ("``" ++ t) k.
Proof.
  intros Hd Hw Hk. induction w as [|c w IH]; [reflexivity |].
  change (String c w ++ "``" ++ t) with (String c (w ++ "``" ++ t)).
  change (String c w ++ "``") with (String c (w ++ "``")) in Hw.
  cbn [rep_lazy Nat.eqb pred option_map can_more cs_match].
  rewrite Hd. cbn [orb andb].
  rewrite Hk.
  - cbn [orelse]. apply IH. eapply contains_false_tail; eassumption.
  - rewrite startswith_fence_app. now apply contains_false_here.
Qed.

Lemma lazy_group_match (fl : flags) (w post : string) (caps : captures) :
  dotall fl = true ->
  contains "```" (w ++ "``") = false ->
  m fl (RSeq lazy_group (fence_then REmpty)) (w ++ "```" ++ post) caps accept
  = Some (cap_set 1 w caps, post).
Proof.
  intros Hd Hw. unfold lazy_group. cbn [m].
  set (u := w ++ "```" ++ post).
  set (k := fun s' : string => _).
  unfold u.
  change (w ++ "```" ++ post) with (w ++ "``" ++ String backtick post).
  rewrite lazy_scan; trivial.
  - change ("``" ++ String backtick post) with ("```" ++ post).
    assert (Hk : k ("```" ++ post) = Some (cap_set 1 w caps, post)).
    { unfold k. rewrite m_fence_some. cbn [m]. unfold accept.
      replace (String.length u - String.length ("```" ++ post))
        with (String.length w)
        by (unfold u; rewrite length_app; lia).
      unfold u. now rewrite take_app. }
    cbn [append rep_lazy Nat.eqb]. cbn [append] in Hk. now rewrite Hk.
  - intros s' Hs. unfold k. now apply m_fence_none.
Qed.

(** The greedy [\s*] runs over the blank start of the body and gives
    back characters until a newline follows. *)
Lemma greedy_blank (fl : flags) (post : string) (caps : captures)
    (body : string) :
  dotall fl = true -> ignorecase fl = false ->
  contains "```" (body ++ "``") = false ->
  rep_greedy fl CSpace 0 None (body ++ "```" ++ post)
    (after_newline fl post caps) = None
  \/ exists w g, body = w ++ g /\ all isspace w = true
       /\ rep_greedy fl CSpace 0 None (body ++ "```" ++ post)
            (after_newline fl post caps)
          = Some (cap_set 1 g caps, post).
Proof.
  intros Hd Hi. induction body as [|c body IH]; intros Hb.
  - left. cbn [append rep_greedy cs_match Nat.eqb].
    unfold after_newline. cbn [m cs_match]. rewrite Hi. reflexivity.
  - change (String c body ++ "``") with (String c (body ++ "``")) in Hb.
    pose proof (contains_false_tail _ _ _ Hb) as Hb'.
    change (String c body ++ "```" ++ post)
      with (String c (body ++ "```" ++ post)).
    cbn [rep_greedy cs_match Nat.eqb pred option_map can_more].
    assert (Hstop : after_newline fl post caps
                      (String c (body ++ "```" ++ post))
                    = if (nl =? c)%char
                      then Some (cap_set 1 body caps, post) else None).
    { unfold after_newline. cbn [m cs_match]. rewrite Hi.
      destruct (nl =? c)%char; [|reflexivity].
      now apply lazy_group_match. }
    destruct (isspace c) eqn:Ec; cbn [andb].
    + destruct (IH Hb') as [E|(w & g & -> & Hw & E)]; rewrite E;
        cbn [orelse].
      * rewrite Hstop. destruct (nl =? c)%char; [right | now left].
        exists (String c ""), body. cbn [all append]. now rewrite Ec.
      * right. exists (String c w), g. cbn [all append]. now rewrite Ec.
    + left. rewrite Hstop. destruct (nl =? c)%char eqn:En; [|reflexivity].
      apply Ascii.eqb_eq in En. subst c. discriminate Ec.
Qed.

Lemma block_tail_match (fl : flags) (body post : string) (caps : captures) :
  dotall fl = true -> ignorecase fl = false ->
  contains "```" (body ++ "``") = false ->
  exists g, strip g = strip body
    /\ m fl block_tail (NL ++ body ++ "```" ++ post) caps accept
       = Some (cap_set 1 g caps, post).
Proof.
  intros Hd Hi Hb.
  change (m fl block_tail (NL ++ body ++ "```" ++ post) caps accept)
    with (rep_greedy fl CSpace 0 None (String nl (body ++ "```" ++ post))
            (after_newline fl post caps)).
  cbn [rep_greedy cs_match Nat.eqb pred option_map can_more].
  change (isspace nl) with true. cbn [andb].
  destruct (greedy_blank fl post caps body Hd Hi Hb)
    as [E|(w & g & -> & Hw & E)]; rewrite E; cbn [orelse].
  - exists body. split; [reflexivity |].
    unfold after_newline. cbn [m cs_match]. rewrite Hi, Ascii.eqb_refl.
    now apply lazy_group_match.
  - exists g. split; [|reflexivity].
    unfold strip. now rewrite lstrip_app_space.
Qed.

End ReFacts.
Import ReFacts.

(** ** The multi-file resolver *)

Module ParseFacts.
Import Parse.

Ltac fence := eexists; vm_compute; reflexivity.

Lemma pattern1_fence : fence_pattern pattern1.
Proof. fence. Qed.

Lemma generic_pattern_fence : fence_pattern generic_pattern.
Proof. fence. Qed.

Lemma html_patterns_fence : Forall fence_pattern html_patterns.
Proof. repeat constructor; fence. Qed.

Lemma css_patterns_fence : Forall fence_pattern css_patterns.
Proof. repeat constructor; fence. Qed.

Lemma js_patterns_fence : Forall fence_pattern js_patterns.
Proof. repeat constructor; fence. Qed.

Lemma store_matches_nonempty (matches : list (string * string)) (files : dict) :
  files <> [] -> store_matches matches files <> [].
Proof.
  unfold store_matches. revert files.
  induction matches as [|fc matches IH]; intros files H; simpl; [exact H |].
  apply IH, dict_set_nonempty.
Qed.

(** The loop over a pattern list returns, with the mapping untouched or
    with [name] set. *)
Lemma try_patterns_returns (patterns : list string) (response name : string)
    (files : dict) :
  Forall fence_pattern patterns ->
  exists files', try_patterns patterns response name files = Returns files'
    /\ (files' = files \/ exists v, files' = dict_set files name v).
Proof.
  induction 1 as [|p patterns Hp _ IH]; simpl.
  - eauto.
  - destruct (search_fence_pattern p response Re.DOTALL Hp) as [mt ->].
    simpl. destruct mt as [mt|]; [eauto | exact IH].
Qed.

Lemma try_patterns_no_fence (patterns : list string) (response name : string)
    (files : dict) :
  Forall fence_pattern patterns -> contains "```" response = false ->
  try_patterns patterns response name files = Returns files.
Proof.
  intros HF H. induction HF as [|p patterns Hp _ IH]; simpl; [reflexivity |].
  now rewrite search_no_fence.
Qed.

Lemma step_nonempty (files files' : dict) (name : string) :
  (files' = files \/ exists v, files' = dict_set files name v) ->
  files <> [] -> files' <> [].
Proof.
  intros [->|[v ->]] H; [exact H | apply dict_set_nonempty].
Qed.

Lemma generic_fallback_returns (response : string) (files : dict) :
  exists files', generic_fallback response files = Returns files'
    /\ (files <> [] -> files' = files).
Proof.
  unfold generic_fallback. destruct files as [|kv files];
    cbn [dict_is_empty].
  - destruct (findall1_fence_pattern generic_pattern response Re.DOTALL
                generic_pattern_fence) as [l ->]. cbn [bind].
    destruct l as [|first l]; [eexists; split; [reflexivity | congruence] |].
    destruct (looks_like_html (strip first));
      eexists; (split; [reflexivity | congruence]).
  - eauto.
Qed.

Lemma ultimate_fallback_nonempty (response : string) (files : dict) :
  ultimate_fallback response files <> [].
Proof.
  unfold ultimate_fallback. destruct files as [|kv files]; simpl;
    [|discriminate].
  destruct (contains "<!DOCTYPE" response) eqn:E1; simpl.
  - pose proof (contains_find _ _ E1) as H1.
    apply Z.eqb_neq in H1. rewrite H1. simpl. rewrite H1. simpl.
    discriminate.
  - rewrite (not_contains_find _ _ E1). simpl.
    destruct (contains "<html" response) eqn:E2; [|discriminate].
    pose proof (contains_find _ _ E2) as H2.
    apply Z.eqb_neq in H2. rewrite H2. simpl. discriminate.
Qed.

Lemma ultimate_fallback_empty (response : string) :
  keys (ultimate_fallback response []) = ["index.html"].
Proof.
  pose proof (ultimate_fallback_nonempty response []) as H.
  unfold ultimate_fallback in *. simpl in *.
  destruct (contains "<!DOCTYPE" response || contains "<html" response);
    [|reflexivity].
  destruct (negb _); [reflexivity | congruence].
Qed.

(** *** A response with exactly one fenced block *)

Lemma search_single (p : string) (r : Re.regex) (fl : Re.flags)
    (pre inner post : string) (res : option Re.found) :
  Re.compile p = Re.Compiled (fence_then r) ->
  needs_fence r = true ->
  contains "```" (pre ++ "``") = false ->
  contains "```" ("``" ++ inner ++ "``") = false ->
  contains "```" ("``" ++ post) = false ->
  Re.m fl r (inner ++ "```" ++ post) [] accept = res ->
  Re.search p (pre ++ "```" ++ inner ++ "```" ++ post) fl = Returns res.
Proof.
  intros Hc Hr Hpre Hin Hpost Hm. unfold Re.search. rewrite Hc.
  rewrite search_re_one_block by assumption.
  unfold Re.match_here. fold accept. now rewrite m_fence_some, Hm.
Qed.

Lemma findall2_single (p : string) (r : Re.regex) (fl : Re.flags)
    (pre inner post : string) :
  Re.compile p = Re.Compiled (fence_then r) ->
  needs_fence r = true ->
  contains "```" (pre ++ "``") = false ->
  contains "```" ("``" ++ inner ++ "``") = false ->
  contains "```" ("``" ++ post) = false ->
  Re.m fl r (inner ++ "```" ++ post) [] accept = None ->
  Re.findall2 p (pre ++ "```" ++ inner ++ "```" ++ post) fl = Returns [].
Proof.
  intros Hc Hr Hpre Hin Hpost Hm. unfold Re.findall2. rewrite Hc.
  rewrite findall_re_none; [reflexivity |].
  rewrite search_re_one_block by assumption.
  unfold Re.match_here. fold accept. now rewrite m_fence_some.
Qed.

Ltac clean_inner Hb :=
  unfold NL; cbn [append];
  rewrite contains_fence_skip2 by reflexivity;
  rewrite !contains_fence_skip by reflexivity;
  exact Hb.

Ltac with_sides step last :=
  step;
  [ | vm_compute; reflexivity | vm_compute; reflexivity
    | eassumption | eassumption | eassumption | last ].

(** A pattern that fails on the block: decided inside the tag line. *)
Ltac miss :=
  with_sides ltac:(erewrite (search_single _ _ _ _ _ _ None))
             ltac:(vm_compute;
                   lazymatch goal with |- None = None => reflexivity end).

(** The pattern whose tag is the block's. *)
Ltac hit Hm tag :=
  with_sides ltac:(erewrite (search_single _ _ _ _ _ _ (Some _)))
             ltac:(lazymatch goal with
                   | |- Re.m _ ?r _ _ _ = _ =>
                       let r' := eval vm_compute in (lits tag block_tail) in
                       constr_eq r r'
                   end;
                   etransitivity; [|exact Hm];
                   exact (m_lits Re.DOTALL tag block_tail _ [] accept)).

Ltac resolve_block tag pre body post :=
  let Hpre := fresh "Hpre" in
  let Hb := fresh "Hb" in
  let Hpost := fresh "Hpost" in
  let g := fresh "g" in
  let Hg := fresh "Hg" in
  let Hm := fresh "Hm" in
  let Hin := fresh "Hin" in
  intros [Hpre Hb Hpost];
  destruct (block_tail_match Re.DOTALL body post [] eq_refl eq_refl Hb)
    as (g & Hg & Hm);
  assert (Hin : contains "```" ("``" ++ (tag ++ NL ++ body) ++ "``") = false)
    by clean_inner Hb;
  match goal with
  | |- _ = ?rhs =>
      change (_parse_web_files
                (pre ++ "```" ++ (tag ++ NL ++ body) ++ "```" ++ post)
              = rhs)
  end;
  unfold _parse_web_files;
  with_sides ltac:(erewrite findall2_single) ltac:(vm_compute; reflexivity);
  cbn [bind store_matches fold_left dict_mem dict_get negb andb];
  unfold html_patterns, css_patterns, js_patterns;
  repeat (cbn [bind try_patterns dict_mem dict_get dict_set negb andb
               String.eqb Ascii.eqb Bool.eqb];
          first [ hit Hm tag | miss ]);
  cbn [bind try_patterns dict_mem dict_get dict_set negb andb
       String.eqb Ascii.eqb Bool.eqb];
  unfold generic_fallback, ultimate_fallback;
  cbn [bind dict_is_empty dict_set Re.group Re.cap_get Re.cap_set fst
       Nat.eqb];
  rewrite Hg; reflexivity.

Lemma js_block (pre body post : string) :
  one_block pre body post ->
  _parse_web_files (pre ++ "```js" ++ NL ++ body ++ "```" ++ post)
  = Returns [("script.js", strip body)].
Proof. resolve_block "js" pre body post. Qed.

Lemma html_block (pre body post : string) :
  one_block pre body post ->
  _parse_web_files (pre ++ "```html" ++ NL ++ body ++ "```" ++ post)
  = Returns [("index.html", strip body)].
Proof. resolve_block "html" pre body post. Qed.

Lemma HTML_block (pre body post : string) :
  one_block pre body post ->
  _parse_web_files (pre ++ "```HTML" ++ NL ++ body ++ "```" ++ post)
  = Returns [("index.html", strip body)].
Proof. resolve_block "HTML" pre body post. Qed.

Lemma htm_block (pre body post : string) :
  one_block pre body post ->
  _parse_web_files (pre ++ "```htm" ++ NL ++ body ++ "```" ++ post)
  = Returns [("index.html", strip body)].
Proof. resolve_block "htm" pre body post. Qed.

Lemma css_block (pre body post : string) :
  one_block pre body post ->
  _parse_web_files (pre ++ "```css" ++ NL ++ body ++ "```" ++ post)
  = Returns [("styles.css", strip body)].
Proof. resolve_block "css" pre body post. Qed.

Lemma CSS_block (pre body post : string) :
  one_block pre body post ->
  _parse_web_files (pre ++ "```CSS" ++ NL ++ body ++ "```" ++ post)
  = Returns [("styles.css", strip body)].
Proof. resolve_block "CSS" pre body post. Qed.

Lemma javascript_block (pre body post : string) :
  one_block pre body post ->
  _parse_web_files (pre ++ "```javascript" ++ NL ++ body ++ "```" ++ post)
  = Returns [("script.js", strip body)].
Proof. resolve_block "javascript" pre body post. Qed.

Lemma JavaScript_block (pre body post : string) :
  one_block pre body post ->
  _parse_web_files (pre ++ "```JavaScript" ++ NL ++ body ++ "```" ++ post)
  = Returns [("script.js", strip body)].
Proof. resolve_block "JavaScript" pre body post. Qed.

Lemma JS_block (pre body post : string) :
  one_block pre body post ->
  _parse_web_files (pre ++ "```JS" ++ NL ++ body ++ "```" ++ post)
  = Returns [("script.js", strip body)].
Proof. resolve_block "JS" pre body post. Qed.

End ParseFacts.
Import ParseFacts.

Lemma parse_web_files_nonempty (response : string) :
  exists files, Parse._parse_web_files response = Returns files
    /\ files <> [].
Proof.
  unfold Parse._parse_web_files.
  destruct (findall2_fence_pattern Parse.pattern1 response
              Re.DOTALL_IGNORECASE pattern1_fence) as [l ->].
  cbn [bind]. set (f0 := Parse.store_matches l []).
  assert (H1 : exists f1,
    (if negb (dict_mem "index.html" f0)
     then Parse.try_patterns Parse.html_patterns response "index.html" f0
     else Returns f0) = Returns f1 /\ (f0 <> [] -> f1 <> [])).
  { destruct (negb _); [|eauto].
    destruct (try_patterns_returns _ response "index.html" f0
                html_patterns_fence) as (f1 & -> & Hf).
    eexists; split; [reflexivity |]. now apply step_nonempty with (1 := Hf). }
  destruct H1 as (f1 & -> & N1). cbn [bind].
  assert (H2 : exists f2,
    (if negb (dict_mem "styles.css" f1) && negb (dict_mem "style.css" f1)
     then Parse.try_patterns Parse.css_patterns response "styles.css" f1
     else Returns f1) = Returns f2 /\ (f1 <> [] -> f2 <> [])).
  { destruct (_ && _); [|eauto].
    destruct (try_patterns_returns _ response "styles.css" f1
                css_patterns_fence) as (f2 & -> & Hf).
    eexists; split; [reflexivity |]. now apply step_nonempty with (1 := Hf). }
  destruct H2 as (f2 & -> & N2). cbn [bind].
  assert (H3 : exists f3,
    (if negb (dict_mem "script.js" f2) && negb (dict_mem "app.js" f2)
     then Parse.try_patterns Parse.js_patterns response "script.js" f2
     else Returns f2) = Returns f3 /\ (f2 <> [] -> f3 <> [])).
  { destruct (_ && _); [|eauto].
    destruct (try_patterns_returns _ response "script.js" f2
                js_patterns_fence) as (f3 & -> & Hf).
    eexists; split; [reflexivity |]. now apply step_nonempty with (1 := Hf). }
  destruct H3 as (f3 & -> & N3). cbn [bind].
  destruct (generic_fallback_returns response f3) as (f4 & -> & _).
  cbn [bind]. eexists; split; [reflexivity |].
  apply ultimate_fallback_nonempty.
Qed.

Lemma parse_web_files_no_fence (response : string) :
  contains "```" response = false ->
  exists files, Parse._parse_web_files response = Returns files
    /\ keys files = ["index.html"].
Proof.
  intros H. unfold Parse._parse_web_files.
  rewrite (findall2_no_fence _ _ _ pattern1_fence H). cbn [bind].
  cbn [Parse.store_matches fold_left dict_mem dict_get negb andb].
  rewrite (try_patterns_no_fence _ _ _ _ html_patterns_fence H).
  cbn [bind dict_mem dict_get negb andb].
  rewrite (try_patterns_no_fence _ _ _ _ css_patterns_fence H).
  cbn [bind dict_mem dict_get negb andb].
  rewrite (try_patterns_no_fence _ _ _ _ js_patterns_fence H).
  cbn [bind].
  unfold Parse.generic_fallback. cbn [dict_is_empty].
  rewrite (findall1_no_fence _ _ _ generic_pattern_fence H). cbn [bind].
  eexists; split; [reflexivity |]. apply ultimate_fallback_empty.
Qed.

(** C1, amended.  For every response the multi-file resolver returns,
    and the mapping it returns is never empty.  An "index.html" entry is
    guaranteed when the response has no fence at all (so for the empty
    string, for whitespace and for plain text), where it is the only
    entry; a response whose labelled blocks fill other names keeps just
    those. *)
Theorem C1_resolver_total (response : string) :
  exists files, Parse._parse_web_files response = Returns files
    /\ files <> []
    /\ (contains "```" response = true \/ keys files = ["index.html"]).
Proof.
  destruct (parse_web_files_nonempty response) as (files & E & N).
  exists files. repeat split; trivial.
  destruct (contains "```" response) eqn:C; [now left | right].
  destruct (parse_web_files_no_fence response C) as (files' & E' & K).
  congruence.
Qed.

(** C1 as stated fails: a response whose only block is labelled
    "styles.css" resolves to that one file, without "index.html". *)
Lemma C1_counterexample :
  let response := "```styles.css" ++ NL ++ "body{}" ++ NL ++ "```" in
  exists files, Parse._parse_web_files response = Returns files
    /\ dict_mem "index.html" files = false.
Proof.
  exists [("styles.css", "body{}")].
  split; [vm_compute; reflexivity | reflexivity].
Qed.

(** C2, amended.  When the only fenced block of a response is tagged
    [js], the resolver maps "script.js" to the block's content and that is
    the whole mapping: no "index.html" is synthesized, because the
    fallback that wraps a block into a document runs only while the
    mapping is still empty. *)
Theorem C2_js_only_block (pre body post : string) :
  one_block pre body post ->
  exists files,
    Parse._parse_web_files (pre ++ "```js" ++ NL ++ body ++ "```" ++ post)
    = Returns files
    /\ files = [("script.js", strip body)]
    /\ dict_mem "index.html" files = false.
Proof.
  intros H. eexists. split; [now apply js_block |]. split; reflexivity.
Qed.

Lemma C2_js_only_block_witness :
  one_block "Sure! " ("console.log(1)" ++ NL) ""
  /\ exists files,
       Parse._parse_web_files
         ("Sure! ```js" ++ NL ++ "console.log(1)" ++ NL ++ "```")
       = Returns files
       /\ files = [("script.js", "console.log(1)")]
       /\ dict_mem "index.html" files = false.
Proof.
  assert (H : one_block "Sure! " ("console.log(1)" ++ NL) "")
    by (constructor; reflexivity).
  split; [exact H |].
  exact (C2_js_only_block "Sure! " ("console.log(1)" ++ NL) "" H).
Defined.

(** C2 as stated fails on the scenario of the specification itself: the
    mapping has "script.js" and nothing else. *)
Lemma C2_counterexample :
  let response := "Sure! ```js" ++ NL ++ "console.log(1)" ++ NL ++ "```" in
  exists files, Parse._parse_web_files response = Returns files
    /\ dict_get files "script.js" = Some "console.log(1)"
    /\ dict_get files "index.html" = None.
Proof.
  exists [("script.js", "console.log(1)")].
  split; [vm_compute; reflexivity | split; reflexivity].
Qed.




(** ** Single-file code extraction *)

Module LlmFacts.
Import Re.

Lemma parse_plain_char (c : ascii) (p : string) (st : pstate) :
  plain c = true -> parse (String c p) st = parse p (push (RSet (CChar c)) st).
Proof.
  unfold plain. intros Hs. apply negb_true_iff in Hs.
  pose proof Hs as H. unfold special in H. cbn [existsb] in H.
  repeat (apply orb_false_iff in H; destruct H as [? H]).
  cbn [parse].
  repeat match goal with
         | E : (c =? ?x)%char = false |- _ => rewrite E; clear E
         end.
  cbn [orb]. now rewrite Hs.
Qed.

Lemma parse_plain (lang rest : string) :
  all plain lang = true ->
  forall st, parse (lang ++ rest) st = parse rest (push_all lang st).
Proof.
  induction lang as [|c lang IH]; cbn [all append push_all];
    [reflexivity |].
  intros H st. apply andb_true_iff in H as [Hc H].
  rewrite parse_plain_char by exact Hc. now apply IH.
Qed.

Lemma push_all_eq (s : string) (st : pstate) :
  push_all s st
  = {| p_stack := p_stack st; p_alts := p_alts st;
       p_seq := rev_lits s (p_seq st); p_groups := p_groups st |}.
Proof.
  revert st; induction s as [|c s IH]; intros st; cbn [push_all rev_lits].
  - now destruct st.
  - now rewrite IH.
Qed.

Lemma mk_seq_rev_lits (s : string) (items : list regex) (acc : regex) :
  fold_left (fun acc r => RSeq r acc) (rev_lits s items) acc
  = fold_left (fun acc r => RSeq r acc) items (lits s acc).
Proof.
  revert items acc; induction s as [|c s IH]; intros items acc;
    cbn [rev_lits lits]; [reflexivity |].
  now rewrite IH.
Qed.

Lemma parse_ext_tail (items : list regex) :
  parse "\n?(.*?)```"
    {| p_stack := []; p_alts := []; p_seq := items; p_groups := 0 |}
  = Compiled (fold_left (fun acc r => RSeq r acc) items ext_tail).
Proof. reflexivity. Qed.

(** The pattern built around a language name without metacharacters is
    that name read literally. *)
Lemma compile_language_pattern (language : string) :
  all plain language = true ->
  compile ("```" ++ language ++ "\n?(.*?)```")
  = Compiled (fence_then (lits language ext_tail)).
Proof.
  intros H. unfold compile. cbn [append].
  rewrite !parse_plain_char by reflexivity.
  rewrite parse_plain by exact H.
  rewrite push_all_eq. cbn [push p_stack p_alts p_seq p_groups pstate0].
  rewrite parse_ext_tail, mk_seq_rev_lits. reflexivity.
Qed.

Lemma generic_block_fence : fence_pattern "```\n?(.*?)```".
Proof. eexists; vm_compute; reflexivity. Qed.

Lemma extract_code_plain (response language : string) :
  all plain language = true ->
  exists c,
    Llm._extract_code response language
    = Returns {| Llm.code := c; Llm.language := language;
                 Llm.raw_response := response |}
    /\ (contains "```" response = false -> c = strip response).
Proof.
  intros H. unfold Llm._extract_code, search.
  rewrite (compile_language_pattern language H). cbn [bind].
  destruct generic_block_fence as [r Hr]. rewrite Hr.
  destruct (contains "```" response) eqn:C.
  - destruct (search_re DOTALL_IGNORECASE _ response) as [mt|].
    + eexists; split; [reflexivity | discriminate].
    + cbn [bind]. destruct (search_re DOTALL _ response) as [mt|];
        eexists; (split; [reflexivity | discriminate]).
  - rewrite !search_re_no_fence by exact C. cbn [bind].
    eexists; split; reflexivity.
Qed.

End LlmFacts.
Import LlmFacts.


(** For a language name free of metacharacters (python, javascript,
    bash, ...) extraction does return the three fields, and the code is
    the stripped response when the response has no fence. *)
Theorem extract_code_total_on_plain_languages (response language : string) :
  all plain language = true ->
  exists c,
    Llm._extract_code response language
    = Returns {| Llm.code := c; Llm.language := language;
                 Llm.raw_response := response |}
    /\ (contains "```" response = false -> c = strip response).
Proof. apply extract_code_plain. Qed.

(** ** Runs of the agent *)

Module ModelFacts.
Import Model.

Section Keeps.

Context (R : state -> state -> Prop) `{Q : quiet R}.

Lemma keeps_ret {A} (a : A) : keeps R (ret a).
Proof. intros s. apply q_refl. Qed.

Lemma keeps_raise {A} (e : exn) : keeps R (@raise A e).
Proof. intros s. apply q_refl. Qed.

Lemma keeps_lift {A} (o : outcome A) : keeps R (lift o).
Proof. intros s. apply q_refl. Qed.

Lemma keeps_get : keeps R get.
Proof. intros s. apply q_refl. Qed.

Lemma keeps_modify (f : state -> state) :
  (forall s, R s (f s)) -> keeps R (modify f).
Proof. intros H s. apply H. Qed.

Lemma keeps_bind {A B} (c : M A) (f : A -> M B) :
  keeps R c -> (forall a, keeps R (f a)) -> keeps R (bindM c f).
Proof.
  intros Hc Hf s. unfold bindM. specialize (Hc s).
  destruct (c s) as [[a|e|] s1]; cbn [snd] in *; trivial.
  eapply q_trans; [exact Hc | apply Hf].
Qed.

Lemma keeps_try {A} (body : M A) (handler : exn -> M A) :
  keeps R body -> (forall e, keeps R (handler e)) ->
  keeps R (try_except body handler).
Proof.
  intros Hb Hh s. unfold try_except. specialize (Hb s).
  destruct (body s) as [[a|e|] s1]; cbn [snd] in *; trivial.
  eapply q_trans; [exact Hb | apply Hh].
Qed.

Lemma keeps_for_each {A} (xs : list A) (body : A -> M unit) :
  (forall x, keeps R (body x)) -> keeps R (for_each xs body).
Proof.
  intros H. induction xs as [|x xs IH]; cbn [for_each].
  - apply keeps_ret.
  - apply keeps_bind; [apply H | intros _; exact IH].
Qed.

Lemma keeps_fold_each {A B} (xs : list B) (body : A -> B -> M A) :
  (forall acc x, keeps R (body acc x)) ->
  forall acc, keeps R (fold_each xs acc body).
Proof.
  intros H. induction xs as [|x xs IH]; intros acc; cbn [fold_each].
  - apply keeps_ret.
  - apply keeps_bind; [apply H | intros acc'; apply IH].
Qed.

Lemma keeps_perform (E : env) (c : call) : keeps R (perform E c).
Proof.
  intros s. unfold perform.
  destruct (raised _); cbn [snd]; apply q_trace.
Qed.

End Keeps.

(** Takes a statement apart down to its assignments; those to the
    fields a quiet relation ignores are discharged. *)
Ltac plumbing_with known :=
  repeat first
    [ known
    | apply keeps_ret; exact _ | apply keeps_raise; exact _
    | apply keeps_lift; exact _ | apply keeps_get; exact _
    | apply keeps_perform; exact _
    | apply keeps_modify; intros ?;
      first [ apply q_sandbox | apply q_running | apply q_preview
            | apply q_files | apply q_uploaded | apply q_history
            | apply q_sent ]
    | apply keeps_bind; [exact _ | | intros ?]
    | apply keeps_try; [exact _ | | intros ?]
    | apply keeps_for_each; [exact _ | intros ?]
    | apply keeps_fold_each; [exact _ | intros ? ?]
    | match goal with
      | |- keeps _ (match ?x with _ => _ end) => destruct x
      | |- keeps _ (send_preview _) => unfold send_preview
      | |- keeps _ (update_code_turn _ _ _) => unfold update_code_turn
      end ].

Ltac plumbing := plumbing_with fail.

Section Plumbing.

Context (R : state -> state -> Prop) `{Q : quiet R} (E : env).

Lemma keeps_execute_command (command : string) :
  keeps R (execute_command E command).
Proof. unfold execute_command. plumbing. Qed.

Lemma keeps_web_ensure_sandbox : keeps R (web_ensure_sandbox E).
Proof. unfold web_ensure_sandbox. plumbing. Qed.

Lemma keeps_chat (messages : list message) (t : nat) (n : N) :
  keeps R (chat E messages t n).
Proof. unfold chat. plumbing. Qed.

Lemma keeps_chat_stream {A} (messages : list message) (t : nat) (n : N)
    (acc : A) (body : A -> string -> M A) :
  (forall acc x, keeps R (body acc x)) ->
  keeps R (chat_stream E messages t n acc body).
Proof. intros H. unfold chat_stream. plumbing. apply H. Qed.

Lemma keeps_try_upload (path content : string) :
  keeps R (try_upload E path content).
Proof. unfold try_upload. plumbing. Qed.

Lemma upload_file_unfold (path content : string) (s : state) :
  upload_file E path content s
  = match try_upload E path content s with
    | (Returns _, s1) => (Returns true, record_upload path content s1)
    | (Raises e, s1) => (Raises e, s1)
    | (Unmodelled, s1) => (Unmodelled, s1)
    end.
Proof.
  unfold upload_file, try_upload, bindM.
  destruct (need_sandbox E s) as [[[]|e|] s1]; reflexivity.
Qed.

Lemma keeps_upload_file (path content : string) :
  (forall s, R s (record_upload path content s)) ->
  keeps R (upload_file E path content).
Proof.
  intros H s. rewrite upload_file_unfold.
  pose proof (keeps_try_upload path content s) as H1.
  destruct (try_upload E path content s) as [[[]|e|] s1]; cbn [snd] in *;
    trivial.
  eapply q_trans; [exact H1 | apply H].
Qed.

Lemma keeps_deploy_and_preview : keeps R (deploy_and_preview E).
Proof. unfold deploy_and_preview. plumbing. Qed.

Lemma keeps_get_preview_url : keeps R (get_preview_url E).
Proof. unfold get_preview_url. plumbing. Qed.

Lemma keeps_start_preview_server : keeps R (start_preview_server E).
Proof. unfold start_preview_server. plumbing. Qed.

End Plumbing.

(** *** The file store mirrors the uploads *)

#[export] Instance sync_kept_quiet : quiet sync_kept.
Proof. constructor; unfold sync_kept; intros; auto. Qed.

#[export] Instance sync_kept_history : ignores_history sync_kept.
Proof. constructor; unfold sync_kept; intros; auto. Qed.

#[export] Instance sync_kept_sent : ignores_sent sync_kept.
Proof. constructor; unfold sync_kept; intros; auto. Qed.

Lemma dict_get_set (d : dict) (k v k' : string) :
  dict_get (dict_set d k v) k' = if (k =? k') then Some v else dict_get d k'.
Proof.
  induction d as [|[k0 v0] d IH]; cbn [dict_set dict_get]; [reflexivity |].
  destruct (k0 =? k) eqn:E0; cbn [dict_get].
  - apply String.eqb_eq in E0. subst k0. now destruct (k =? k').
  - destruct (k0 =? k') eqn:E1; [|exact IH].
    apply String.eqb_eq in E1. subst k0. now rewrite String.eqb_sym, E0.
Qed.

Lemma workspace_path_eqb (f f' : string) :
  (workspace_path f =? workspace_path f') = (f =? f').
Proof. reflexivity. Qed.

Lemma store_after_upload (f c : string) (s : state) :
  synced s ->
  synced (set_project_files (dict_set (project_files s) f c)
            (record_upload (workspace_path f) c s)).
Proof.
  intros [H1 H2]. split; cbn.
  - intros f'. rewrite dict_get_set.
    destruct (f =? f'); [reflexivity | apply H1].
  - intros p c' [[= <- <-]|Hin]; [now exists f | eauto].
Qed.

Section Sync.

Variable E : env.

Lemma keeps_upload_store {A} (f c : string) (k : M A) :
  keeps sync_kept k ->
  keeps sync_kept
    (upload_file E (workspace_path f) c >> store_file f c >> k).
Proof.
  intros Hk s Hs. unfold bindM at 1. rewrite upload_file_unfold.
  pose proof (keeps_try_upload sync_kept E (workspace_path f) c s Hs) as H1.
  destruct (try_upload E (workspace_path f) c s) as [[[]|e|] s1];
    cbn [snd] in *; trivial.
  exact (Hk _ (store_after_upload f c s1 H1)).
Qed.

Lemma keeps_upload_store_last (f c : string) :
  keeps sync_kept (upload_file E (workspace_path f) c >> store_file f c).
Proof.
  intros s Hs. unfold bindM. rewrite upload_file_unfold.
  pose proof (keeps_try_upload sync_kept E (workspace_path f) c s Hs) as H1.
  destruct (try_upload E (workspace_path f) c s) as [[[]|e|] s1];
    cbn [snd] in *; trivial.
  exact (store_after_upload f c s1 H1).
Qed.

Ltac sync :=
  plumbing_with
    ltac:(first [ apply keeps_upload_store | apply keeps_upload_store_last
                | apply keeps_web_ensure_sandbox; exact _
                | apply keeps_deploy_and_preview; exact _ ]).

Lemma sync_generate_web_code (prompt : string) :
  keeps sync_kept (generate_web_code E prompt).
Proof. unfold generate_web_code. sync. Qed.

Lemma sync_stream_generate (prompt : string) :
  keeps sync_kept (stream_generate E prompt send_json).
Proof. unfold stream_generate. sync. Qed.

Lemma sync_update_file (filename content : string) :
  keeps sync_kept (update_file E filename content).
Proof. unfold update_file. sync. Qed.

Lemma sync_serve (r : request) : keeps sync_kept (serve E r).
Proof.
  destruct r; cbn [serve].
  - unfold chat_turn, chat_turn_body, send_preview, get_project_files.
    plumbing_with
      ltac:(first [ apply sync_stream_generate
                  | apply keeps_deploy_and_preview; exact _ ]).
  - unfold update_code_turn, send_preview.
    plumbing_with
      ltac:(first [ apply sync_update_file
                  | apply keeps_deploy_and_preview; exact _ ]).
  - unfold rest_chat.
    plumbing_with
      ltac:(first [ apply sync_generate_web_code
                  | apply keeps_deploy_and_preview; exact _ ]).
  - unfold rest_update_file.
    plumbing_with
      ltac:(first [ apply sync_update_file
                  | apply keeps_deploy_and_preview; exact _ ]).
  - plumbing_with ltac:(apply keeps_get_preview_url; exact _).
Qed.

End Sync.

Lemma synced_initial : synced initial.
Proof. split; [reflexivity | intros p c []]. Qed.

(** *** A session always has its sandbox manager *)

#[export] Instance manager_kept_quiet : quiet manager_kept.
Proof.
  constructor; unfold manager_kept; intros; cbn; auto; discriminate.
Qed.

#[export] Instance manager_kept_files : ignores_files manager_kept.
Proof. constructor; unfold manager_kept; intros; auto. Qed.

#[export] Instance manager_kept_history : ignores_history manager_kept.
Proof. constructor; unfold manager_kept; intros; auto. Qed.

#[export] Instance manager_kept_sent : ignores_sent manager_kept.
Proof. constructor; unfold manager_kept; intros; auto. Qed.

Lemma manager_serve (E : env) (r : request) : keeps manager_kept (serve E r).
Proof.
  destruct r; cbn [serve];
    plumbing_with
      ltac:(first [ apply keeps_web_ensure_sandbox; exact _
                  | apply keeps_deploy_and_preview; exact _
                  | apply keeps_get_preview_url; exact _ ]).
Qed.

Lemma created_has_manager (E : env) (s : state) :
  create_session E initial = (Returns tt, s) -> sandbox s <> None.
Proof.
  unfold create_session, web_ensure_sandbox, _ensure_sandbox, bindM, get.
  cbn [sandbox initial].
  destruct (perform E SdkConnect initial) as [[r|e|] s1]; try discriminate.
  unfold modify.
  pose proof (keeps_perform manager_kept E SdkCreate
                (set_sandbox (Some false) s1)) as H1.
  unfold create_sandbox, bindM at 1.
  destruct (perform E SdkCreate _) as [[r2|e|] s2]; try discriminate.
  unfold modify.
  pose proof (keeps_execute_command manager_kept E
                ("mkdir -p " ++ WORKSPACE_DIR)
                (set_sandbox (Some true) s2)) as H2.
  unfold _setup_workspace, bindM, get. cbn [sandbox set_sandbox].
  unfold bindM in H2.
  destruct (execute_command E _ _) as [[r3|e|] s3]; try discriminate.
  intros [= <-]. apply H2. discriminate.
Qed.

Lemma session_has_manager (E : env) (s : state) :
  session_state E s -> sandbox s <> None.
Proof.
  induction 1 as [s H|s r _ IH].
  - eapply created_has_manager; eassumption.
  - now apply manager_serve.
Qed.

(** *** Writing a file *)

#[export] Instance store_same_quiet : quiet store_same.
Proof.
  constructor; unfold store_same; intros; cbn; congruence.
Qed.

Lemma keys_dict_set (d : dict) (k v : string) :
  keys (dict_set d k v)
  = if dict_mem k d then keys d else (keys d ++ [k])%list.
Proof.
  unfold dict_mem.
  induction d as [|[k0 v0] d IH]; cbn [dict_set dict_get keys map fst app];
    [reflexivity |].
  destruct (k0 =? k); cbn [keys map fst]; [reflexivity |].
  fold (keys (dict_set d k v)). rewrite IH.
  now destruct (dict_get d k).
Qed.

Lemma update_file_returned (E : env) (filename content : string)
    (s s1 : state) :
  sandbox s <> None ->
  update_file E filename content s = (Returns tt, s1) ->
  project_files s1 = dict_set (project_files s) filename content.
Proof.
  intros Hm. unfold update_file, bindM at 1, get.
  destruct (sandbox s); [clear Hm | contradiction].
  unfold bindM. rewrite upload_file_unfold.
  pose proof (keeps_try_upload store_same E (workspace_path filename)
                content s) as H.
  destruct (try_upload E _ _ s) as [[[]|e|] s2]; try discriminate.
  cbn [snd] in H. unfold store_file, modify. intros [= <-].
  cbn. now rewrite H.
Qed.

(** *** Outcomes *)

Lemma post_bind {A B} (c : M A) (f : A -> M B) (s : state)
    (Q : outcome B -> state -> Prop) :
  post c s (fun r s1 =>
              match r with
              | Returns a => post (f a) s1 Q
              | Raises e => Q (Raises e) s1
              | Unmodelled => Q Unmodelled s1
              end) ->
  post (bindM c f) s Q.
Proof.
  unfold post, bindM. destruct (c s) as [[a|e|] s1]; cbn [fst snd]; trivial.
Qed.

Lemma post_keeps {A} (R : state -> state -> Prop) (c : M A) (s : state)
    (Q : outcome A -> state -> Prop) :
  keeps R c -> (forall r s1, R s s1 -> Q r s1) -> post c s Q.
Proof. intros Hk HQ. apply HQ, Hk. Qed.

Lemma post_get (s : state) (Q : outcome state -> state -> Prop) :
  Q (Returns s) s -> post get s Q.
Proof. trivial. Qed.

Lemma post_lift {A} (o : outcome A) (s : state)
    (Q : outcome A -> state -> Prop) :
  Q o s -> post (lift o) s Q.
Proof. trivial. Qed.

Lemma post_modify (f : state -> state) (s : state)
    (Q : outcome unit -> state -> Prop) :
  Q (Returns tt) (f s) -> post (modify f) s Q.
Proof. trivial. Qed.

Lemma post_ret {A} (a : A) (s : state) (Q : outcome A -> state -> Prop) :
  Q (Returns a) s -> post (ret a) s Q.
Proof. trivial. Qed.

(** *** The events of a turn *)

Lemma emits_refl (P : event -> Prop) (s : state) : emits P s s.
Proof. exists []. split; [now rewrite List.app_nil_r | constructor]. Qed.

Lemma emits_trans (P : event -> Prop) (s1 s2 s3 : state) :
  emits P s1 s2 -> emits P s2 s3 -> emits P s1 s3.
Proof.
  intros (e1 & E1 & F1) (e2 & E2 & F2). exists (e1 ++ e2)%list. split.
  - now rewrite E2, E1, List.app_assoc.
  - apply Forall_app. now split.
Qed.

#[export] Instance emits_quiet (P : event -> Prop) : quiet (emits P).
Proof.
  constructor; try (intros s *; exact (emits_refl P s)).
  apply emits_trans.
Qed.

#[export] Instance emits_files (P : event -> Prop) : ignores_files (emits P).
Proof. constructor; intros s *; exact (emits_refl P s). Qed.

#[export] Instance emits_history (P : event -> Prop) :
  ignores_history (emits P).
Proof. constructor; intros s *; exact (emits_refl P s). Qed.

Lemma emits_send_json (P : event -> Prop) (ev : event) :
  P ev -> keeps (emits P) (send_json ev).
Proof. intros H s. exists [ev]. split; [reflexivity | now constructor]. Qed.

Ltac benign_plumbing :=
  plumbing_with
    ltac:(first [ apply emits_send_json; exact I
                | apply keeps_web_ensure_sandbox; exact _
                | apply keeps_deploy_and_preview; exact _ ]).

Lemma benign_stream_generate (E : env) (prompt : string) :
  keeps (emits benign) (stream_generate E prompt send_json).
Proof. unfold stream_generate. benign_plumbing. Qed.

Lemma benign_send_preview (preview : option reply) :
  keeps (emits benign) (send_preview preview).
Proof. benign_plumbing. Qed.

(** If the statements under [try:] raise, they have sent only tokens,
    code and preview events. *)
Lemma body_raises_benign (E : env) (prompt : string) (s s1 : state)
    (e : exn) :
  chat_turn_body E prompt s = (Raises e, s1) -> emits benign s s1.
Proof.
  intros H.
  assert (P : post (chat_turn_body E prompt) s
                (fun r s' => r = Raises e -> emits benign s s')).
  { unfold chat_turn_body.
    apply post_bind, (post_keeps (emits benign));
      [apply benign_stream_generate |].
    intros [[]|e1|] s2 H2; [|intros _; exact H2|discriminate].
    apply post_bind, (post_keeps (emits benign));
      [apply keeps_deploy_and_preview; exact _ |].
    intros [preview|e1|] s3 H3;
      [|intros _; eapply emits_trans; eassumption|discriminate].
    apply post_bind, (post_keeps (emits benign));
      [apply benign_send_preview |].
    intros [[]|e1|] s4 H4;
      [|intros _; eapply emits_trans; [eassumption |];
        eapply emits_trans; eassumption|discriminate].
    unfold post. cbn. discriminate. }
  unfold post in P. rewrite H in P. now apply P.
Qed.

(** If they return, the last event is [complete] and all before it are
    tokens, code and preview events: there is no [error]. *)
Lemma body_returns_complete (E : env) (prompt : string) (s s1 : state) :
  chat_turn_body E prompt s = (Returns tt, s1) ->
  exists evs files,
    sent s1 = (sent s ++ evs ++ [Complete files])%list /\ Forall benign evs.
Proof.
  intros H.
  assert (P : post (chat_turn_body E prompt) s
                (fun r s' =>
                   r = Returns tt ->
                   exists evs files,
                     sent s' = (sent s ++ evs ++ [Complete files])%list
                     /\ Forall benign evs)).
  { unfold chat_turn_body.
    apply post_bind, (post_keeps (emits benign));
      [apply benign_stream_generate |].
    intros [[]|e1|] s2 H2; try discriminate.
    apply post_bind, (post_keeps (emits benign));
      [apply keeps_deploy_and_preview; exact _ |].
    intros [preview|e1|] s3 H3; try discriminate.
    apply post_bind, (post_keeps (emits benign));
      [apply benign_send_preview |].
    intros [[]|e1|] s4 H4; try discriminate.
    intros _.
    destruct (emits_trans _ _ _ _ H2 (emits_trans _ _ _ _ H3 H4))
      as (evs & Hs & Hb).
    exists evs, (keys (project_files s4)). split; [|exact Hb].
    cbn. now rewrite Hs, <- List.app_assoc. }
  unfold post in P. rewrite H in P. now apply P.
Qed.

(** *** The history *)

#[export] Instance history_same_quiet : quiet history_same.
Proof. constructor; unfold history_same; intros; cbn; congruence. Qed.

#[export] Instance history_same_files : ignores_files history_same.
Proof. constructor; reflexivity. Qed.

#[export] Instance history_same_sent : ignores_sent history_same.
Proof. constructor; reflexivity. Qed.

Ltac history_plumbing :=
  plumbing_with
    ltac:(first [ apply keeps_web_ensure_sandbox; exact _
                | apply keeps_chat; exact _ ]).

Lemma generate_web_code_history (E : env) (prompt : string) (s : state) :
  post (generate_web_code E prompt) s (batch_history prompt s).
Proof.
  unfold generate_web_code, batch_history.
  apply post_bind, post_get.
  apply post_bind, (post_keeps history_same); [history_plumbing |].
  intros [response|e|] s1 H1; trivial.
  apply post_bind, post_lift.
  destruct (Parse._parse_web_files response) as [files|e|]; trivial.
  apply post_bind, (post_keeps history_same); [history_plumbing |].
  intros [[]|e|] s2 H2; try (red in H1, H2; congruence).
  apply post_bind, (post_keeps history_same); [history_plumbing |].
  intros [[]|e|] s3 H3; try (red in H1, H2, H3; congruence).
  apply post_bind, post_modify, post_ret.
  exists response. cbn. red in H1, H2, H3. now rewrite H3, H2, H1.
Qed.

Lemma stream_generate_history (E : env) (prompt : string) (s : state) :
  post (stream_generate E prompt send_json) s (stream_history prompt s).
Proof.
  unfold stream_generate, stream_history.
  apply post_bind, post_get.
  apply post_bind, (post_keeps history_same); [history_plumbing |].
  intros [response|e|] s1 H1; trivial.
  apply post_bind, post_lift.
  destruct (Parse._parse_web_files response) as [files|e|] eqn:Ef; trivial.
  apply post_bind, (post_keeps history_same); [history_plumbing |].
  intros [[]|e|] s2 H2; try (red in H1, H2; congruence).
  apply post_bind, (post_keeps history_same); [history_plumbing |].
  intros [[]|e|] s3 H3; try (red in H1, H2, H3; congruence).
  apply post_modify.
  exists response, files. split; [exact Ef |].
  cbn. red in H1, H2, H3. now rewrite H3, H2, H1.
Qed.

(** *** The auto-fix loop *)

Lemma calls_added_trans (l1 x1 l2 x2 : nat) (s1 s2 s3 : state) :
  calls_added l1 x1 s1 s2 -> calls_added l2 x2 s2 s3 ->
  calls_added (l1 + l2) (x1 + x2) s1 s3.
Proof. unfold calls_added. lia. Qed.

Section Calm.

Variable E : env.
Hypothesis E_calm : calm E.

Lemma perform_calm (c : call) (s : state) :
  perform E c s
  = (Returns (oracle E (List.length (trace s)) c),
     set_trace (c :: trace s) s).
Proof. unfold perform. now rewrite E_calm. Qed.

Lemma extract_supported (response language : string) :
  In language supported ->
  exists x, Llm._extract_code response language = Returns x.
Proof.
  intros H.
  assert (P : all plain language = true).
  { cbn in H. destruct H as [<-|[<-|[<-|[]]]]; reflexivity. }
  destruct (extract_code_plain response language P) as (c & -> & _).
  eauto.
Qed.

Lemma chat_calm (messages : list message) (t : nat) (n : N) (s : state) :
  exists response s',
    chat E messages t n s = (Returns response, s')
    /\ history s' = history s /\ sandbox s' = sandbox s
    /\ calls_added 1 0 s s'.
Proof.
  unfold chat, bindM. rewrite perform_calm. do 2 eexists.
  split; [reflexivity |]. repeat split; cbn; unfold llm_calls, exec_runs;
    cbn; lia.
Qed.

Lemma generate_code_calm (prompt language : string) (s : state) :
  In language supported ->
  exists x s',
    generate_code E prompt language s = (Returns x, s')
    /\ sandbox s' = sandbox s /\ calls_added 1 0 s s'.
Proof.
  intros H. unfold generate_code, bindM.
  destruct (chat_calm
              [ {| role := "system";
                   content := generate_code_prompt language |};
                {| role := "user"; content := prompt |} ] 3 4096%N s)
    as (response & s' & -> & _ & Hs & Hc).
  destruct (extract_supported response language H) as [x Hx].
  unfold lift. rewrite Hx. eauto.
Qed.

Lemma analyze_error_calm (code error language : string) (s : state) :
  In language supported ->
  exists x s',
    analyze_error E code error language s = (Returns x, s')
    /\ sandbox s' = sandbox s /\ calls_added 1 0 s s'.
Proof.
  intros H. unfold analyze_error, bindM.
  destruct (chat_calm
              [ {| role := "system";
                   content := analyze_error_system language |};
                {| role := "user";
                   content := analyze_error_user code error language |} ]
              2 4096%N s)
    as (response & s' & -> & _ & Hs & Hc).
  destruct (extract_supported response language H) as [x Hx].
  unfold lift. rewrite Hx. eauto.
Qed.

Ltac count_calls :=
  unfold calls_added, llm_calls, exec_runs; cbn; lia.

Ltac calm_run :=
  unfold execute, _ensure_sandbox, execute_code, run_script, need_sandbox,
    the_manager, create_sandbox, append_history, bindM, get, modify, ret;
  cbn [sandbox set_sandbox set_trace set_history];
  repeat (rewrite perform_calm;
          cbn [sandbox set_sandbox set_trace set_history]).

(** On a session whose world answers every call, a write returns. *)
Lemma update_file_calm (filename content : string) (s : state) :
  sandbox s <> None ->
  exists s1, update_file E filename content s = (Returns tt, s1).
Proof.
  intros H. unfold update_file, upload_file, store_file, try_except.
  destruct (sandbox s) as [[|]|] eqn:Hs; [| |contradiction];
    calm_run; rewrite ?Hs; calm_run; eauto.
Qed.

Hypothesis E_noisy : noisy E.

(** One execution: it returns, with a non-empty stderr, after one
    command and no LLM call. *)
Lemma execute_calm (code language : string) (s : state) :
  In language supported ->
  exists result s',
    execute E code language s = (Returns result, s')
    /\ er_stderr result <> "" /\ calls_added 0 1 s s'.
Proof.
  intros H. cbn in H.
  destruct H as [<-|[<-|[<-|[]]]]; destruct (sandbox s) as [[|]|] eqn:Hs;
    calm_run; rewrite ?Hs; calm_run; cbn [String.eqb Ascii.eqb Bool.eqb];
    calm_run;
    do 2 eexists; (split; [reflexivity |]);
    (split; [apply E_noisy | count_calls]).
Qed.

Lemma auto_fix_loop_calm (language : string) (budget : nat) :
  In language supported ->
  forall (code : string) (result : exec_result) (retries : nat) (s : state),
  er_stderr result <> "" ->
  exists code' result' s',
    auto_fix_loop E budget language code result retries s
    = (Returns (code', result', retries + budget), s')
    /\ er_stderr result' <> "" /\ calls_added budget budget s s'.
Proof.
  intros H. induction budget as [|budget IH]; intros code result retries s Hr.
  - exists code, result, s. cbn [auto_fix_loop]. rewrite Nat.add_0_r.
    split; [reflexivity |]. split; [exact Hr | count_calls].
  - cbn [auto_fix_loop]. unfold nonempty.
    destruct (er_stderr result =? "") eqn:Ee;
      [apply String.eqb_eq in Ee; contradiction |].
    cbn [negb]. unfold bindM at 1.
    destruct (analyze_error_calm code (er_stderr result) language s H)
      as (x & s1 & -> & _ & C1).
    unfold bindM at 1.
    destruct (execute_calm (Llm.code x) language s1 H)
      as (result1 & s2 & -> & Hr1 & C2).
    destruct (er_stderr result1 =? "") eqn:Ee1;
      [apply String.eqb_eq in Ee1; contradiction |].
    cbn [negb].
    destruct (IH (Llm.code x) result1 (retries + 1) s2 Hr1)
      as (code' & result' & s' & -> & Hr' & C3).
    exists code', result', s'.
    replace (retries + S budget) with (retries + 1 + budget) by lia.
    split; [reflexivity |]. split; [exact Hr' |].
    unfold calls_added in *; lia.
Qed.

Lemma run_calm (prompt language : string) (s : state) :
  In language supported ->
  exists result s',
    run E prompt language true s = (Returns result, s')
    /\ rr_retries result = 3 /\ rr_errors result <> ""
    /\ rr_prompt result = prompt /\ rr_language result = language
    /\ calls_added (1 + 3) (1 + 3) s s'.
Proof.
  intros H. unfold run, generate. unfold bindM at 1. unfold bindM at 1.
  destruct (generate_code_calm prompt language s H)
    as (x & s1 & -> & _ & C1).
  cbn [bindM append_history modify ret]. unfold bindM at 1.
  destruct (execute_calm (Llm.code x) language
              (set_history
                 (history s1 ++ [Generate prompt (Llm.code x) language]) s1)
              H) as (result1 & s2 & -> & Hr1 & C2).
  unfold bindM at 1.
  destruct (auto_fix_loop_calm language MAX_RETRIES H (Llm.code x) result1
              0 s2 Hr1) as (code' & result' & s' & -> & Hr' & C3).
  do 2 eexists. split; [reflexivity |].
  cbn [rr_retries rr_errors rr_prompt rr_language Nat.add].
  split; [reflexivity |]. split; [exact Hr' |].
  split; [reflexivity |]. split; [reflexivity |].
  unfold calls_added, llm_calls, exec_runs, MAX_RETRIES in *.
  cbn [trace set_history] in *. lia.
Qed.

End Calm.

(** An unsupported language is never run: the execution answers with an
    empty stderr, so it is outside the runs whose every execution fails. *)
Lemma unsupported_runs_nothing (E : env) (code language : string)
    (s : state) :
  ~ In language supported -> sandbox s = Some true ->
  exists result,
    execute_code E code language s = (Returns result, s)
    /\ er_stderr result = "".
Proof.
  intros H Hs. unfold execute_code, need_sandbox, the_manager, bindM, get.
  rewrite Hs. cbn [ret].
  destruct (language =? "python") eqn:E1;
    [apply String.eqb_eq in E1; subst; cbn in H; tauto |].
  destruct (language =? "javascript") eqn:E2;
    [apply String.eqb_eq in E2; subst; cbn in H; tauto |].
  destruct (language =? "bash") eqn:E3;
    [apply String.eqb_eq in E3; subst; cbn in H; tauto |].
  eexists. split; reflexivity.
Qed.

End ModelFacts.
Import ModelFacts.

(** C3.  In every state a session goes through (created with its
    sandbox, then serving chat turns, batch generations and direct edits,
    whether they succeed or fail) the in-memory file store agrees with the
    files last uploaded to the workspace: each stored name has the content
    last uploaded under its workspace path, each uploaded workspace file is
    in the store, and nothing outside the workspace was uploaded. *)
Theorem C3_store_mirrors_uploads (E : Model.env) (s : Model.state) :
  session_state E s -> synced s.
Proof.
  induction 1 as [s H|s r _ IH].
  - pose proof (keeps_web_ensure_sandbox sync_kept E Model.initial
                  synced_initial) as H1.
    unfold Model.create_session in H. now rewrite H in H1.
  - now apply sync_serve.
Qed.

Lemma C3_store_mirrors_uploads_witness :
  let s1 := snd (Model.create_session calm_world Model.initial) in
  let s2 := snd (Model.serve calm_world (Model.WsChat "a page") s1) in
  let s3 := snd (Model.serve calm_world
                   (Model.RestUpdateFile "app.js" "alert(1)") s2) in
  session_state calm_world s3 /\ synced s3.
Proof.
  intros s1 s2 s3.
  assert (H : session_state calm_world s3).
  { apply session_served, session_served, session_created.
    vm_compute. reflexivity. }
  split; [exact H | exact (C3_store_mirrors_uploads calm_world s3 H)].
Defined.

(** C8.  On a session, a write through [update_file] that returns is
    read back unchanged by [get_file_content], and [get_project_files]
    lists the names in the order of their first write: a name already
    present keeps its place, a new one goes last. *)
Theorem C8_write_then_read (E : Model.env) (s s1 : Model.state)
    (filename content : string) :
  session_state E s ->
  Model.update_file E filename content s = (Returns tt, s1) ->
  Model.get_file_content filename s1 = (Returns (Some content), s1)
  /\ Model.get_project_files s1
     = (Returns (if dict_mem filename (Model.project_files s)
                 then keys (Model.project_files s)
                 else (keys (Model.project_files s) ++ [filename])%list), s1).
Proof.
  intros Hs Hu.
  pose proof (update_file_returned E filename content s s1
                (session_has_manager E s Hs) Hu) as Hp.
  unfold Model.get_file_content, Model.get_project_files, Model.bindM,
    Model.get, Model.ret.
  rewrite Hp, dict_get_set, String.eqb_refl, keys_dict_set. now split.
Qed.

Lemma C8_write_then_read_witness :
  let s := snd (Model.create_session calm_world Model.initial) in
  let s1 := snd (Model.serve calm_world
                   (Model.RestUpdateFile "b.css" "body{}") s) in
  let s2 := snd (Model.serve calm_world
                   (Model.RestUpdateFile "a.js" "let x") s1) in
  let s3 := snd (Model.update_file calm_world "b.css" "p{}" s2) in
  (session_state calm_world s2
   /\ Model.update_file calm_world "b.css" "p{}" s2 = (Returns tt, s3))
  /\ Model.get_file_content "b.css" s3 = (Returns (Some "p{}"), s3)
  /\ Model.get_project_files s3 = (Returns ["b.css"; "a.js"], s3).
Proof.
  intros s s1 s2 s3.
  assert (H : session_state calm_world s2).
  { apply session_served, session_served, session_created.
    vm_compute. reflexivity. }
  assert (Hu : Model.update_file calm_world "b.css" "p{}" s2
               = (Returns tt, s3)) by (vm_compute; reflexivity).
  split; [now split |].
  exact (C8_write_then_read calm_world s2 s3 "b.css" "p{}" H Hu).
Defined.



(** The first call on a session does start the server: it kills a stale
    one, starts a fresh one, waits, and marks the server as running. *)
Lemma first_start_runs_the_server :
  let s := snd (Model.create_session calm_world Model.initial) in
  let s1 := snd (Model.start_preview_server calm_world s) in
  Model.server_running s = false
  /\ Model.server_running s1 = true
  /\ Model.trace s1
     = Model.Sleep 1
       :: Model.SdkExec
            "cd /home/daytona/project && nohup python3 -m http.server 8000 > /dev/null 2>&1 &"
       :: Model.SdkExec "pkill -f 'python3 -m http.server' 2>/dev/null || true"
       :: Model.trace s.
Proof. repeat split. Qed.

(** C4.  If the statements of a streaming chat turn raise, the turn
    sends exactly one [error] event, carrying the message of the
    exception, as its last event: before it come only [token], [code] and
    [preview] events, so no [complete] is sent in the turn, and the handler
    itself returns.  (Sending is taken to succeed: the transport is
    outside the model.) *)
Theorem C4_error_ends_the_turn (E : Model.env) (prompt : string)
    (s s1 : Model.state) (e : exn) :
  Model.chat_turn_body E prompt s = (Raises e, s1) ->
  fst (Model.chat_turn E prompt s) = Returns tt
  /\ exists evs,
       Model.sent (snd (Model.chat_turn E prompt s))
       = (Model.sent s ++ evs ++ [Model.Error (exn_message e)])%list
       /\ Forall benign evs.
Proof.
  intros H. pose proof (body_raises_benign E prompt s s1 e H)
    as (evs & Hs & Hb).
  unfold Model.chat_turn, Model.try_except. rewrite H.
  split; [reflexivity |]. exists evs. split; [|exact Hb].
  cbn. now rewrite Hs, <- List.app_assoc.
Qed.

Lemma C4_error_ends_the_turn_witness :
  let s := snd (Model.create_session deploy_fails Model.initial) in
  let s1 := snd (Model.chat_turn_body deploy_fails "a page" s) in
  Model.chat_turn_body deploy_fails "a page" s
  = (Raises (Exception "sandbox unreachable"), s1)
  /\ fst (Model.chat_turn deploy_fails "a page" s) = Returns tt
  /\ exists evs,
       Model.sent (snd (Model.chat_turn deploy_fails "a page" s))
       = (Model.sent s ++ evs ++ [Model.Error "sandbox unreachable"])%list
       /\ Forall benign evs.
Proof.
  intros s s1.
  assert (H : Model.chat_turn_body deploy_fails "a page" s
              = (Raises (Exception "sandbox unreachable"), s1))
    by (vm_compute; reflexivity).
  split; [exact H |].
  exact (C4_error_ends_the_turn deploy_fails "a page" s s1 _ H).
Defined.

(** C5, amended.  The history gains one [generate_web] turn, with the
    prompt and the names of the resolved files, exactly when the agent's
    generation step returns: the batch [generate_web_code], or the
    streamed [stream_generate] run to its end.  If that step fails the
    history is unchanged.  The entry is written before the preview is
    deployed, so a failure of the deployment later in the turn leaves it
    in place. *)
Theorem C5_history_follows_generation (E : Model.env) (prompt : string)
    (s : Model.state) :
  (let (r, s') := Model.generate_web_code E prompt s in
   batch_history prompt s r s')
  /\ (let (r, s') := Model.stream_generate E prompt Model.send_json s in
      stream_history prompt s r s').
Proof.
  split.
  - pose proof (generate_web_code_history E prompt s) as H.
    unfold post in H. now destruct (Model.generate_web_code E prompt s).
  - pose proof (stream_generate_history E prompt s) as H.
    unfold post in H. now destruct (Model.stream_generate E prompt _ s).
Qed.

(** C5 as stated fails: a chat turn whose deployment fails ends with an
    [error] event and without [complete], yet its history entry was
    already written. *)
Lemma C5_counterexample :
  let s := snd (Model.create_session deploy_fails Model.initial) in
  let s' := snd (Model.chat_turn deploy_fails "a page" s) in
  Model.history s = []
  /\ Model.sent s'
     = [ Model.Token hello_page; Model.Code "index.html" "<h1>Hi</h1>";
         Model.Error "sandbox unreachable" ]
  /\ Model.history s' = [Model.GenerateWeb "a page" ["index.html"] None].
Proof.
  split; [reflexivity |]. split; vm_compute; reflexivity.
Qed.



(** * Further properties *)

Module StripFacts.

Lemma rstrip_empty (s : string) : rstrip s = "" <-> all isspace s = true.
Proof.
  induction s as [|c s IH]; cbn [rstrip all]; [tauto |].
  destruct (rstrip s) as [|d r] eqn:E.
  - destruct (isspace c); cbn [andb].
    + rewrite <- IH. tauto.
    + split; discriminate.
  - split; [discriminate |]. intros H. apply andb_true_iff in H as [_ H].
    apply IH in H. discriminate.
Qed.

Lemma lstrip_empty (s : string) : lstrip s = "" <-> all isspace s = true.
Proof.
  induction s as [|c s IH]; cbn [lstrip all]; [tauto |].
  destruct (isspace c); cbn [andb]; [exact IH |]. split; discriminate.
Qed.

Lemma rstrip_cons (c : ascii) (s : string) :
  rstrip (String c s)
  = match rstrip s with
    | "" => if isspace c then "" else String c ""
    | r => String c r
    end.
Proof. reflexivity. Qed.

Lemma rstrip_idem (s : string) : rstrip (rstrip s) = rstrip s.
Proof.
  induction s as [|c s IH]; [reflexivity |]. rewrite rstrip_cons.
  destruct (rstrip s) as [|d r] eqn:E.
  - destruct (isspace c) eqn:Ec; [reflexivity |]. cbn [rstrip]. now rewrite Ec.
  - rewrite rstrip_cons, IH. reflexivity.
Qed.

Lemma lstrip_idem (s : string) : lstrip (lstrip s) = lstrip s.
Proof.
  induction s as [|c s IH]; [reflexivity |]. cbn [lstrip].
  destruct (isspace c) eqn:Ec; [exact IH |]. cbn [lstrip]. now rewrite Ec.
Qed.

Lemma lstrip_rstrip (s : string) : lstrip (rstrip s) = rstrip (lstrip s).
Proof.
  induction s as [|c s IH]; [reflexivity |]. cbn [rstrip lstrip].
  destruct (isspace c) eqn:Ec.
  - destruct (rstrip s) as [|d r] eqn:E.
    + apply rstrip_empty, lstrip_empty in E. now rewrite E.
    + cbn [lstrip]. rewrite Ec. exact IH.
  - cbn [rstrip]. destruct (rstrip s) as [|d r]; cbn [lstrip]; now rewrite Ec.
Qed.

Lemma strip_idem (s : string) : stripped (strip s).
Proof.
  unfold stripped, strip.
  now rewrite lstrip_rstrip, lstrip_idem, rstrip_idem.
Qed.

Lemma rstrip_app_nonspace (s : string) (b : ascii) :
  isspace b = false -> rstrip (s ++ String b "") = s ++ String b "".
Proof.
  intros Hb. induction s as [|c s IH]; cbn [append rstrip].
  - now rewrite Hb.
  - rewrite IH. now destruct s.
Qed.

(** A text between two characters that are not blank is stripped. *)
Lemma stripped_between (a b : ascii) (s : string) :
  isspace a = false -> isspace b = false ->
  stripped (String a (s ++ String b "")).
Proof.
  intros Ha Hb. unfold stripped, strip. cbn [lstrip]. rewrite Ha.
  change (String a (s ++ String b "")) with (String a s ++ String b "").
  now apply rstrip_app_nonspace.
Qed.

Lemma rstrip_nonspace (s : string) : all nonspace s = true -> rstrip s = s.
Proof.
  unfold nonspace. induction s as [|c s IH]; [reflexivity |].
  cbn [all]. intros H. apply andb_true_iff in H as [Hc H].
  apply negb_true_iff in Hc. rewrite rstrip_cons, (IH H), Hc.
  now destruct s.
Qed.

Lemma strip_nonspace (s : string) : all nonspace s = true -> stripped s.
Proof.
  intros H. unfold stripped, strip.
  destruct s as [|c s]; [reflexivity |]. pose proof H as H'.
  cbn [all] in H'. apply andb_true_iff in H' as [Hc _].
  apply negb_true_iff in Hc. cbn [lstrip]. rewrite Hc.
  now apply rstrip_nonspace.
Qed.

End StripFacts.

Module ResolverFacts.
Import Parse StripFacts.

Lemma rstrip_keep (a : ascii) (s : string) :
  rstrip s = s -> s <> "" -> rstrip (String a s) = String a s.
Proof.
  intros H N. rewrite rstrip_cons, H. destruct s; [contradiction | reflexivity].
Qed.

Lemma rstrip_app_r (s t : string) :
  rstrip t = t -> t <> "" -> rstrip (s ++ t) = s ++ t.
Proof.
  intros H N. induction s as [|c s IH]; [exact H |].
  cbn [append]. apply rstrip_keep; [exact IH |].
  destruct s; [exact N | discriminate].
Qed.

Lemma stripped_around (a : ascii) (p c t : string) :
  isspace a = false -> rstrip t = t -> t <> "" ->
  stripped (String a p ++ c ++ t).
Proof.
  intros Ha Ht Nt. unfold stripped, strip. cbn [append lstrip]. rewrite Ha.
  change (String a (p ++ c ++ t)) with (String a p ++ c ++ t).
  apply rstrip_app_r.
  - now apply rstrip_app_r.
  - destruct c; [exact Nt | discriminate].
Qed.

(** The characters in front of the first text that is not a literal. *)
Ltac literal_prefix t :=
  lazymatch t with
  | String ?a ?r => let p := literal_prefix r in constr:(String a p)
  | _ => constr:(EmptyString)
  end.

Ltac after_prefix t :=
  lazymatch t with
  | String _ ?r => after_prefix r
  | _ => t
  end.

(** A page built around a text is stripped: it opens with [<] and ends
    with [>]. *)
Ltac page_stripped :=
  unfold lines, q, dq, NL;
  cbn [String.concat append];
  rewrite ?app_assoc; cbn [append];
  lazymatch goal with
  | |- stripped ?t =>
      let p := literal_prefix t in
      let r := after_prefix t in
      change (stripped (p ++ r))
  end;
  apply stripped_around; [reflexivity | reflexivity | discriminate].

Lemma script_wrapper_stripped (content : string) :
  stripped (script_wrapper content).
Proof. unfold script_wrapper. page_stripped. Qed.

Lemma placeholder_page_stripped (shown : string) :
  stripped (placeholder_page shown).
Proof. unfold placeholder_page. page_stripped. Qed.

Lemma dict_mem_keys (k : string) (d : dict) :
  dict_mem k d = false <-> ~ In k (keys d).
Proof.
  unfold dict_mem. induction d as [|[k' v] d IH]; cbn [dict_get keys map fst In].
  - tauto.
  - destruct (k' =? k) eqn:E.
    + apply String.eqb_eq in E. split; [discriminate | tauto].
    + apply String.eqb_neq in E. fold (keys d). tauto.
Qed.

Lemma dict_set_absent (d : dict) (k v : string) :
  dict_mem k d = false -> dict_set d k v = (d ++ [(k, v)])%list.
Proof.
  unfold dict_mem. induction d as [|[k' v'] d IH]; cbn [dict_get dict_set app];
    [reflexivity |].
  destruct (k' =? k); [discriminate |]. intros H. now rewrite IH.
Qed.

Lemma keys_app (d1 d2 : dict) :
  keys (d1 ++ d2)%list = (keys d1 ++ keys d2)%list.
Proof. apply map_app. Qed.

Lemma dict_set_Forall (P : string * string -> Prop) (d : dict)
    (k v : string) :
  Forall P d -> P (k, v) -> Forall P (dict_set d k v).
Proof.
  intros Hd Hp. induction Hd as [|[k' v'] d H' Hd IH]; cbn [dict_set].
  - now constructor.
  - destruct (k' =? k) eqn:E.
    + apply String.eqb_eq in E. subst k'. now constructor.
    + now constructor.
Qed.

Lemma try_patterns_shape (patterns : list string) (response name : string)
    (files : dict) :
  Forall fence_pattern patterns ->
  exists files', try_patterns patterns response name files = Returns files'
    /\ (files' = files \/ exists g, files' = dict_set files name (strip g)).
Proof.
  induction 1 as [|p patterns Hp _ IH]; cbn [try_patterns].
  - eauto.
  - destruct (search_fence_pattern p response Re.DOTALL Hp) as [mt ->].
    cbn [bind]. destruct mt as [mt|]; [eauto | exact IH].
Qed.

(** The resolver as a sequence of steps: the labelled blocks first, then
    additions under a default name that is not yet there, each with a
    stripped content. *)
Lemma parse_steps (response : string) (P : dict -> Prop) :
  (forall labelled,
     Re.findall2 pattern1 response Re.DOTALL_IGNORECASE = Returns labelled ->
     P (store_matches labelled [])) ->
  (forall files name v,
     P files -> In name default_names -> dict_mem name files = false ->
     (name = "styles.css" -> dict_mem "style.css" files = false) ->
     (name = "script.js" -> dict_mem "app.js" files = false) ->
     stripped v -> P (dict_set files name v)) ->
  exists files, _parse_web_files response = Returns files /\ P files.
Proof.
  intros Hbase Hstep. unfold _parse_web_files.
  destruct (findall2_fence_pattern pattern1 response Re.DOTALL_IGNORECASE
              pattern1_fence) as [l El].
  rewrite El. cbn [bind]. pose proof (Hbase l El) as P0. clear Hbase.
  set (f0 := store_matches l []) in *.
  assert (H1 : exists f1,
    (if negb (dict_mem "index.html" f0)
     then try_patterns html_patterns response "index.html" f0
     else Returns f0) = Returns f1 /\ P f1).
  { destruct (dict_mem "index.html" f0) eqn:M; cbn [negb]; [eauto |].
    destruct (try_patterns_shape _ response "index.html" f0
                html_patterns_fence) as (f1 & -> & [->|[g ->]]); [eauto |].
    eexists; split; [reflexivity |].
    apply Hstep; [exact P0 | cbn; tauto | exact M | discriminate
                 | discriminate | apply strip_idem]. }
  destruct H1 as (f1 & -> & P1). cbn [bind]. clear P0 f0.
  assert (H2 : exists f2,
    (if negb (dict_mem "styles.css" f1) && negb (dict_mem "style.css" f1)
     then try_patterns css_patterns response "styles.css" f1
     else Returns f1) = Returns f2 /\ P f2).
  { destruct (dict_mem "styles.css" f1) eqn:M; cbn [negb andb]; [eauto |].
    destruct (dict_mem "style.css" f1) eqn:M'; cbn [negb]; [eauto |].
    destruct (try_patterns_shape _ response "styles.css" f1
                css_patterns_fence) as (f2 & -> & [->|[g ->]]); [eauto |].
    eexists; split; [reflexivity |].
    apply Hstep; [exact P1 | cbn; tauto | exact M | intros _; exact M'
                 | discriminate | apply strip_idem]. }
  destruct H2 as (f2 & -> & P2). cbn [bind]. clear P1 f1.
  assert (H3 : exists f3,
    (if negb (dict_mem "script.js" f2) && negb (dict_mem "app.js" f2)
     then try_patterns js_patterns response "script.js" f2
     else Returns f2) = Returns f3 /\ P f3).
  { destruct (dict_mem "script.js" f2) eqn:M; cbn [negb andb]; [eauto |].
    destruct (dict_mem "app.js" f2) eqn:M'; cbn [negb]; [eauto |].
    destruct (try_patterns_shape _ response "script.js" f2
                js_patterns_fence) as (f3 & -> & [->|[g ->]]); [eauto |].
    eexists; split; [reflexivity |].
    apply Hstep; [exact P2 | cbn; tauto | exact M | discriminate
                 | intros _; exact M' | apply strip_idem]. }
  destruct H3 as (f3 & -> & P3). cbn [bind]. clear P2 f2.
  assert (Hnew : forall v, f3 = [] -> stripped v ->
                   P (dict_set f3 "index.html" v)).
  { intros v E3 Hv.
    apply Hstep; [exact P3 | cbn; tauto | now rewrite E3
                 | discriminate | discriminate | exact Hv]. }
  assert (H4 : exists f4,
    generic_fallback response f3 = Returns f4 /\ P f4
    /\ (f3 <> [] -> f4 <> [])).
  { unfold generic_fallback. destruct f3 as [|kv f3]; cbn [dict_is_empty].
    - destruct (findall1_fence_pattern generic_pattern response Re.DOTALL
                  generic_pattern_fence) as [l' ->]. cbn [bind].
      destruct l' as [|first l'];
        [eexists; split; [reflexivity |]; split; [exact P3 | trivial] |].
      destruct (looks_like_html (strip first));
        (eexists; split; [reflexivity |]);
        (split; [|intros N; now destruct N]);
        (apply Hnew; [reflexivity |]);
        [apply strip_idem | apply script_wrapper_stripped].
    - eexists; split; [reflexivity |]. now split. }
  destruct H4 as (f4 & -> & P4 & N4). cbn [bind].
  eexists; split; [reflexivity |].
  unfold ultimate_fallback. destruct f4 as [|kv f4]; cbn [dict_is_empty];
    [|exact P4].
  assert (E3 : f3 = []).
  { destruct f3 as [|kv f3]; [reflexivity | exfalso].
    apply N4; [discriminate | reflexivity]. }
  destruct (contains "<!DOCTYPE" response || contains "<html" response).
  - destruct (negb _); [|exact P4].
    rewrite E3 in Hnew. apply Hnew; [reflexivity | apply strip_idem].
  - rewrite E3 in Hnew.
    apply Hnew; [reflexivity | apply placeholder_page_stripped].
Qed.

Lemma dict_mem_app (k : string) (a b : dict) :
  dict_mem k (a ++ b)%list = false ->
  dict_mem k a = false /\ dict_mem k b = false.
Proof.
  rewrite !dict_mem_keys, keys_app, in_app_iff. tauto.
Qed.

Lemma additions_step (named extra : dict) (name v : string) :
  additions named extra ->
  In name default_names ->
  dict_mem name (named ++ extra)%list = false ->
  (name = "styles.css" ->
   dict_mem "style.css" (named ++ extra)%list = false) ->
  (name = "script.js" -> dict_mem "app.js" (named ++ extra)%list = false) ->
  dict_set (named ++ extra)%list name v
  = (named ++ (extra ++ [(name, v)]))%list
  /\ additions named (extra ++ [(name, v)])%list.
Proof.
  intros (Hn & Hd & Hc & Hj) Hin Hm Gc Gj.
  split; [now rewrite dict_set_absent, List.app_assoc |].
  destruct (dict_mem_app _ _ _ Hm) as [Ml Me].
  unfold additions. rewrite keys_app. cbn [keys map fst].
  split; [|split; [|split]].
  - apply NoDup_app; [exact Hn | repeat constructor; intros [] |].
    intros x Hx [<-|[]]. now apply dict_mem_keys in Me.
  - intros x Hx. apply in_app_iff in Hx as [Hx|[<-|[]]]; [now apply Hd |].
    now split.
  - intros Hx. apply in_app_iff in Hx as [Hx|[Hx|[]]]; [now apply Hc |].
    now destruct (dict_mem_app _ _ _ (Gc Hx)).
  - intros Hx. apply in_app_iff in Hx as [Hx|[Hx|[]]]; [now apply Hj |].
    now destruct (dict_mem_app _ _ _ (Gj Hx)).
Qed.

End ResolverFacts.
Import StripFacts ResolverFacts.

(** X1.  [_parse_web_files] returns on every response, and no file it
    returns has white space at either end of its content: the body of a
    block is stored stripped, and a page the resolver writes itself
    begins and ends with markup. *)
Theorem resolver_contents_stripped (response : string) :
  exists files, Parse._parse_web_files response = Returns files
    /\ forall name content, In (name, content) files -> stripped content.
Proof.
  destruct (parse_steps response
              (Forall (fun kv => stripped (snd kv)))) as (files & E & H).
  - intros labelled _. unfold Parse.store_matches.
    assert (G : forall ms d, Forall (fun kv => stripped (snd kv)) d ->
              Forall (fun kv => stripped (snd kv))
                (fold_left (fun files fc =>
                   dict_set files (strip (fst fc)) (strip (snd fc))) ms d)).
    { induction ms as [|fc ms IH]; intros d Hd; [exact Hd |].
      cbn [fold_left]. apply IH.
      apply dict_set_Forall; trivial. apply strip_idem. }
    apply G. constructor.
  - intros files name v Hf _ _ _ _ Hv.
    apply dict_set_Forall; trivial.
  - exists files. split; [exact E |]. intros name content Hin.
    rewrite Forall_forall in H. exact (H _ Hin).
Qed.

(** X2.  The files [_parse_web_files] returns are first those of the
    blocks labelled with a file name, as pattern 1 finds them, then the
    files the resolver adds.  An added file has one of the names
    index.html, styles.css and script.js, a name no labelled block has
    and that is added once; styles.css is added only if no block is
    named style.css, script.js only if none is named app.js. *)
Theorem resolver_named_files_first (response : string) :
  exists labelled extra,
    Re.findall2 Parse.pattern1 response Re.DOTALL_IGNORECASE
    = Returns labelled
    /\ Parse._parse_web_files response
       = Returns (Parse.store_matches labelled [] ++ extra)%list
    /\ additions (Parse.store_matches labelled []) extra.
Proof.
  destruct (parse_steps response
    (fun files => exists labelled extra,
       Re.findall2 Parse.pattern1 response Re.DOTALL_IGNORECASE
       = Returns labelled
       /\ files = (Parse.store_matches labelled [] ++ extra)%list
       /\ additions (Parse.store_matches labelled []) extra))
    as (files & E & labelled & extra & El & -> & Ha).
  - intros labelled El. exists labelled, []. split; [exact El |].
    split; [now rewrite List.app_nil_r |].
    split; [constructor |]. split; [intros name [] |].
    split; intros [].
  - intros files name v (labelled & extra & El & -> & Ha) Hin Hm Gc Gj _.
    destruct (additions_step _ _ name v Ha Hin Hm Gc Gj) as [-> Ha'].
    exists labelled, (extra ++ [(name, v)])%list.
    split; [exact El |]. split; [reflexivity | exact Ha'].
  - exists labelled, extra.
    split; [exact El |]. split; [exact E | exact Ha].
Qed.

Module MatchFacts.
Import Re.

Ltac each_char c := destruct c as [[] [] [] [] [] [] [] []].

Lemma lower_blank (c : ascii) : isspace c = true -> lower c = c.
Proof. each_char c; vm_compute; intros H; try discriminate H; reflexivity. Qed.

Lemma word_not_blank (c : ascii) : isword c = true -> isspace c = false.
Proof. each_char c; vm_compute; intros H; try discriminate H; reflexivity. Qed.

Lemma word_not_backtick (c : ascii) :
  isword c = true -> (backtick =? c)%char = false.
Proof. each_char c; vm_compute; intros H; try discriminate H; reflexivity. Qed.

Lemma lower_nl (c : ascii) : (nl =? lower c)%char = (nl =? c)%char.
Proof. each_char c; vm_compute; reflexivity. Qed.

Lemma lower_dot (c : ascii) : ("." =? lower c)%char = ("." =? c)%char.
Proof. each_char c; vm_compute; reflexivity. Qed.

Lemma cs_match_nl (fl : flags) (c : ascii) :
  cs_match fl (CChar nl) c = (nl =? c)%char.
Proof.
  unfold cs_match. destruct (ignorecase fl); [|reflexivity].
  change (lower nl) with nl. apply lower_nl.
Qed.

Lemma cs_match_dot (fl : flags) (c : ascii) :
  cs_match fl (CChar ".") c = ("." =? c)%char.
Proof.
  unfold cs_match. destruct (ignorecase fl); [|reflexivity].
  change (lower ".") with "."%char. apply lower_dot.
Qed.

Lemma cs_solid_sound (fl : flags) (cs : cset) (c : ascii) :
  cs_solid cs = true -> cs_match fl cs c = true -> isspace c = false.
Proof.
  destruct cs as [a| | | |]; cbn [cs_solid cs_match]; try discriminate.
  - intros H. apply andb_true_iff in H as [Ha Hl].
    apply negb_true_iff in Ha, Hl.
    destruct (ignorecase fl); intros E; apply Ascii.eqb_eq in E.
    + destruct (isspace c) eqn:Ec; [|reflexivity].
      rewrite (lower_blank c Ec) in E. congruence.
    + congruence.
  - intros _ H. now apply negb_true_iff in H.
  - intros _. apply word_not_blank.
Qed.

Lemma blank_head_miss (fl : flags) (cs : cset) (c : ascii) (s : string) :
  cs_solid cs = true -> blank_head (String c s) = true ->
  cs_match fl cs c = false.
Proof.
  cbn [blank_head]. intros Hs Hc.
  destruct (cs_match fl cs c) eqn:E; [|reflexivity].
  apply (cs_solid_sound fl cs c Hs) in E. congruence.
Qed.

(** A solid repetition ends inside the text before the blank. *)
Lemma rep_greedy_solid (fl : flags) (cs : cset) (rest : string) :
  cs_solid cs = true -> blank_head rest = true ->
  forall q lo hi k x,
    rep_greedy fl cs lo hi (q ++ rest) k = Some x ->
    exists q1 q2, q = q1 ++ q2 /\ k (q2 ++ rest) = Some x.
Proof.
  intros Hs Hr. induction q as [|c q IH]; intros lo hi k x.
  - cbn [append]. destruct rest as [|c rest]; cbn [rep_greedy].
    + destruct (lo =? 0)%nat; [|discriminate].
      intros H. now exists "", "".
    + rewrite (blank_head_miss fl cs c rest Hs Hr). cbn [andb].
      destruct (lo =? 0)%nat; [|discriminate].
      intros H. now exists "", "".
  - cbn [append rep_greedy].
    assert (Hstop :
      (if (lo =? 0)%nat then k (String c (q ++ rest)) else None) = Some x ->
      exists q1 q2, String c q = q1 ++ q2 /\ k (q2 ++ rest) = Some x).
    { destruct (lo =? 0)%nat; [|discriminate].
      intros H. now exists "", (String c q). }
    destruct (cs_match fl cs c && can_more hi); [|exact Hstop].
    destruct (rep_greedy fl cs (pred lo) (option_map pred hi) (q ++ rest) k)
      eqn:E; cbn [orelse]; [|exact Hstop].
    intros [= <-]. destruct (IH _ _ _ _ E) as (q1 & q2 & -> & Hk).
    now exists (String c q1), q2.
Qed.

Lemma rep_lazy_solid (fl : flags) (cs : cset) (rest : string) :
  cs_solid cs = true -> blank_head rest = true ->
  forall q lo hi k x,
    rep_lazy fl cs lo hi (q ++ rest) k = Some x ->
    exists q1 q2, q = q1 ++ q2 /\ k (q2 ++ rest) = Some x.
Proof.
  intros Hs Hr. induction q as [|c q IH]; intros lo hi k x.
  - cbn [append]. destruct rest as [|c rest]; cbn [rep_lazy].
    + destruct (lo =? 0)%nat; [|discriminate].
      destruct (k "") eqn:E; cbn [orelse]; [|discriminate].
      intros [= <-]. now exists "", "".
    + rewrite (blank_head_miss fl cs c rest Hs Hr). cbn [andb].
      destruct (lo =? 0)%nat; [|discriminate].
      destruct (k (String c rest)) eqn:E; cbn [orelse]; [|discriminate].
      intros [= <-]. now exists "", "".
  - cbn [append rep_lazy].
    assert (Hmore :
      (if cs_match fl cs c && can_more hi
       then rep_lazy fl cs (pred lo) (option_map pred hi) (q ++ rest) k
       else None) = Some x ->
      exists q1 q2, String c q = q1 ++ q2 /\ k (q2 ++ rest) = Some x).
    { destruct (cs_match fl cs c && can_more hi); [|discriminate].
      intros E. destruct (IH _ _ _ _ E) as (q1 & q2 & -> & Hk).
      now exists (String c q1), q2. }
    destruct (lo =? 0)%nat; [|exact Hmore].
    destruct (k (String c (q ++ rest))) eqn:E; cbn [orelse]; [|exact Hmore].
    intros [= <-]. now exists "", (String c q).
Qed.

(** A solid pattern ends inside the text before the blank, and leaves
    the captures as they were. *)
Lemma m_solid (fl : flags) (rest : string) (r : regex) :
  solid r = true -> blank_head rest = true ->
  forall q caps k x,
    m fl r (q ++ rest) caps k = Some x ->
    exists q1 q2, q = q1 ++ q2 /\ k (q2 ++ rest) caps = Some x.
Proof.
  intros Hs Hr. revert Hs.
  induction r as [|cs|greedy lo hi cs|a IHa b IHb|a IHa b IHb|i a IHa];
    cbn [solid m]; intros Hs q caps k x; try discriminate.
  - intros H. now exists "", q.
  - destruct q as [|c q]; cbn [append].
    + destruct rest as [|c rest]; [discriminate |].
      now rewrite (blank_head_miss fl cs c rest Hs Hr).
    + destruct (cs_match fl cs c); [|discriminate].
      intros H. now exists (String c ""), q.
  - destruct greedy; intros H.
    + now apply rep_greedy_solid in H.
    + now apply rep_lazy_solid in H.
  - apply andb_true_iff in Hs as [Ha Hb]. intros H.
    apply (IHa Ha) in H as (q1 & q2 & -> & H).
    apply (IHb Hb) in H as (q3 & q4 & -> & H).
    exists (q1 ++ q3), q4. split; [now rewrite app_assoc | exact H].
  - apply andb_true_iff in Hs as [Ha Hb].
    destruct (m fl a (q ++ rest) caps k) eqn:E; cbn [orelse].
    + intros [= <-]. now apply (IHa Ha) in E.
    + apply (IHb Hb).
Qed.

Lemma orelse_l {A} (x y : option A) : x <> None -> orelse x y <> None.
Proof. now destruct x. Qed.

Lemma orelse_r {A} (x y : option A) : y <> None -> orelse x y <> None.
Proof. destruct x; [discriminate | trivial]. Qed.

(** A greedy repetition succeeds as soon as its continuation does at
    some point it can stop at. *)
Lemma rep_greedy_complete (fl : flags) (cs : cset) (s' : string)
    (k : string -> option found) :
  k s' <> None ->
  forall p lo, all (cs_match fl cs) p = true -> lo <= String.length p ->
  rep_greedy fl cs lo None (p ++ s') k <> None.
Proof.
  intros Hk. induction p as [|c p IH]; intros lo Hp Hlo.
  - cbn in Hlo. assert (lo = 0) as -> by lia. cbn [append].
    destruct s' as [|c s']; cbn [rep_greedy Nat.eqb]; [exact Hk |].
    destruct (cs_match fl cs c && can_more None); [|exact Hk].
    now apply orelse_r.
  - cbn [all] in Hp. apply andb_true_iff in Hp as [Hc Hp].
    cbn [append rep_greedy can_more option_map]. rewrite Hc. cbn [andb].
    apply orelse_l, IH; [exact Hp |]. cbn in Hlo. lia.
Qed.

(** It takes the whole run when the continuation accepts that. *)
Lemma rep_greedy_all (fl : flags) (cs : cset) (rest : string)
    (k : string -> option found) (x : found) :
  k rest = Some x ->
  forall q, all (cs_match fl cs) q = true ->
  (forall c r, rest = String c r -> cs_match fl cs c = false) ->
  rep_greedy fl cs 0 None (q ++ rest) k = Some x.
Proof.
  intros Hk q Hq Hr. induction q as [|c q IH].
  - cbn [append]. destruct rest as [|c rest]; cbn [rep_greedy Nat.eqb];
      [exact Hk |].
    now rewrite (Hr c rest eq_refl).
  - cbn [all] in Hq. apply andb_true_iff in Hq as [Hc Hq].
    cbn [append rep_greedy can_more option_map pred]. rewrite Hc.
    cbn [andb]. now rewrite (IH Hq).
Qed.

(** Literals read without regard to case. *)
Lemma m_lits_ci (fl : flags) (e e' : string) (r : regex) (s : string)
    (caps : captures) (k : string -> captures -> option found) :
  ignorecase fl = true -> lower_str e' = lower_str e ->
  m fl (lits e r) (e' ++ s) caps k = m fl r s caps k.
Proof.
  intros Hi. revert e'. induction e as [|c e IH]; intros [|c' e'] H;
    try discriminate H; [reflexivity |].
  cbn [lower_str] in H. injection H as Hc He.
  cbn [lits append m cs_match]. rewrite Hi, Hc, Ascii.eqb_refl.
  now apply IH.
Qed.

(** Where literals fail: on an empty text or a blank. *)
Lemma m_lits_blank (fl : flags) (e : string) (r : regex) (rest : string)
    (caps : captures) (k : string -> captures -> option found) :
  e <> "" -> solid (lits e r) = true -> blank_head rest = true ->
  m fl (lits e r) rest caps k = None.
Proof.
  destruct e as [|c e]; [contradiction |]. intros _ Hs Hr.
  cbn [lits solid] in Hs. apply andb_true_iff in Hs as [Hc _].
  cbn [lits m]. destruct rest as [|x rest]; [reflexivity |].
  now rewrite (blank_head_miss fl _ x rest Hc Hr).
Qed.

(** *** The body of a block, in any group and under any flags *)

Lemma lazy_group_n_match (fl : flags) (i : nat) (w post : string)
    (caps : captures) :
  dotall fl = true ->
  contains "```" (w ++ "``") = false ->
  m fl (RSeq (lazy_group_n i) (fence_then REmpty)) (w ++ "```" ++ post) caps
    accept
  = Some (cap_set i w caps, post).
Proof.
  intros Hd Hw. unfold lazy_group_n. cbn [m].
  set (u := w ++ "```" ++ post).
  set (k := fun s' : string => _).
  unfold u.
  change (w ++ "```" ++ post) with (w ++ "``" ++ String backtick post).
  rewrite lazy_scan; trivial.
  - change ("``" ++ String backtick post) with ("```" ++ post).
    assert (Hk : k ("```" ++ post) = Some (cap_set i w caps, post)).
    { unfold k. rewrite m_fence_some. cbn [m]. unfold accept.
      replace (String.length u - String.length ("```" ++ post))
        with (String.length w)
        by (unfold u; rewrite length_app; lia).
      unfold u. now rewrite take_app. }
    cbn [append rep_lazy Nat.eqb]. cbn [append] in Hk. now rewrite Hk.
  - intros s' Hs. unfold k. now apply m_fence_none.
Qed.

Lemma greedy_blank_n (fl : flags) (i : nat) (post : string)
    (caps : captures) (body : string) :
  dotall fl = true ->
  contains "```" (body ++ "``") = false ->
  rep_greedy fl CSpace 0 None (body ++ "```" ++ post)
    (after_newline_n fl i caps) = None
  \/ exists w g, body = w ++ g /\ all isspace w = true
       /\ rep_greedy fl CSpace 0 None (body ++ "```" ++ post)
            (after_newline_n fl i caps)
          = Some (cap_set i g caps, post).
Proof.
  intros Hd. induction body as [|c body IH]; intros Hb.
  - left. cbn [append rep_greedy cs_match Nat.eqb].
    unfold after_newline_n. cbn [m]. now rewrite cs_match_nl.
  - change (String c body ++ "``") with (String c (body ++ "``")) in Hb.
    pose proof (contains_false_tail _ _ _ Hb) as Hb'.
    change (String c body ++ "```" ++ post)
      with (String c (body ++ "```" ++ post)).
    cbn [rep_greedy cs_match Nat.eqb pred option_map can_more].
    assert (Hstop : after_newline_n fl i caps
                      (String c (body ++ "```" ++ post))
                    = if (nl =? c)%char
                      then Some (cap_set i body caps, post) else None).
    { unfold after_newline_n. cbn [m]. rewrite cs_match_nl.
      destruct (nl =? c)%char; [|reflexivity].
      now apply lazy_group_n_match. }
    destruct (isspace c) eqn:Ec; cbn [andb].
    + destruct (IH Hb') as [E|(w & g & -> & Hw & E)]; rewrite E;
        cbn [orelse].
      * rewrite Hstop. destruct (nl =? c)%char; [right | now left].
        exists (String c ""), body. cbn [all append]. now rewrite Ec.
      * right. exists (String c w), g. cbn [all append]. now rewrite Ec.
    + left. rewrite Hstop. destruct (nl =? c)%char eqn:En; [|reflexivity].
      apply Ascii.eqb_eq in En. subst c. discriminate Ec.
Qed.

Lemma block_tail_n_match (fl : flags) (i : nat) (body post : string)
    (caps : captures) :
  dotall fl = true ->
  contains "```" (body ++ "``") = false ->
  exists g, strip g = strip body
    /\ m fl (block_tail_n i) (NL ++ body ++ "```" ++ post) caps accept
       = Some (cap_set i g caps, post).
Proof.
  intros Hd Hb.
  change (m fl (block_tail_n i) (NL ++ body ++ "```" ++ post) caps accept)
    with (rep_greedy fl CSpace 0 None (String nl (body ++ "```" ++ post))
            (after_newline_n fl i caps)).
  cbn [rep_greedy cs_match Nat.eqb pred option_map can_more].
  change (isspace nl) with true. cbn [andb].
  destruct (greedy_blank_n fl i post caps body Hd Hb)
    as [E|(w & g & -> & Hw & E)]; rewrite E; cbn [orelse].
  - exists body. split; [reflexivity |].
    unfold after_newline_n. cbn [m]. rewrite cs_match_nl, Ascii.eqb_refl.
    now apply lazy_group_n_match.
  - exists g. split; [|reflexivity].
    unfold strip. now rewrite lstrip_app_space.
Qed.

(** The tail of a block does not start on a character that is not
    blank. *)
Lemma block_tail_n_solid_head (fl : flags) (i : nat) (c : ascii)
    (s : string) (caps : captures)
    (k : string -> captures -> option found) :
  isspace c = false -> m fl (block_tail_n i) (String c s) caps k = None.
Proof.
  intros Hc. unfold block_tail_n. cbn [m rep_greedy Nat.eqb].
  change (cs_match fl CSpace c) with (isspace c).
  rewrite Hc. cbn [andb]. rewrite cs_match_nl.
  destruct (nl =? c)%char eqn:E; [|reflexivity].
  apply Ascii.eqb_eq in E. subst c. discriminate Hc.
Qed.

Lemma all_app (p : ascii -> bool) (a b : string) :
  all p (a ++ b) = all p a && all p b.
Proof.
  induction a as [|c a IH]; cbn [append all]; [reflexivity |].
  now rewrite IH, andb_assoc.
Qed.

Lemma all_impl (p p' : ascii -> bool) (s : string) :
  (forall c, p c = true -> p' c = true) -> all p s = true -> all p' s = true.
Proof.
  intros H. induction s as [|c s IH]; cbn [all]; [reflexivity |].
  intros Hs. apply andb_true_iff in Hs as [Hc Hs].
  now rewrite (H c Hc), IH.
Qed.

Lemma name_char_nonspace (s : string) :
  all name_char s = true -> all nonspace s = true.
Proof.
  apply all_impl. unfold name_char, nonspace. intros c H.
  now apply andb_true_iff in H as [H _].
Qed.

Lemma word_name_char (s : string) :
  all isword s = true -> all name_char s = true.
Proof.
  apply all_impl. unfold name_char. intros c H.
  rewrite (word_not_blank c H). rewrite Ascii.eqb_sym.
  now rewrite (word_not_backtick c H).
Qed.

(** *** A block that names its file *)

(** The name group takes the whole name, when what follows it cannot
    start inside the name. *)
Lemma name_group_sound (fl : flags) (name rest : string)
    (k : string -> captures -> option found) (x : found) :
  all nonspace name = true -> blank_head rest = true ->
  (forall c s caps, isspace c = false -> k (String c s) caps = None) ->
  m fl (RGroup 1 name_part) (name ++ rest) [] k = Some x ->
  k rest (cap_set 1 name []) = Some x.
Proof.
  intros Hn Hr Hk. cbn [m]. intros H.
  apply (m_solid fl rest name_part eq_refl Hr) in H
    as (q1 & q2 & E & H).
  destruct q2 as [|c q2].
  - rewrite app_nil_r in E. subst q1. cbn [append] in H.
    rewrite length_app in H.
    replace (String.length name + String.length rest - String.length rest)
      with (String.length name) in H by lia.
    now rewrite take_app in H.
  - exfalso. rewrite E, all_app in Hn. apply andb_true_iff in Hn as [_ Hn].
    cbn [all] in Hn. apply andb_true_iff in Hn as [Hc _].
    apply negb_true_iff in Hc. cbn [append] in H.
    rewrite (Hk c _ _ Hc) in H. discriminate H.
Qed.

Lemma labelled_sound (fl : flags) (name body post : string) (x : found) :
  dotall fl = true -> all nonspace name = true ->
  contains "```" (body ++ "``") = false ->
  m fl labelled_block (name ++ NL ++ body ++ "```" ++ post) [] accept
  = Some x ->
  exists g, strip g = strip body /\ x = ([(2, g); (1, name)], post).
Proof.
  intros Hd Hn Hb. unfold labelled_block.
  change (m fl (RSeq (RGroup 1 name_part) (block_tail_n 2))
            (name ++ NL ++ body ++ "```" ++ post) [] accept)
    with (m fl (RGroup 1 name_part) (name ++ NL ++ body ++ "```" ++ post) []
            (fun s' caps' => m fl (block_tail_n 2) s' caps' accept)).
  intros H. apply name_group_sound in H; trivial.
  - destruct (block_tail_n_match fl 2 body post (cap_set 1 name []) Hd Hb)
      as (g & Hg & E).
    exists g. split; [exact Hg |]. rewrite E in H. now injection H as <-.
  - intros c s caps Hc. now apply block_tail_n_solid_head.
Qed.

Lemma labelled_complete (stem ext body post : string) :
  stem <> "" -> all nonspace stem = true ->
  In (lower_str ext) extensions ->
  contains "```" (body ++ "``") = false ->
  m DOTALL_IGNORECASE labelled_block
    ((stem ++ "." ++ ext) ++ NL ++ body ++ "```" ++ post) [] accept
  <> None.
Proof.
  intros Hs Hn He Hb.
  assert (HT : forall caps,
            m DOTALL_IGNORECASE (block_tail_n 2)
              (NL ++ body ++ "```" ++ post) caps accept <> None).
  { intros caps.
    destruct (block_tail_n_match DOTALL_IGNORECASE 2 body post caps eq_refl
                Hb) as (g & _ & E).
    rewrite E. discriminate. }
  set (T := body ++ "```" ++ post) in *.
  rewrite app_assoc. unfold labelled_block, name_part. cbn [m].
  apply rep_greedy_complete;
    [|exact Hn|destruct stem; [contradiction | cbn; lia]].
  cbn [append]. rewrite cs_match_dot, Ascii.eqb_refl.
  unfold ext_alt. cbn [m]. cbn [extensions In] in He.
  destruct He as [He|[He|[He|[He|[]]]]].
  - apply orelse_l.
    rewrite (m_lits_ci _ "html" ext) by (trivial; now rewrite <- He).
    cbn [m]. apply HT.
  - apply orelse_r, orelse_l.
    rewrite (m_lits_ci _ "css" ext) by (trivial; now rewrite <- He).
    cbn [m]. apply HT.
  - apply orelse_r, orelse_r, orelse_l.
    rewrite (m_lits_ci _ "js" ext) by (trivial; now rewrite <- He).
    cbn [m]. apply HT.
  - apply orelse_r, orelse_r, orelse_r.
    rewrite (m_lits_ci _ "json" ext) by (trivial; now rewrite <- He).
    cbn [m]. apply HT.
Qed.

Lemma labelled_match (stem ext body post : string) :
  stem <> "" -> all nonspace (stem ++ "." ++ ext) = true ->
  In (lower_str ext) extensions ->
  contains "```" (body ++ "``") = false ->
  exists g, strip g = strip body
    /\ m DOTALL_IGNORECASE labelled_block
         ((stem ++ "." ++ ext) ++ NL ++ body ++ "```" ++ post) [] accept
       = Some ([(2, g); (1, stem ++ "." ++ ext)], post).
Proof.
  intros Hs Hn He Hb.
  destruct (m DOTALL_IGNORECASE labelled_block
              ((stem ++ "." ++ ext) ++ NL ++ body ++ "```" ++ post) []
              accept) as [x|] eqn:E.
  - apply labelled_sound in E as (g & Hg & ->); trivial.
    now exists g.
  - exfalso. revert E. apply labelled_complete; trivial.
    rewrite all_app in Hn. now apply andb_true_iff in Hn as [Hn _].
Qed.

(** A tag made of word characters is no file name. *)
Lemma labelled_miss_word (fl : flags) (t rest : string) :
  all isword t = true -> blank_head rest = true ->
  m fl labelled_block (t ++ rest) [] accept = None.
Proof.
  intros Ht Hr.
  destruct (m fl labelled_block (t ++ rest) [] accept) as [x|] eqn:E;
    [exfalso | reflexivity].
  unfold labelled_block, name_part in E. cbn [m] in E.
  apply (rep_greedy_solid fl CNotSpace rest eq_refl Hr) in E
    as (q1 & q2 & -> & E).
  rewrite all_app in Ht. apply andb_true_iff in Ht as [_ Ht].
  destruct q2 as [|c q2]; cbn [append] in E.
  - destruct rest as [|c rest]; [discriminate E |].
    rewrite cs_match_dot in E. cbn [blank_head] in Hr.
    destruct ("." =? c)%char eqn:Ec; [|discriminate E].
    apply Ascii.eqb_eq in Ec. subst c. discriminate Hr.
  - rewrite cs_match_dot in E. cbn [all] in Ht.
    apply andb_true_iff in Ht as [Hc _].
    destruct ("." =? c)%char eqn:Ec; [|discriminate E].
    apply Ascii.eqb_eq in Ec. subst c. discriminate Hc.
Qed.

(** *** A block with a tag *)

(** The pattern of one tag fails on a block with another. *)
Lemma tag_miss (t : string) :
  all nonspace t = true ->
  forall n rest, all nonspace n = true -> n <> t ->
  m DOTALL (lits t block_tail) (n ++ NL ++ rest) [] accept = None.
Proof.
  unfold nonspace. induction t as [|a t IH]; intros Ht n rest Hn Hne.
  - destruct n as [|c n]; [contradiction |]. cbn [all] in Hn.
    apply andb_true_iff in Hn as [Hc _]. apply negb_true_iff in Hc.
    cbn [lits append]. now apply (block_tail_n_solid_head DOTALL 1).
  - cbn [all] in Ht. apply andb_true_iff in Ht as [Ha Ht].
    apply negb_true_iff in Ha. cbn [lits m cs_match ignorecase DOTALL].
    destruct n as [|c n]; cbn [append].
    + unfold NL. cbn [append].
      destruct (a =? nl)%char eqn:E; [|reflexivity].
      apply Ascii.eqb_eq in E. subst a. discriminate Ha.
    + destruct (a =? c)%char eqn:E; [|reflexivity].
      apply Ascii.eqb_eq in E. subst c. cbn [all] in Hn.
      apply andb_true_iff in Hn as [_ Hn].
      apply IH; trivial. congruence.
Qed.

(** The generic pattern takes a tag of word characters and the body. *)
Lemma anonymous_match (t body post : string) :
  all isword t = true ->
  contains "```" (body ++ "``") = false ->
  exists g, strip g = strip body
    /\ m DOTALL anonymous_block (t ++ NL ++ body ++ "```" ++ post) [] accept
       = Some ([(1, g)], post).
Proof.
  intros Ht Hb.
  destruct (block_tail_n_match DOTALL 1 body post [] eq_refl Hb)
    as (g & Hg & E).
  exists g. split; [exact Hg |].
  unfold anonymous_block. cbn [m].
  apply rep_greedy_all; [exact E | exact Ht |].
  unfold NL. cbn [append]. intros c r [= <- _]. reflexivity.
Qed.

(** *** All the matches in a text with one block *)

Lemma findall_re_skip (fl : flags) (r : regex) (a b : string) :
  contains "```" (a ++ "``") = false ->
  findall_re fl (fence_then r) (a ++ "``" ++ b) 0
  = findall_re fl (fence_then r) ("``" ++ b) 0.
Proof.
  induction a as [|c a IH]; intros H; [reflexivity |].
  change (String c a ++ "``" ++ b) with (String c (a ++ "``" ++ b)).
  change (String c a ++ "``") with (String c (a ++ "``")) in H.
  cbn [findall_re]. rewrite match_here_fence.
  - apply IH. eapply contains_false_tail; eassumption.
  - rewrite startswith_fence_app. now apply contains_false_here.
Qed.

Lemma findall_re_drop (fl : flags) (r : regex) (a b : string) :
  findall_re fl r (a ++ b) (String.length a) = findall_re fl r b 0.
Proof. induction a as [|c a IH]; [reflexivity | exact IH]. Qed.

Lemma findall_re_one_block (fl : flags) (r : regex)
    (pre inner post : string) (caps : captures) :
  contains "```" (pre ++ "``") = false ->
  contains "```" ("``" ++ post) = false ->
  match_here fl (fence_then r) ("```" ++ inner ++ "```" ++ post)
  = Some (caps, post) ->
  findall_re fl (fence_then r) (pre ++ "```" ++ inner ++ "```" ++ post) 0
  = [caps].
Proof.
  intros Hpre Hpost Hm.
  change (pre ++ "```" ++ inner ++ "```" ++ post)
    with (pre ++ "``" ++ String backtick (inner ++ "```" ++ post)).
  rewrite findall_re_skip by exact Hpre.
  change ("``" ++ String backtick (inner ++ "```" ++ post))
    with (String backtick ("``" ++ inner ++ "```" ++ post)).
  change ("```" ++ inner ++ "```" ++ post)
    with (String backtick ("``" ++ inner ++ "```" ++ post)) in Hm.
  cbn [findall_re]. rewrite Hm. f_equal.
  replace ("``" ++ inner ++ "```" ++ post)
    with (("``" ++ inner ++ "```") ++ post)
    by (now rewrite !app_assoc).
  replace (String.length (String backtick (("``" ++ inner ++ "```") ++ post))
           - String.length post - 1)
    with (String.length ("``" ++ inner ++ "```"))
    by (cbn [String.length]; rewrite !length_app; cbn [String.length]; lia).
  rewrite findall_re_drop. apply findall_re_no_fence.
  cbn [append] in Hpost.
  do 2 (rewrite contains_cons in Hpost; apply orb_false_iff in Hpost
        as [_ Hpost]).
  exact Hpost.
Qed.

(** A tag line without backticks keeps the block clean. *)
Lemma clean_tagged (t body : string) :
  all name_char t = true ->
  contains "```" (body ++ "``") = false ->
  contains "```" ("``" ++ (t ++ NL ++ body) ++ "``") = false.
Proof.
  intros Ht Hb.
  assert (H : contains "```" ((t ++ NL ++ body) ++ "``") = false).
  { induction t as [|c t IH].
    - unfold NL. cbn [append]. now rewrite contains_fence_skip.
    - cbn [all] in Ht. apply andb_true_iff in Ht as [Hc Ht].
      unfold name_char in Hc. apply andb_true_iff in Hc as [_ Hc].
      apply negb_true_iff in Hc. rewrite Ascii.eqb_sym in Hc.
      cbn [append]. rewrite contains_fence_skip by exact Hc. now apply IH. }
  destruct t as [|c t].
  - unfold NL in *. cbn [append] in *.
    rewrite contains_fence_skip2 by reflexivity.
    now rewrite contains_fence_skip in H.
  - cbn [all] in Ht. apply andb_true_iff in Ht as [Hc Ht].
    unfold name_char in Hc. apply andb_true_iff in Hc as [_ Hc].
    apply negb_true_iff in Hc. rewrite Ascii.eqb_sym in Hc.
    cbn [append] in *. rewrite contains_fence_skip2 by exact Hc.
    now rewrite contains_fence_skip in H by exact Hc.
Qed.

End MatchFacts.
Import MatchFacts.

Module BlockFacts.
Import Parse.

Lemma compile_pattern1 :
  Re.compile pattern1 = Re.Compiled (fence_then labelled_block).
Proof. reflexivity. Qed.

Lemma compile_generic_pattern :
  Re.compile generic_pattern = Re.Compiled (fence_then anonymous_block).
Proof. reflexivity. Qed.

(** A step of the resolver whose patterns all fail. *)
Lemma guarded_miss (guard : bool) (patterns : list string)
    (response name : string) (files : dict) :
  Forall (fun p => Re.search p response Re.DOTALL = Returns None) patterns ->
  (if guard then try_patterns patterns response name files
   else Returns files) = Returns files.
Proof.
  intros H. destruct guard; [|reflexivity].
  induction H as [|p patterns Hp _ IH]; cbn [try_patterns]; [reflexivity |].
  rewrite Hp. cbn [bind]. exact IH.
Qed.

Lemma inner_assoc (n body post : string) :
  (n ++ NL ++ body) ++ "```" ++ post = n ++ NL ++ body ++ "```" ++ post.
Proof. now rewrite !app_assoc. Qed.

Section OneBlock.

Variables n pre body post : string.
Hypothesis n_name : all name_char n = true.
Hypothesis n_tag : ~ In n language_tags.
Hypothesis block : one_block pre body post.

Let response : string := pre ++ "```" ++ (n ++ NL ++ body) ++ "```" ++ post.

Lemma tag_pattern_miss (t : string) :
  all nonspace t = true -> In t language_tags ->
  Re.compile ("```" ++ t ++ "\s*\n(.*?)```")
  = Re.Compiled (fence_then (lits t block_tail)) ->
  Re.search ("```" ++ t ++ "\s*\n(.*?)```") response Re.DOTALL
  = Returns None.
Proof.
  intros Ht Hin Hc. destruct block as [Hpre Hb Hpost].
  apply (search_single _ (lits t block_tail)); trivial.
  - clear. induction t as [|c t IH]; [reflexivity |]. cbn [lits needs_fence].
    rewrite IH. apply orb_true_r.
  - now apply clean_tagged.
  - rewrite inner_assoc. apply tag_miss; trivial.
    + now apply name_char_nonspace.
    + intros ->. contradiction.
Qed.

Lemma html_patterns_miss :
  Forall (fun p => Re.search p response Re.DOTALL = Returns None)
    html_patterns.
Proof.
  repeat constructor.
  - apply (tag_pattern_miss "html"); [reflexivity | cbn; tauto | reflexivity].
  - apply (tag_pattern_miss "HTML"); [reflexivity | cbn; tauto | reflexivity].
  - apply (tag_pattern_miss "htm"); [reflexivity | cbn; tauto | reflexivity].
Qed.

Lemma css_patterns_miss :
  Forall (fun p => Re.search p response Re.DOTALL = Returns None)
    css_patterns.
Proof.
  repeat constructor.
  - apply (tag_pattern_miss "css"); [reflexivity | cbn; tauto | reflexivity].
  - apply (tag_pattern_miss "CSS"); [reflexivity | cbn; tauto | reflexivity].
Qed.

Lemma js_patterns_miss :
  Forall (fun p => Re.search p response Re.DOTALL = Returns None)
    js_patterns.
Proof.
  repeat constructor.
  - apply (tag_pattern_miss "javascript");
      [reflexivity | cbn; tauto | reflexivity].
  - apply (tag_pattern_miss "js"); [reflexivity | cbn; tauto | reflexivity].
  - apply (tag_pattern_miss "JavaScript");
      [reflexivity | cbn; tauto | reflexivity].
  - apply (tag_pattern_miss "JS"); [reflexivity | cbn; tauto | reflexivity].
Qed.

(** With no tag pattern matching, the resolver goes from the files that
    name themselves straight to the fallbacks. *)
Lemma parse_without_tags (labelled : list (string * string)) :
  Re.findall2 pattern1 response Re.DOTALL_IGNORECASE = Returns labelled ->
  _parse_web_files response
  = (files <- generic_fallback response (store_matches labelled []) ;;
     Returns (ultimate_fallback response files)).
Proof.
  intros E. unfold _parse_web_files. rewrite E. cbn [bind].
  rewrite (guarded_miss _ _ _ _ _ html_patterns_miss). cbn [bind].
  rewrite (guarded_miss _ _ _ _ _ css_patterns_miss). cbn [bind].
  rewrite (guarded_miss _ _ _ _ _ js_patterns_miss). cbn [bind].
  reflexivity.
Qed.

End OneBlock.

End BlockFacts.
Import BlockFacts.

(** X3.  A response whose only fenced block is labelled with a file
    name (a stem that is not empty, a dot and one of the extensions
    html, css, js and json in any case, without blanks or backticks)
    and has a body that is not blank, gives exactly that file, under the
    name as it is written and with the body stripped: no index.html is
    made up beside it. *)
Theorem named_block (stem ext pre body post : string) :
  stem <> "" ->
  all name_char (stem ++ "." ++ ext) = true ->
  In (lower_str ext) extensions ->
  one_block pre body post ->
  Parse._parse_web_files
    (pre ++ "```" ++ (stem ++ "." ++ ext) ++ NL ++ body ++ "```" ++ post)
  = Returns [(stem ++ "." ++ ext, strip body)].
Proof.
  intros Hs Hn He Hb. set (name := stem ++ "." ++ ext) in *.
  assert (Hns : all nonspace name = true) by now apply name_char_nonspace.
  assert (Hdot : contains "." name = true).
  { unfold name. apply contains_app_l. reflexivity. }
  assert (Ht : ~ In name language_tags).
  { intros Hin. cbn in Hin.
    repeat (destruct Hin as [Hin|Hin];
            [rewrite <- Hin in Hdot; discriminate Hdot |]).
    contradiction. }
  destruct (labelled_match stem ext body post Hs Hns He (clean_body _ _ _ Hb))
    as (g & Hg & Hm). fold name in Hm.
  rewrite <- inner_assoc in Hm |- *.
  rewrite (parse_without_tags name pre body post Hn Ht Hb [(name, g)]).
  - cbn [Parse.store_matches fold_left fst snd dict_set].
    rewrite (strip_nonspace name Hns), Hg. reflexivity.
  - unfold Re.findall2. rewrite compile_pattern1.
    rewrite (findall_re_one_block _ _ _ _ _ [(2, g); (1, name)]).
    + reflexivity.
    + apply (clean_pre _ _ _ Hb).
    + apply (clean_post _ _ _ Hb).
    + unfold Re.match_here. fold accept. now rewrite m_fence_some.
Qed.

Lemma named_block_witness :
  ("app" <> ""
   /\ all name_char ("app" ++ "." ++ "JS") = true
   /\ In (lower_str "JS") extensions
   /\ one_block "Here you go: " ("let n = 1;" ++ NL) (NL ++ "Enjoy!"))
  /\ Parse._parse_web_files
       ("Here you go: ```app.JS" ++ NL ++ "let n = 1;" ++ NL ++ "```" ++ NL
        ++ "Enjoy!")
     = Returns [("app.JS", "let n = 1;")].
Proof.
  assert (H1 : "app" <> "") by discriminate.
  assert (H2 : all name_char ("app" ++ "." ++ "JS") = true) by reflexivity.
  assert (H3 : In (lower_str "JS") extensions) by (cbn; tauto).
  assert (H4 : one_block "Here you go: " ("let n = 1;" ++ NL)
                 (NL ++ "Enjoy!")) by (constructor; reflexivity).
  split; [now repeat split |].
  exact (named_block "app" "JS" "Here you go: " ("let n = 1;" ++ NL)
           (NL ++ "Enjoy!") H1 H2 H3 H4).
Defined.

(** X4.  A response whose only fenced block carries a tag of word
    characters that is none of the nine spellings step 2 looks for
    (html, HTML, htm, css, CSS, javascript, js, JavaScript, JS), so also
    Css, python or no tag at all, with a body that is not blank, gives
    index.html alone: the stripped body itself if it looks like a page,
    else the stripped body inside the script wrapper. *)
Theorem unrecognised_tag_block (tag pre body post : string) :
  all isword tag = true ->
  ~ In tag language_tags ->
  one_block pre body post ->
  Parse._parse_web_files
    (pre ++ "```" ++ tag ++ NL ++ body ++ "```" ++ post)
  = Returns
      [("index.html",
        if Parse.looks_like_html (strip body) then strip body
        else Parse.script_wrapper (strip body))].
Proof.
  intros Hw Ht Hb.
  pose proof (word_name_char tag Hw) as Hn.
  destruct (anonymous_match tag body post Hw (clean_body _ _ _ Hb))
    as (g & Hg & Hm).
  rewrite <- inner_assoc in Hm |- *.
  rewrite (parse_without_tags tag pre body post Hn Ht Hb []).
  - cbn [Parse.store_matches fold_left]. unfold Parse.generic_fallback.
    cbn [dict_is_empty]. unfold Re.findall1.
    rewrite compile_generic_pattern.
    rewrite (findall_re_one_block _ _ _ _ _ [(1, g)]).
    + cbn [map Re.group Re.cap_get fst Nat.eqb bind]. rewrite Hg.
      destruct (Parse.looks_like_html (strip body)); reflexivity.
    + apply (clean_pre _ _ _ Hb).
    + apply (clean_post _ _ _ Hb).
    + unfold Re.match_here. fold accept. now rewrite m_fence_some.
  - apply findall2_single with (r := labelled_block);
      [reflexivity | reflexivity | apply (clean_pre _ _ _ Hb)
      | apply clean_tagged; [exact Hn | apply (clean_body _ _ _ Hb)]
      | apply (clean_post _ _ _ Hb) |].
    rewrite inner_assoc. now apply labelled_miss_word.
Qed.

Lemma unrecognised_tag_block_witness :
  (all isword "Css" = true /\ ~ In "Css" language_tags
   /\ one_block "" ("body{}" ++ NL) "")
  /\ Parse._parse_web_files ("```Css" ++ NL ++ "body{}" ++ NL ++ "```")
     = Returns [("index.html", Parse.script_wrapper "body{}")].
Proof.
  assert (H1 : all isword "Css" = true) by reflexivity.
  assert (H2 : ~ In "Css" language_tags).
  { cbn. intros H. repeat (destruct H as [H|H]; [discriminate H |]).
    exact H. }
  assert (H3 : one_block "" ("body{}" ++ NL) "") by (constructor; reflexivity).
  split; [now repeat split |].
  exact (unrecognised_tag_block "Css" "" ("body{}" ++ NL) "" H1 H2 H3).
Defined.

Module UnfencedFacts.
Import Parse.

Lemma parse_no_fence_eq (response : string) :
  contains "```" response = false ->
  _parse_web_files response = Returns (ultimate_fallback response []).
Proof.
  intros H. unfold _parse_web_files.
  rewrite (findall2_no_fence _ _ _ pattern1_fence H). cbn [bind].
  cbn [store_matches fold_left dict_mem dict_get negb andb].
  rewrite (try_patterns_no_fence _ _ _ _ html_patterns_fence H).
  cbn [bind dict_mem dict_get negb andb].
  rewrite (try_patterns_no_fence _ _ _ _ css_patterns_fence H).
  cbn [bind dict_mem dict_get negb andb].
  rewrite (try_patterns_no_fence _ _ _ _ js_patterns_fence H).
  cbn [bind].
  unfold generic_fallback. cbn [dict_is_empty].
  rewrite (findall1_no_fence _ _ _ generic_pattern_fence H). reflexivity.
Qed.

Lemma find_from_here (sub s : string) (i : nat) :
  startswith s sub = true -> find_from sub s i = Some i.
Proof. intros H. destruct s; cbn [find_from]; now rewrite H. Qed.

(** A text that does not hold the first character of [sub] is passed
    over by the search for [sub]. *)
Lemma find_from_app (a : ascii) (sub junk rest : string) (i : nat) :
  contains (String a "") junk = false ->
  find_from (String a sub) (junk ++ rest) i
  = find_from (String a sub) rest (i + String.length junk).
Proof.
  revert i. induction junk as [|c junk IH]; intros i H.
  - cbn [append String.length]. now rewrite Nat.add_0_r.
  - rewrite contains_cons in H. apply orb_false_iff in H as [Hc H].
    cbn [startswith] in Hc. rewrite andb_true_r in Hc.
    cbn [append find_from startswith String.length]. rewrite Hc.
    cbn [andb]. rewrite (IH (S i) H). f_equal. lia.
Qed.

Lemma contains_app_junk (a : ascii) (sub junk rest : string) :
  contains (String a "") junk = false ->
  contains (String a sub) (junk ++ rest) = contains (String a sub) rest.
Proof.
  intros H. unfold contains. rewrite (find_from_app a sub junk rest 0 H).
  destruct (find_from (String a sub) rest (0 + String.length junk)) eqn:E1,
    (find_from (String a sub) rest 0) eqn:E0; try reflexivity.
  - now rewrite (find_from_none _ _ _ (0 + String.length junk) E0) in E1.
  - now rewrite (find_from_none _ _ _ 0 E1) in E0.
Qed.

Lemma find_app_junk (a : ascii) (sub junk rest : string) :
  contains (String a "") junk = false ->
  startswith rest (String a sub) = true ->
  find (junk ++ rest) (String a sub) = Z.of_nat (String.length junk).
Proof.
  intros H Hs. unfold find. rewrite (find_from_app a sub junk rest 0 H).
  now rewrite (find_from_here _ _ _ Hs).
Qed.

Lemma drop_app (a b : string) : drop (String.length a) (a ++ b) = b.
Proof. induction a as [|c a IH]; [now destruct b | exact IH]. Qed.

Lemma slice_from_app (a b : string) :
  slice_from (a ++ b) (Z.of_nat (String.length a)) = b.
Proof.
  unfold slice_from.
  destruct (Z.of_nat (String.length a) <? 0)%Z eqn:E;
    [apply Z.ltb_lt in E; lia |].
  now rewrite Nat2Z.id, drop_app.
Qed.

End UnfencedFacts.
Import UnfencedFacts.

(** X5.  A response without a fence that goes on, after a start
    without [<], with [<!DOCTYPE], or with [<html] when it holds no
    [<!DOCTYPE], gives index.html alone, with the response from there
    on, stripped: what comes before the markup is dropped. *)
Theorem unfenced_markup (junk rest : string) :
  contains "```" (junk ++ rest) = false ->
  contains "<" junk = false ->
  startswith rest "<!DOCTYPE" = true
  \/ (startswith rest "<html" = true /\ contains "<!DOCTYPE" rest = false) ->
  Parse._parse_web_files (junk ++ rest)
  = Returns [("index.html", strip rest)].
Proof.
  intros Hf Hj Hr. rewrite (parse_no_fence_eq _ Hf).
  unfold Parse.ultimate_fallback. cbn [dict_is_empty].
  destruct Hr as [Hd|[Hh Hd]].
  - rewrite (contains_app_l _ junk _ (startswith_contains _ _ Hd)).
    cbn [orb]. cbv zeta.
    rewrite (find_app_junk "<" "!DOCTYPE" junk rest Hj Hd).
    assert (E : (Z.of_nat (String.length junk) =? -1)%Z = false)
      by (apply Z.eqb_neq; lia).
    rewrite !E. cbn [negb]. now rewrite slice_from_app.
  - rewrite (contains_app_junk "<" "!DOCTYPE" junk rest Hj), Hd.
    rewrite (contains_app_l _ junk _ (startswith_contains _ _ Hh)).
    cbn [orb]. rewrite (not_contains_find "<!DOCTYPE" (junk ++ rest))
      by (now rewrite (contains_app_junk "<" "!DOCTYPE" junk rest Hj)).
    cbv zeta. cbn [Z.eqb Pos.eqb].
    rewrite (find_app_junk "<" "html" junk rest Hj Hh).
    assert (E : (Z.of_nat (String.length junk) =? -1)%Z = false)
      by (apply Z.eqb_neq; lia).
    rewrite !E. cbn [negb]. now rewrite slice_from_app.
Qed.

Lemma unfenced_markup_witness :
  (contains "```" ("Here is your page: " ++ "<html><p>Hi</p></html>  ")
   = false
   /\ contains "<" "Here is your page: " = false
   /\ (startswith "<html><p>Hi</p></html>  " "<!DOCTYPE" = true
       \/ (startswith "<html><p>Hi</p></html>  " "<html" = true
           /\ contains "<!DOCTYPE" "<html><p>Hi</p></html>  " = false)))
  /\ Parse._parse_web_files "Here is your page: <html><p>Hi</p></html>  "
     = Returns [("index.html", "<html><p>Hi</p></html>")].
Proof.
  assert (H1 : contains "```"
                 ("Here is your page: " ++ "<html><p>Hi</p></html>  ")
               = false) by reflexivity.
  assert (H2 : contains "<" "Here is your page: " = false) by reflexivity.
  assert (H3 : startswith "<html><p>Hi</p></html>  " "<!DOCTYPE" = true
               \/ (startswith "<html><p>Hi</p></html>  " "<html" = true
                   /\ contains "<!DOCTYPE" "<html><p>Hi</p></html>  "
                      = false)) by (right; split; reflexivity).
  split; [now repeat split |].
  exact (unfenced_markup "Here is your page: " "<html><p>Hi</p></html>  "
           H1 H2 H3).
Defined.

(** X6.  A response without a fence, without [<!DOCTYPE] and without
    [<html] gives index.html alone: the placeholder page around the
    first 2000 characters of the response. *)
Theorem unfenced_text (response : string) :
  contains "```" response = false ->
  contains "<!DOCTYPE" response = false ->
  contains "<html" response = false ->
  Parse._parse_web_files response
  = Returns [("index.html", Parse.placeholder_page (take 2000 response))].
Proof.
  intros Hf Hd Hh. rewrite (parse_no_fence_eq _ Hf).
  unfold Parse.ultimate_fallback. cbn [dict_is_empty].
  now rewrite Hd, Hh.
Qed.

Lemma unfenced_text_witness :
  (contains "```" "I cannot help with that." = false
   /\ contains "<!DOCTYPE" "I cannot help with that." = false
   /\ contains "<html" "I cannot help with that." = false)
  /\ Parse._parse_web_files "I cannot help with that."
     = Returns [("index.html",
                 Parse.placeholder_page "I cannot help with that.")].
Proof.
  assert (H1 : contains "```" "I cannot help with that." = false)
    by reflexivity.
  assert (H2 : contains "<!DOCTYPE" "I cannot help with that." = false)
    by reflexivity.
  assert (H3 : contains "<html" "I cannot help with that." = false)
    by reflexivity.
  split; [now repeat split |].
  exact (unfenced_text "I cannot help with that." H1 H2 H3).
Defined.

Module ExtractFacts.
Import Re.

Lemma needs_fence_lits (l : string) (r : regex) :
  needs_fence r = true -> needs_fence (lits l r) = true.
Proof.
  intros H. induction l as [|c l IH]; [exact H |]. cbn [lits needs_fence].
  rewrite IH. apply orb_true_r.
Qed.

Lemma contains_false_app (sub a b : string) :
  contains sub (a ++ b) = false -> contains sub b = false.
Proof.
  intros H. destruct (contains sub b) eqn:E; [|reflexivity].
  now rewrite (contains_app_l sub a b E) in H.
Qed.

Lemma ext_tail_unfold (fl : flags) (s : string) (caps : captures)
    (k : string -> captures -> option found) :
  m fl ext_tail s caps k
  = rep_greedy fl (CChar nl) 0 (Some 1) s
      (fun s' => m fl (RSeq lazy_group (fence_then REmpty)) s' caps k).
Proof. reflexivity. Qed.

(** The text after an optional newline, up to the fence. *)
Lemma ext_tail_match (fl : flags) (w post : string) :
  dotall fl = true ->
  contains "```" (w ++ "``") = false ->
  exists g, strip g = strip w
    /\ m fl ext_tail (w ++ "```" ++ post) [] accept = Some ([(1, g)], post).
Proof.
  intros Hd Hw. rewrite ext_tail_unfold.
  destruct w as [|c w].
  - exists "". split; [reflexivity |].
    pose proof (lazy_group_match fl "" post [] Hd Hw) as E.
    cbn [append] in E |- *. cbn [rep_greedy Nat.eqb].
    rewrite cs_match_nl. cbn [andb]. exact E.
  - change (String c w ++ "```" ++ post)
      with (String c (w ++ "```" ++ post)).
    cbn [rep_greedy Nat.eqb can_more option_map pred].
    rewrite cs_match_nl. destruct (nl =? c)%char eqn:E; cbn [andb].
    + apply Ascii.eqb_eq in E. subst c.
      change (String nl w ++ "``") with (String nl (w ++ "``")) in Hw.
      pose proof (contains_false_tail _ _ _ Hw) as Hw'.
      exists w. split; [reflexivity |].
      assert (Hstop : rep_greedy fl (CChar nl) 0 (Some 0)
                        (w ++ "```" ++ post)
                        (fun s' =>
                           m fl (RSeq lazy_group (fence_then REmpty)) s' []
                             accept)
                      = Some ([(1, w)], post)).
      { etransitivity; [|exact (lazy_group_match fl w post [] Hd Hw')].
        destruct (w ++ "```" ++ post); cbn [rep_greedy Nat.eqb can_more];
          [reflexivity |].
        now rewrite andb_false_r. }
      now rewrite Hstop.
    + exists (String c w). split; [reflexivity |].
      exact (lazy_group_match fl (String c w) post [] Hd Hw).
Qed.

(** Literals read without regard to case take a prefix of the text or
    fail. *)
Lemma m_lits_split (fl : flags) (l : string) (r : regex) :
  ignorecase fl = true ->
  forall s caps k,
    (tagged_with l s = true
     /\ m fl (lits l r) s caps k
        = m fl r (drop (String.length l) s) caps k)
    \/ (tagged_with l s = false /\ m fl (lits l r) s caps k = None).
Proof.
  intros Hi. unfold tagged_with.
  induction l as [|a l IH]; intros s caps k.
  - left. split; [reflexivity | now destruct s].
  - destruct s as [|c s]; [right; split; reflexivity |].
    cbn [lits lower_str startswith m cs_match String.length drop].
    rewrite Hi. destruct (lower a =? lower c)%char; cbn [andb].
    + apply IH.
    + right. split; reflexivity.
Qed.

Lemma drop_tagged (l : string) :
  forall s t, tagged_with l s = true ->
  drop (String.length l) (s ++ t) = drop (String.length l) s ++ t.
Proof.
  unfold tagged_with. induction l as [|a l IH]; intros s t H.
  - now destruct s.
  - destruct s as [|c s]; [discriminate H |].
    cbn [lower_str startswith] in H. apply andb_true_iff in H as [_ H].
    cbn [String.length append drop]. now apply IH.
Qed.

Lemma drop_suffix (n : nat) (s : string) : exists p, s = p ++ drop n s.
Proof.
  revert s. induction n as [|n IH]; intros s.
  - exists "". now destruct s.
  - destruct s as [|c s]; [now exists "" |].
    destruct (IH s) as [p E]. exists (String c p). cbn [append drop].
    now rewrite <- E.
Qed.

Lemma lower_backtick (a : ascii) :
  (lower a =? lower backtick)%char = (a =? backtick)%char.
Proof. each_char a; vm_compute; reflexivity. Qed.

(** Whether a text opens with a language name is decided before the
    closing fence. *)
Lemma tagged_with_app (l : string) :
  all language_char l = true ->
  forall s u, tagged_with l (s ++ String backtick u) = tagged_with l s.
Proof.
  unfold tagged_with. induction l as [|a l IH]; intros Hl s u;
    [reflexivity |].
  cbn [all] in Hl. apply andb_true_iff in Hl as [Ha Hl].
  unfold language_char in Ha. apply andb_true_iff in Ha as [_ Ha].
  apply negb_true_iff in Ha.
  destruct s as [|c s]; cbn [append lower_str startswith].
  - now rewrite lower_backtick, Ha.
  - now rewrite (IH Hl).
Qed.

Lemma compile_generic_block :
  compile "```\n?(.*?)```" = Compiled (fence_then ext_tail).
Proof. reflexivity. Qed.

End ExtractFacts.
Import ExtractFacts.

(** X7.  On a response with one fenced block, [_extract_code] called
    with a language name of letters, digits and other characters a
    pattern reads literally returns the stripped inside of the block,
    less the language name when the block opens with it in any case.
    The name is cut even when a longer tag continues it: with the
    language python a block tagged Python3 gives code that begins with
    3. *)
Theorem extract_single_block (language pre inner post : string) :
  all language_char language = true ->
  fenced_once pre inner post ->
  Llm._extract_code (pre ++ "```" ++ inner ++ "```" ++ post) language
  = Returns
      {| Llm.code :=
           strip (if tagged_with language inner
                  then drop (String.length language) inner else inner);
         Llm.language := language;
         Llm.raw_response := pre ++ "```" ++ inner ++ "```" ++ post |}.
Proof.
  intros Hc [Hpre Hin Hpost].
  assert (Hl : all plain language = true).
  { revert Hc. apply all_impl. unfold language_char. intros c H.
    now apply andb_true_iff in H as [H _]. }
  assert (Hw : contains "```" (inner ++ "``") = false)
    by exact (contains_false_app _ "``" _ Hin).
  assert (Ht : tagged_with language (inner ++ "```" ++ post)
               = tagged_with language inner).
  { exact (tagged_with_app language Hc inner ("``" ++ post)). }
  unfold Llm._extract_code, Re.search.
  rewrite (compile_language_pattern language Hl).
  rewrite search_re_one_block;
    [|apply needs_fence_lits; reflexivity|assumption..].
  unfold Re.match_here. fold accept. rewrite m_fence_some.
  destruct (m_lits_split Re.DOTALL_IGNORECASE language ext_tail eq_refl
              (inner ++ "```" ++ post) [] accept) as [[Ht' ->]|[Ht' ->]];
    rewrite Ht in Ht'; rewrite Ht'.
  - rewrite (drop_tagged _ _ _ Ht').
    destruct (drop_suffix (String.length language) inner) as [p Ep].
    assert (Hd : contains "```" (drop (String.length language) inner ++ "``")
                 = false).
    { rewrite Ep, app_assoc in Hw. exact (contains_false_app _ _ _ Hw). }
    destruct (ext_tail_match Re.DOTALL_IGNORECASE _ post eq_refl Hd)
      as (g & Hg & ->).
    cbn [bind Re.group Re.cap_get fst Nat.eqb]. now rewrite Hg.
  - cbn [bind]. rewrite compile_generic_block.
    rewrite search_re_one_block; [|reflexivity|assumption..].
    unfold Re.match_here. fold accept. rewrite m_fence_some.
    destruct (ext_tail_match Re.DOTALL inner post eq_refl Hw)
      as (g & Hg & ->).
    cbn [bind Re.group Re.cap_get fst Nat.eqb]. now rewrite Hg.
Qed.

Lemma extract_single_block_witness :
  (all language_char "python" = true
   /\ fenced_once "Try: " ("Python3" ++ NL ++ "print(1)" ++ NL) "")
  /\ Llm._extract_code
       ("Try: ```Python3" ++ NL ++ "print(1)" ++ NL ++ "```") "python"
     = Returns
         {| Llm.code := "3" ++ NL ++ "print(1)";
            Llm.language := "python";
            Llm.raw_response :=
              "Try: ```Python3" ++ NL ++ "print(1)" ++ NL ++ "```" |}.
Proof.
  assert (H1 : all language_char "python" = true) by reflexivity.
  assert (H2 : fenced_once "Try: " ("Python3" ++ NL ++ "print(1)" ++ NL) "")
    by (constructor; reflexivity).
  split; [now split |].
  exact (extract_single_block "python" "Try: "
           ("Python3" ++ NL ++ "print(1)" ++ NL) "" H1 H2).
Defined.

Module SteadyFacts.
Import Model.

Lemma steady_ret (ok : call -> bool) (R : state -> state -> Prop)
    (S : steady ok R) {A} (a : A) : keeps R (ret a).
Proof. intros s. apply s_refl. Qed.

Lemma steady_raise (ok : call -> bool) (R : state -> state -> Prop)
    (S : steady ok R) {A} (e : exn) : keeps R (@raise A e).
Proof. intros s. apply s_refl. Qed.

Lemma steady_lift (ok : call -> bool) (R : state -> state -> Prop)
    (S : steady ok R) {A} (o : outcome A) : keeps R (lift o).
Proof. intros s. apply s_refl. Qed.

Lemma steady_get (ok : call -> bool) (R : state -> state -> Prop)
    (S : steady ok R) : keeps R get.
Proof. intros s. apply s_refl. Qed.

Lemma steady_modify (ok : call -> bool) (R : state -> state -> Prop)
    (S : steady ok R) (f : state -> state) :
  (forall s, R s (f s)) -> keeps R (modify f).
Proof. intros H s. apply H. Qed.

Lemma steady_bind (ok : call -> bool) (R : state -> state -> Prop)
    (S : steady ok R) {A B} (c : M A) (f : A -> M B) :
  keeps R c -> (forall a, keeps R (f a)) -> keeps R (bindM c f).
Proof.
  intros Hc Hf s. unfold bindM. specialize (Hc s).
  destruct (c s) as [[a|e|] s1]; cbn [snd] in *; trivial.
  eapply s_trans; [exact Hc | apply Hf].
Qed.

Lemma steady_try (ok : call -> bool) (R : state -> state -> Prop)
    (S : steady ok R) {A} (body : M A) (handler : exn -> M A) :
  keeps R body -> (forall e, keeps R (handler e)) ->
  keeps R (try_except body handler).
Proof.
  intros Hb Hh s. unfold try_except. specialize (Hb s).
  destruct (body s) as [[a|e|] s1]; cbn [snd] in *; trivial.
  eapply s_trans; [exact Hb | apply Hh].
Qed.

Lemma steady_for_each (ok : call -> bool) (R : state -> state -> Prop)
    (S : steady ok R) {A} (xs : list A) (body : A -> M unit) :
  (forall x, keeps R (body x)) -> keeps R (for_each xs body).
Proof.
  intros H. induction xs as [|x xs IH]; cbn [for_each].
  - now apply (steady_ret ok).
  - apply (steady_bind ok); [exact S | apply H | intros _; exact IH].
Qed.

Lemma steady_fold_each (ok : call -> bool) (R : state -> state -> Prop)
    (S : steady ok R) {A B} (xs : list B) (body : A -> B -> M A) :
  (forall acc x, keeps R (body acc x)) ->
  forall acc, keeps R (fold_each xs acc body).
Proof.
  intros H. induction xs as [|x xs IH]; intros acc; cbn [fold_each].
  - now apply (steady_ret ok).
  - apply (steady_bind ok); [exact S | apply H | intros acc'; apply IH].
Qed.

Lemma steady_perform (ok : call -> bool) (R : state -> state -> Prop)
    (S : steady ok R) (E : env) (c : call) :
  ok c = true -> keeps R (perform E c).
Proof.
  intros H s. unfold perform.
  destruct (raised _); cbn [snd]; now apply s_call.
Qed.

(** What follows a statement that has brought the state from [s0]. *)
Lemma from_bind (ok : call -> bool) (R : state -> state -> Prop)
    (S : steady ok R) {A B} (c : M A) (f : A -> M B) (s0 s : state) :
  R s0 (snd (c s)) -> (forall a, keeps R (f a)) ->
  R s0 (snd (bindM c f s)).
Proof.
  intros Hc Hf. unfold bindM.
  destruct (c s) as [[a|e|] s1]; cbn [snd] in *; trivial.
  eapply s_trans; [exact Hc | apply Hf].
Qed.

Lemma from_try (ok : call -> bool) (R : state -> state -> Prop)
    (S : steady ok R) {A} (body : M A) (handler : exn -> M A) (s0 s : state) :
  R s0 (snd (body s)) -> (forall e, keeps R (handler e)) ->
  R s0 (snd (try_except body handler s)).
Proof.
  intros Hb Hh. unfold try_except.
  destruct (body s) as [[a|e|] s1]; cbn [snd] in *; trivial.
  eapply s_trans; [exact Hb | apply Hh].
Qed.

(** A call that [ok] does not let through, then statements that [R]
    holds across. *)
Lemma from_perform (ok : call -> bool) (R : state -> state -> Prop)
    (S : steady ok R) {A} (E : env) (c : call) (f : reply -> M A) (s : state) :
  (forall a, keeps R (f a)) ->
  R (set_trace (c :: trace s) s) (snd (bindM (perform E c) f s)).
Proof.
  intros Hf. unfold bindM, perform.
  destruct (raised _); cbn [snd]; [apply s_refl | apply Hf].
Qed.

Ltac steady_with ok known :=
  repeat first
    [ known
    | apply (steady_ret ok); exact _ | apply (steady_raise ok); exact _
    | apply (steady_lift ok); exact _ | apply (steady_get ok); exact _
    | apply (steady_perform ok); [exact _ | reflexivity]
    | apply (steady_modify ok); [exact _ |]; intros ?;
      first [ apply (s_running (ok := ok)) | apply (s_preview (ok := ok))
            | apply (s_files (ok := ok)) | apply (s_uploaded (ok := ok))
            | apply (s_sent (ok := ok)) | apply q_history
            | apply q_any_sandbox ]
    | apply (steady_bind ok); [exact _ | | intros ?]
    | apply (steady_try ok); [exact _ | | intros ?]
    | apply (steady_for_each ok); [exact _ | intros ?]
    | apply (steady_fold_each ok); [exact _ | intros ? ?]
    | match goal with
      | |- keeps _ (match ?x with _ => _ end) => destruct x
      | |- keeps _ (send_preview _) => unfold send_preview
      | |- keeps _ (send_json _) => unfold send_json
      | |- keeps _ (store_file _ _) => unfold store_file
      | |- keeps _ (append_history _) => unfold append_history
      | |- keeps _ (update_code_turn _ _ _) => unfold update_code_turn
      | |- keeps _ (rest_update_file _ _ _) => unfold rest_update_file
      | |- keeps _ (update_file _ _ _) => unfold update_file
      | |- keeps _ (deploy_and_preview _) => unfold deploy_and_preview
      | |- keeps _ (start_preview_server _) => unfold start_preview_server
      | |- keeps _ (get_preview_url _) => unfold get_preview_url
      | |- keeps _ (manager_get_preview_url _ _) =>
          unfold manager_get_preview_url
      | |- keeps _ (the_manager) => unfold the_manager
      | |- keeps _ (execute_command _ _) => unfold execute_command
      | |- keeps _ (web_ensure_sandbox _) => unfold web_ensure_sandbox
      | |- keeps _ (_setup_workspace _) => unfold _setup_workspace
      | |- keeps _ (upload_file _ _ _) =>
          unfold upload_file, record_upload
      | |- keeps _ (get_project_files) => unfold get_project_files
      end ].

(** *** Calls to the LLM *)

#[export] Instance llm_same_steady : steady not_llm llm_same.
Proof.
  constructor; unfold llm_same, llm_calls; intros; cbn; try congruence.
  unfold not_llm in *. destruct (is_llm c); [discriminate | reflexivity].
Qed.

#[export] Instance llm_same_history : ignores_history llm_same.
Proof. constructor; reflexivity. Qed.

#[export] Instance llm_same_sandbox : ignores_sandbox llm_same.
Proof. constructor; reflexivity. Qed.

Ltac no_llm :=
  steady_with not_llm
    ltac:(idtac;
          match goal with
          | |- keeps _ (need_sandbox _) =>
              unfold need_sandbox, create_sandbox
          | |- keeps _ (_ensure_sandbox _) =>
              unfold _ensure_sandbox, create_sandbox
          end).

Lemma llm_same_deploy (E : env) : keeps llm_same (deploy_and_preview E).
Proof. no_llm. Qed.

Lemma llm_same_ensure (E : env) : keeps llm_same (web_ensure_sandbox E).
Proof. no_llm. Qed.

Lemma llm_same_upload (E : env) (path content : string) :
  keeps llm_same (upload_file E path content).
Proof. no_llm. Qed.

Lemma llm_same_update (E : env) (path content : string) :
  keeps llm_same (update_file E path content).
Proof. no_llm. Qed.

Lemma from_get (R : state -> state -> Prop) {A} (f : state -> M A)
    (s0 s : state) :
  R s0 (snd (f s s)) -> R s0 (snd (bindM get f s)).
Proof. trivial. Qed.

Lemma llm_pushed (c : call) (s s' : state) :
  is_llm c = true -> llm_same (set_trace (c :: trace s) s) s' ->
  llm_calls s' = llm_calls s + 1.
Proof.
  unfold llm_same, llm_calls. cbn [trace set_trace filter].
  intros -> ->. cbn [List.length]. lia.
Qed.

Lemma llm_calls_serve (E : env) (r : request) (s : state) :
  llm_calls (snd (serve E r s))
  = llm_calls s + (if asks_llm r then 1 else 0).
Proof.
  destruct r as [prompt|path content|prompt|path content|];
    cbn [serve asks_llm]; rewrite ?Nat.add_0_r.
  - eapply llm_pushed; cycle 1.
    { unfold chat_turn.
      apply (from_try not_llm); [exact _ | | intros e; no_llm].
      unfold chat_turn_body.
      apply (from_bind not_llm); [exact _ | | intros; no_llm].
      unfold stream_generate. apply from_get.
      apply (from_bind not_llm);
        [exact _ | | intros; no_llm; apply llm_same_ensure].
      unfold chat_stream.
      apply (from_perform not_llm); [exact _ |]. intros; no_llm. }
    reflexivity.
  - change (llm_same s (snd (update_code_turn E path content s))).
    revert s. change (keeps llm_same (update_code_turn E path content)).
    no_llm.
  - eapply llm_pushed; cycle 1.
    { apply (from_bind not_llm); [exact _ | | intros; no_llm].
      unfold rest_chat.
      apply (from_bind not_llm); [exact _ | | intros; no_llm].
      unfold generate_web_code. apply from_get.
      apply (from_bind not_llm);
        [exact _ | | intros; no_llm; apply llm_same_ensure].
      unfold chat.
      apply (from_perform not_llm); [exact _ |]. intros; no_llm. }
    reflexivity.
  - change (llm_same s (snd (rest_update_file E path content s))).
    revert s. change (keeps llm_same (rest_update_file E path content)).
    no_llm.
  - change (llm_same s (snd ((get_preview_url E >> ret tt) s))).
    revert s. change (keeps llm_same (get_preview_url E >> ret tt)).
    no_llm.
Qed.

(** *** The sandbox of a session *)

#[export] Instance sandbox_kept_steady : steady not_lifecycle sandbox_kept.
Proof.
  constructor; unfold sandbox_kept, lifecycle; intros; cbn; auto.
  - destruct (H H1) as [H2 H3]. destruct (H0 H2) as [H4 H5].
    split; [exact H4 | congruence].
  - unfold not_lifecycle in *. destruct (is_lifecycle c);
      [discriminate | now split].
Qed.

#[export] Instance sandbox_kept_history : ignores_history sandbox_kept.
Proof. constructor; unfold sandbox_kept, lifecycle; intros; cbn; auto. Qed.

Lemma kept_need_sandbox (E : env) : keeps sandbox_kept (need_sandbox E).
Proof.
  intros s Hs. unfold need_sandbox, the_manager, bindM, get. rewrite Hs.
  now split.
Qed.

Lemma kept_ensure_sandbox (E : env) : keeps sandbox_kept (_ensure_sandbox E).
Proof.
  intros s Hs. unfold _ensure_sandbox, bindM, get. rewrite Hs. now split.
Qed.

Ltac one_sandbox :=
  steady_with not_lifecycle
    ltac:(first [ apply kept_need_sandbox | apply kept_ensure_sandbox ]).

Lemma kept_setup (E : env) : keeps sandbox_kept (_setup_workspace E).
Proof. one_sandbox. Qed.

Lemma sandbox_kept_serve (E : env) (r : request) :
  keeps sandbox_kept (serve E r).
Proof.
  destruct r; cbn [serve];
    unfold chat_turn, chat_turn_body, stream_generate, chat_stream,
      rest_chat, generate_web_code, chat;
    one_sandbox.
Qed.

End SteadyFacts.
Import SteadyFacts.

(** X8.  Serving a request makes one LLM call if it is a chat, over
    the websocket or over REST, and none if it updates a file or asks for
    the preview; this holds whatever the calls answer and however the
    request ends. *)
Theorem one_llm_call_per_chat (E : Model.env) (r : Model.request)
    (s : Model.state) :
  llm_calls (snd (Model.serve E r s))
  = llm_calls s + (if asks_llm r then 1 else 0).
Proof. apply llm_calls_serve. Qed.

(** X9.  A session, once created, holds a created sandbox through
    every request it serves, and the only calls ever made to connect to
    the SDK, to create a sandbox or to delete one are the connection and
    the creation of its first set-up. *)
Theorem session_keeps_its_sandbox (E : Model.env) (s : Model.state) :
  session_state E s ->
  Model.sandbox s = Some true
  /\ lifecycle s = [Model.SdkCreate; Model.SdkConnect].
Proof.
  induction 1 as [s H|s r _ IH].
  - revert H.
    unfold Model.create_session, Model.web_ensure_sandbox,
      Model._ensure_sandbox, Model.create_sandbox.
    unfold Model.bindM at 1. unfold Model.bindM at 1.
    unfold Model.get at 1. cbn [Model.sandbox Model.initial].
    unfold Model.bindM at 1. unfold Model.bindM at 1.
    unfold Model.perform at 1.
    destruct (Model.raised _); [discriminate |].
    unfold Model.modify at 1. unfold Model.bindM at 1.
    unfold Model.perform at 1.
    destruct (Model.raised _); [discriminate |].
    unfold Model.modify at 1.
    set (s2 := Model.set_sandbox (Some true) _).
    pose proof (kept_setup E s2 eq_refl) as [K1 K2].
    destruct (Model._setup_workspace E s2) as [[[]|e|] s3];
      try discriminate.
    intros [= <-]. cbn [snd] in K1, K2. split; [exact K1 |].
    rewrite K2. reflexivity.
  - destruct IH as [I1 I2].
    destruct (sandbox_kept_serve E r s I1) as [K1 K2].
    split; [exact K1 | congruence].
Qed.

Lemma session_keeps_its_sandbox_witness :
  let s1 := snd (Model.create_session calm_world Model.initial) in
  let s2 := snd (Model.serve calm_world (Model.WsChat "a page") s1) in
  let s3 := snd (Model.serve calm_world
                   (Model.WsUpdateCode "app.js" "alert(1)") s2) in
  session_state calm_world s3
  /\ Model.sandbox s3 = Some true
  /\ lifecycle s3 = [Model.SdkCreate; Model.SdkConnect].
Proof.
  intros s1 s2 s3.
  assert (H : session_state calm_world s3).
  { apply session_served, session_served, session_created.
    vm_compute. reflexivity. }
  split; [exact H | exact (session_keeps_its_sandbox calm_world s3 H)].
Defined.

Module CleanupFacts.
Import Model.

Lemma cleanup_outcome (E : env) (s : state) :
  exists s',
    cleanup E s = (Returns tt, s')
    /\ sandbox s' = None
    /\ trace s'
       = match sandbox s with
         | Some true => SdkDelete :: trace s
         | _ => trace s
         end
    /\ cleanup E s' = (Returns tt, s').
Proof.
  unfold cleanup, destroy, the_manager, try_except, bindM, get, modify, ret,
    perform.
  destruct (sandbox s) as [[|]|] eqn:Hs; cbn beta iota; rewrite ?Hs;
    cbn beta iota.
  - destruct (raised (oracle E (List.length (trace s)) SdkDelete));
      eexists; (split; [reflexivity |]); cbn; repeat split.
  - eexists; (split; [reflexivity |]); cbn; repeat split.
  - exists s. rewrite Hs. repeat split; assumption.
Qed.

End CleanupFacts.
Import CleanupFacts.

(** X10.  [cleanup] always returns, even when the SDK fails to delete
    the sandbox; it leaves the agent without a sandbox manager, asks the
    SDK to delete the sandbox once if one had been created and makes no
    call otherwise, and a second [cleanup] does nothing. *)
Theorem cleanup_releases_the_sandbox (E : Model.env) (s : Model.state) :
  exists s',
    Model.cleanup E s = (Returns tt, s')
    /\ Model.sandbox s' = None
    /\ Model.trace s'
       = match Model.sandbox s with
         | Some true => Model.SdkDelete :: Model.trace s
         | _ => Model.trace s
         end
    /\ Model.cleanup E s' = (Returns tt, s').
Proof. apply cleanup_outcome. Qed.

Module RunFacts.
Import Model.

#[export] Instance still_steady : steady not_llm still.
Proof.
  constructor; unfold still, llm_calls; intros; cbn; auto.
  - destruct H, H0. split; congruence.
  - unfold not_llm in *. destruct (is_llm c); [discriminate | now split].
Qed.

#[export] Instance still_sandbox : ignores_sandbox still.
Proof. constructor; unfold still; intros; cbn; auto. Qed.

Ltac stays :=
  steady_with not_llm
    ltac:(idtac;
          match goal with
          | |- keeps _ (need_sandbox _) =>
              unfold need_sandbox, create_sandbox
          | |- keeps _ (_ensure_sandbox _) =>
              unfold _ensure_sandbox, create_sandbox
          | |- keeps _ (execute_code _ _ _) =>
              unfold execute_code, run_script
          end).

Lemma still_ensure (E : env) : keeps still (_ensure_sandbox E).
Proof. stays. Qed.

Lemma still_execute_code (E : env) (code language : string) :
  keeps still (execute_code E code language).
Proof. stays. Qed.

Lemma grown_trans (l1 h1 l2 h2 : nat) (s1 s2 s3 : state) :
  grown l1 h1 s1 s2 -> grown l2 h2 s2 s3 -> grown (l1 + l2) (h1 + h2) s1 s3.
Proof. unfold grown. lia. Qed.

Lemma grown_refl (s : state) : grown 0 0 s s.
Proof. unfold grown. lia. Qed.

Lemma execute_grows (E : env) (code language : string) (s : state) :
  post (execute E code language) s
    (fun r s' => match r with
                 | Returns _ => grown 0 1 s s'
                 | _ => True
                 end).
Proof.
  unfold execute.
  apply post_bind, (post_keeps still); [apply still_ensure |].
  intros [[]|e|] s1 [L1 H1]; trivial.
  apply post_bind, (post_keeps still); [apply still_execute_code |].
  intros [result|e|] s2 [L2 H2]; trivial.
  apply post_bind, post_modify, post_ret.
  unfold grown, llm_calls in *. cbn [trace history set_history].
  rewrite List.length_app, H2, H1. cbn [List.length]. lia.
Qed.

Lemma llm_then_extract (E : env) (messages : list message) (t : nat)
    (language : string) (s : state) :
  post (response <~ chat E messages t 4096%N ;;
        lift (Llm._extract_code response language)) s
    (fun r s' => match r with
                 | Returns _ => grown 1 0 s s'
                 | _ => True
                 end).
Proof.
  unfold post, chat, bindM, perform, lift, ret.
  destruct (raised _); cbn [fst snd]; [exact I |].
  destruct (Llm._extract_code _ _); cbn [fst snd]; trivial.
  unfold grown, llm_calls. cbn [trace history set_trace filter is_llm].
  cbn [List.length]. lia.
Qed.

Lemma analyze_error_grows (E : env) (code error language : string)
    (s : state) :
  post (analyze_error E code error language) s
    (fun r s' => match r with
                 | Returns _ => grown 1 0 s s'
                 | _ => True
                 end).
Proof. apply llm_then_extract. Qed.

Lemma generate_grows (E : env) (prompt language : string) (s : state) :
  post (generate E prompt language) s
    (fun r s' => match r with
                 | Returns _ => grown 1 1 s s'
                 | _ => True
                 end).
Proof.
  unfold generate. apply post_bind.
  pose proof (llm_then_extract E
                [ {| role := "system";
                     content := generate_code_prompt language |};
                  {| role := "user"; content := prompt |} ] 3 language s)
    as H.
  unfold post in *. fold (generate_code E prompt language) in H.
  destruct (generate_code E prompt language s) as [[x|e|] s1];
    cbn [fst snd] in *; trivial.
  unfold grown, llm_calls, append_history, bindM, modify, ret in *.
  cbn [fst snd trace history set_history].
  rewrite List.length_app. cbn [List.length]. lia.
Qed.

(** The loop in any world: if it returns, it made as many LLM calls and
    executions as it counts retries, within the budget, and stopped early
    only on an execution without errors. *)
Lemma auto_fix_loop_grows (E : env) (language : string) (budget : nat) :
  forall (code : string) (result : exec_result) (retries : nat) (s : state),
  post (auto_fix_loop E budget language code result retries) s
    (fun r s' =>
       match r with
       | Returns (_, result', retries') =>
           retries <= retries' <= retries + budget
           /\ grown (retries' - retries) (retries' - retries) s s'
           /\ (retries' < retries + budget -> er_stderr result' = "")
       | _ => True
       end).
Proof.
  induction budget as [|budget IH]; intros code result retries s;
    cbn [auto_fix_loop].
  - apply post_ret. replace (retries - retries) with 0 by lia.
    split; [lia |]. split; [apply grown_refl | lia].
  - unfold nonempty at 1.
    destruct (er_stderr result =? "") eqn:Ee; cbn [negb].
    + apply post_ret. apply String.eqb_eq in Ee.
      replace (retries - retries) with 0 by lia.
      split; [lia |]. split; [apply grown_refl | trivial].
    + apply post_bind.
      pose proof (analyze_error_grows E code (er_stderr result) language s)
        as H1. unfold post in H1 |- *.
      destruct (analyze_error E code (er_stderr result) language s)
        as [[x|e|] s1]; cbn [fst snd] in *; trivial.
      apply post_bind.
      pose proof (execute_grows E (Llm.code x) language s1) as H2.
      unfold post in H2 |- *.
      destruct (execute E (Llm.code x) language s1) as [[result1|e|] s2];
        cbn [fst snd] in *; trivial.
      pose proof (grown_trans _ _ _ _ _ _ _ H1 H2) as H12.
      cbn [Nat.add] in H12.
      unfold nonempty. destruct (er_stderr result1 =? "") eqn:Ee1;
        cbn [negb].
      * apply post_ret. apply String.eqb_eq in Ee1.
        replace (retries + 1 - retries) with 1 by lia.
        split; [lia |]. split; [exact H12 | trivial].
      * specialize (IH (Llm.code x) result1 (retries + 1) s2).
        unfold post in IH |- *.
        destruct (auto_fix_loop E budget language (Llm.code x) result1
                    (retries + 1) s2) as [[[[c' r'] n']|e|] s3];
          cbn [fst snd] in *; trivial.
        destruct IH as (Hn & Hg & Hs).
        split; [lia |]. split.
        -- pose proof (grown_trans _ _ _ _ _ _ _ H12 Hg) as H.
           replace (n' - retries) with (1 + (n' - (retries + 1))) by lia.
           exact H.
        -- intros Hlt. apply Hs. lia.
Qed.

End RunFacts.
Import RunFacts.

(** X11.  Whatever the outside answers, a [run] that returns reports
    at most [MAX_RETRIES] retries, has made one LLM call for the
    generation and one for each retry, and has added two history entries
    and one more for each retry; without [auto_fix] it reports no retry,
    and with it fewer than [MAX_RETRIES] retries are reported only with
    an empty stderr. *)
Theorem run_retry_bound (E : Model.env) (prompt language : string)
    (auto_fix : bool) (s s' : Model.state) (result : Model.run_result) :
  Model.run E prompt language auto_fix s = (Returns result, s') ->
  Model.rr_retries result <= Model.MAX_RETRIES
  /\ grown (1 + Model.rr_retries result) (2 + Model.rr_retries result) s s'
  /\ (auto_fix = false -> Model.rr_retries result = 0)
  /\ (auto_fix = true -> Model.rr_retries result < Model.MAX_RETRIES ->
      Model.rr_errors result = "").
Proof.
  unfold Model.run. unfold Model.bindM at 1.
  pose proof (generate_grows E prompt language s) as H1. unfold post in H1.
  destruct (Model.generate E prompt language s) as [[x|e|] s1];
    cbn [fst snd] in H1; try discriminate.
  unfold Model.bindM at 1.
  pose proof (execute_grows E (Llm.code x) language s1) as H2.
  unfold post in H2.
  destruct (Model.execute E (Llm.code x) language s1) as [[r1|e|] s2];
    cbn [fst snd] in H2; try discriminate.
  pose proof (grown_trans _ _ _ _ _ _ _ H1 H2) as H12.
  cbn [Nat.add] in H12.
  destruct auto_fix.
  - unfold Model.bindM.
    pose proof (auto_fix_loop_grows E language Model.MAX_RETRIES
                  (Llm.code x) r1 0 s2) as H3. unfold post in H3.
    destruct (Model.auto_fix_loop E Model.MAX_RETRIES language (Llm.code x)
                r1 0 s2) as [[[[c' r'] n']|e|] s3];
      cbn [fst snd] in H3; try discriminate.
    unfold Model.ret. intros [= <- <-].
    cbn [Model.rr_retries Model.rr_errors].
    destruct H3 as (Hn & Hg & Hs). rewrite Nat.sub_0_r in Hg.
    split; [lia |]. split.
    + pose proof (grown_trans _ _ _ _ _ _ _ H12 Hg) as H. exact H.
    + split; [discriminate |]. intros _ Hlt. apply Hs. lia.
  - unfold Model.bindM, Model.ret. intros [= <- <-].
    cbn [Model.rr_retries Model.rr_errors].
    split; [unfold Model.MAX_RETRIES; lia |]. split; [exact H12 |].
    split; [reflexivity | discriminate].
Qed.

Lemma run_retry_bound_witness :
  exists result s',
    Model.run failing_programs "print a table" "bash" true Model.initial
    = (Returns result, s')
    /\ Model.rr_retries result <= Model.MAX_RETRIES
    /\ grown (1 + Model.rr_retries result) (2 + Model.rr_retries result)
         Model.initial s'
    /\ (true = false -> Model.rr_retries result = 0)
    /\ (true = true -> Model.rr_retries result < Model.MAX_RETRIES ->
        Model.rr_errors result = "").
Proof.
  destruct (Model.run failing_programs "print a table" "bash" true
              Model.initial) as [[result|e|] s'] eqn:H.
  - exists result, s'. split; [reflexivity |].
    exact (run_retry_bound failing_programs "print a table" "bash" true
             Model.initial s' result H).
  - exfalso. vm_compute in H. discriminate H.
  - exfalso. vm_compute in H. discriminate H.
Defined.

Module IdleFacts.
Import Model.

#[export] Instance idle_steady : steady not_work idle.
Proof.
  constructor; unfold idle, work; intros; cbn; try congruence.
  unfold not_work in *. destruct (is_work c); [discriminate | reflexivity].
Qed.

#[export] Instance idle_history : ignores_history idle.
Proof. constructor; reflexivity. Qed.

#[export] Instance idle_sandbox : ignores_sandbox idle.
Proof. constructor; reflexivity. Qed.

Ltac idles :=
  steady_with not_work
    ltac:(idtac;
          match goal with
          | |- keeps _ (need_sandbox _) =>
              unfold need_sandbox, create_sandbox
          | |- keeps _ (_ensure_sandbox _) =>
              unfold _ensure_sandbox, create_sandbox
          | |- keeps _ (generate _ _ _) =>
              unfold generate, generate_code, chat
          end).

Lemma idle_generate (E : env) (prompt language : string) :
  keeps idle (generate E prompt language).
Proof. idles. Qed.

Lemma execute_code_unsupported (E : env) (code language : string) :
  ~ In language supported ->
  execute_code E code language
  = (need_sandbox E >>
     ret {| er_error := Some ("Unsupported language: " ++ language);
            er_stdout := ""; er_stderr := ""; er_exit_code := 1 |}).
Proof.
  intros H. unfold execute_code.
  destruct (language =? "python") eqn:E1;
    [apply String.eqb_eq in E1; subst; cbn in H; tauto |].
  destruct (language =? "javascript") eqn:E2;
    [apply String.eqb_eq in E2; subst; cbn in H; tauto |].
  destruct (language =? "bash") eqn:E3;
    [apply String.eqb_eq in E3; subst; cbn in H; tauto |].
  reflexivity.
Qed.

Lemma execute_unsupported (E : env) (code language : string) (s : state) :
  ~ In language supported ->
  post (execute E code language) s
    (fun r s' =>
       idle s s'
       /\ match r with
          | Returns result =>
              er_stdout result = "" /\ er_stderr result = ""
              /\ er_exit_code result = 1%Z
          | _ => True
          end).
Proof.
  intros H. unfold execute. rewrite (execute_code_unsupported E _ _ H).
  apply post_bind, (post_keeps idle); [idles |].
  intros [[]|e|] s1 H1; [|now split..].
  apply post_bind, post_bind, (post_keeps idle); [idles |].
  intros [[]|e|] s2 H2; [|split; [congruence | trivial]..].
  apply post_ret, post_bind, post_modify, post_ret.
  split; [|now repeat split]. unfold idle, work in *.
  cbn [trace set_history]. congruence.
Qed.

End IdleFacts.
Import IdleFacts.

(** X12.  A [run] in a language the sandbox does not run returns,
    when it returns, with no retry, empty output, empty errors and exit
    code 1, and nothing was uploaded or run in the sandbox: the message
    of [execute_code] about the language is not in the record. *)
Theorem run_unsupported_language (E : Model.env) (prompt language : string)
    (auto_fix : bool) (s s' : Model.state) (result : Model.run_result) :
  ~ In language supported ->
  Model.run E prompt language auto_fix s = (Returns result, s') ->
  Model.rr_retries result = 0
  /\ Model.rr_output result = ""
  /\ Model.rr_errors result = ""
  /\ Model.rr_exit_code result = 1%Z
  /\ work s' = work s.
Proof.
  intros Hl. unfold Model.run. unfold Model.bindM at 1.
  pose proof (idle_generate E prompt language s) as H1.
  destruct (Model.generate E prompt language s) as [[x|e|] s1];
    cbn [snd] in H1; try discriminate.
  unfold Model.bindM at 1.
  pose proof (execute_unsupported E (Llm.code x) language s1 Hl) as H2.
  unfold post in H2.
  destruct (Model.execute E (Llm.code x) language s1) as [[r1|e|] s2];
    cbn [fst snd] in H2; try discriminate.
  destruct H2 as (H2 & Ho & He & Hx).
  assert (Hloop : (if auto_fix
                   then Model.auto_fix_loop E Model.MAX_RETRIES language
                          (Llm.code x) r1 0
                   else Model.ret (Llm.code x, r1, 0)) s2
                  = (Returns (Llm.code x, r1, 0), s2)).
  { destruct auto_fix; [|reflexivity].
    cbn [Model.MAX_RETRIES Model.auto_fix_loop]. now rewrite He. }
  unfold Model.bindM. rewrite Hloop. unfold Model.ret. intros [= <- <-].
  cbn [Model.rr_retries Model.rr_output Model.rr_errors Model.rr_exit_code].
  repeat split; trivial. unfold idle in *. congruence.
Qed.

Lemma run_unsupported_language_witness :
  ~ In "ruby" supported
  /\ exists result s',
       Model.run calm_world "print a table" "ruby" true Model.initial
       = (Returns result, s')
       /\ Model.rr_retries result = 0
       /\ Model.rr_output result = ""
       /\ Model.rr_errors result = ""
       /\ Model.rr_exit_code result = 1%Z
       /\ work s' = work Model.initial.
Proof.
  assert (Hl : ~ In "ruby" supported).
  { cbn. intros H. repeat (destruct H as [H|H]; [discriminate H |]).
    exact H. }
  split; [exact Hl |].
  destruct (Model.run calm_world "print a table" "ruby" true Model.initial)
    as [[result|e|] s'] eqn:H.
  - exists result, s'. split; [reflexivity |].
    exact (run_unsupported_language calm_world "print a table" "ruby" true
             Model.initial s' result Hl H).
  - exfalso. vm_compute in H. discriminate H.
  - exfalso. vm_compute in H. discriminate H.
Defined.

Module ContextFacts.
Import Model.

Lemma last_n_app {A} (old recent : list A) :
  last_n (List.length recent) (old ++ recent) = recent.
Proof.
  unfold last_n. rewrite List.length_app.
  replace (List.length old + List.length recent - List.length recent)
    with (List.length old + 0) by lia.
  rewrite skipn_app, Nat.add_0_r, skipn_all.
  replace (List.length old - List.length old) with 0 by lia.
  reflexivity.
Qed.

Lemma last_n_length {A} (n : nat) (l : list A) :
  List.length (last_n n l) <= n.
Proof. unfold last_n. rewrite length_skipn. lia. Qed.

Lemma flat_map_length_le {A B} (f : A -> list B) (k : nat) (l : list A) :
  (forall a, List.length (f a) <= k) ->
  List.length (flat_map f l) <= List.length l * k.
Proof.
  intros H. induction l as [|a l IH]; cbn [flat_map List.length];
    [lia |].
  rewrite List.length_app. specialize (H a). lia.
Qed.

Lemma history_context_length (intro : string) (h : list turn) :
  List.length (history_context intro h) <= 6.
Proof.
  unfold history_context.
  etransitivity; [apply (flat_map_length_le _ 2) |].
  - intros [| |]; cbn; lia.
  - pose proof (last_n_length 3 h). lia.
Qed.

End ContextFacts.
Import ContextFacts.

(** X13.  The messages [generate_web_code] and [stream_generate] send
    depend on the last three history entries only, and are at most
    eight: the system prompt, two for each of these entries that is a
    web generation, and the prompt. *)
Theorem web_context_window (intro prompt : string)
    (old : list Model.turn) (a b c : Model.turn) (h : list Model.turn) :
  Model.web_messages intro prompt (old ++ [a; b; c])
  = Model.web_messages intro prompt [a; b; c]
  /\ List.length (Model.web_messages intro prompt h) <= 8.
Proof.
  unfold Model.web_messages, Model.history_context. split.
  - change 3 with (List.length [a; b; c]) at 1.
    now rewrite (last_n_app old [a; b; c]).
  - rewrite !List.length_app. cbn [List.length].
    pose proof (history_context_length intro h) as H.
    unfold Model.history_context in H. lia.
Qed.

Module PathFacts.
Import Model.

Lemma no_slash (c : ascii) (s : string) :
  contains "/" (String c s) = false ->
  (c =? "/")%char = false /\ contains "/" s = false.
Proof.
  rewrite contains_cons. intros H. apply orb_false_iff in H as [Hc H].
  cbn [startswith] in Hc. rewrite andb_true_r, Ascii.eqb_sym in Hc.
  now split.
Qed.

Lemma before_last_slash_none (n : string) :
  contains "/" n = false -> before_last_slash n = None.
Proof.
  induction n as [|c n IH]; intros H; [reflexivity |].
  apply no_slash in H as [Hc H]. cbn [before_last_slash].
  now rewrite (IH H), Hc.
Qed.

Lemma before_last_slash_split (d n : string) :
  contains "/" n = false -> before_last_slash (d ++ "/" ++ n) = Some d.
Proof.
  intros H. induction d as [|c d IH]; cbn [append before_last_slash].
  - now rewrite (before_last_slash_none n H).
  - cbn [append] in IH. now rewrite IH.
Qed.

End PathFacts.
Import PathFacts.

(** X14.  The directory the upload fallback makes before it writes a
    file is the path up to its last slash: none for a bare name, and [d]
    for [d/n] when [n] has no slash. *)
Theorem dir_path_splits (d n : string) :
  contains "/" n = false ->
  Model.dir_path n = "" /\ Model.dir_path (d ++ "/" ++ n) = d.
Proof.
  intros H. unfold Model.dir_path.
  now rewrite (before_last_slash_none n H), (before_last_slash_split d n H).
Qed.

Lemma dir_path_splits_witness :
  contains "/" "site.css" = false
  /\ Model.dir_path "site.css" = ""
  /\ Model.dir_path ("/home/daytona/project/css" ++ "/" ++ "site.css")
     = "/home/daytona/project/css".
Proof.
  assert (H : contains "/" "site.css" = false) by reflexivity.
  split; [exact H |].
  exact (dir_path_splits "/home/daytona/project/css" "site.css" H).
Defined.

Module ChatFacts.
Import Model.

Lemma chat_context_length (h : list turn) :
  List.length (chat_context h) <= 10.
Proof.
  unfold chat_context.
  etransitivity; [apply (flat_map_length_le _ 2) |].
  - intros [| |]; cbn; lia.
  - pose proof (last_n_length 5 h). lia.
Qed.

Lemma agent_chat_run (E : env) (text : string) (s : state) :
  let s' := snd (agent_chat E text s) in
  history s' = history s
  /\ trace s' = LlmChat (chat_messages text (history s)) 7 4096 false
                :: trace s
  /\ project_files s' = project_files s /\ sandbox s' = sandbox s.
Proof.
  unfold agent_chat, chat, bindM, get, perform, ret.
  destruct (raised _); cbn; repeat split.
Qed.

End ChatFacts.
Import ChatFacts.

(** X15.  [CodeAgent.chat] leaves the history as it is: two chats in
    a row each make one LLM call, not streamed, at temperature 0.7 and
    with 4096 tokens, the second with the same context as the first and
    without the first exchange, and a chat sends at most twelve
    messages. *)
Theorem chat_is_not_recorded (E : Model.env) (first second : string)
    (s : Model.state) :
  let s1 := snd (agent_chat E first s) in
  let s2 := snd (agent_chat E second s1) in
  Model.history s2 = Model.history s
  /\ Model.trace s2
     = Model.LlmChat (chat_messages second (Model.history s)) 7 4096 false
       :: Model.LlmChat (chat_messages first (Model.history s)) 7 4096 false
       :: Model.trace s
  /\ List.length (chat_messages second (Model.history s)) <= 12.
Proof.
  intros s1 s2.
  destruct (agent_chat_run E first s) as (H1 & T1 & _).
  destruct (agent_chat_run E second s1) as (H2 & T2 & _).
  fold s1 in H1, T1. fold s2 in H2, T2.
  split; [congruence |]. split.
  - rewrite T2, T1, H1. reflexivity.
  - unfold chat_messages. rewrite !List.length_app. cbn [List.length].
    pose proof (chat_context_length (Model.history s)). lia.
Qed.

(** X16.  When the SDK refuses an upload and answers the calls that
    follow, [upload_file] still returns [True] and the file counts as
    written: after the refused upload it makes the directory of the
    path, if the path has one, and writes the base64 text of the content
    through the shell. *)
Theorem upload_falls_back (E : Model.env) (path content msg : string)
    (s : Model.state) :
  Model.sandbox s = Some true ->
  Model.raised (Model.oracle E (List.length (Model.trace s))
                  (Model.SdkUpload content path)) = Some msg ->
  (forall n c, List.length (Model.trace s) < n ->
               Model.raised (Model.oracle E n c) = None) ->
  exists s',
    Model.upload_file E path content s = (Returns true, s')
    /\ Model.uploaded s' = (path, content) :: Model.uploaded s
    /\ Model.trace s'
       = Model.SdkExec ("echo '" ++ Model.b64encode E content
                        ++ "' | base64 -d > " ++ path)
         :: ((if Model.dir_path path =? "" then []
              else [Model.SdkExec ("mkdir -p " ++ Model.dir_path path)])
             ++ Model.SdkUpload content path :: Model.trace s)%list.
Proof.
  intros Hs Hu Hrest.
  unfold Model.upload_file, Model.need_sandbox, Model.the_manager,
    Model.try_except, Model.bindM, Model.get, Model.modify, Model.ret,
    Model.perform.
  cbn beta iota. rewrite Hs. cbn beta iota. rewrite Hu. cbn beta iota.
  destruct (Model.dir_path path =? ""); cbn beta iota;
    cbn [Model.trace Model.set_trace List.length];
    rewrite ?Hrest by lia; cbn beta iota;
    cbn [Model.trace Model.set_trace List.length];
    rewrite ?Hrest by lia;
    eexists; (split; [reflexivity |]); split; reflexivity.
Qed.

Lemma upload_falls_back_witness :
  let s := snd (Model.create_session fourth_call_fails Model.initial) in
  (Model.sandbox s = Some true
   /\ Model.raised (Model.oracle fourth_call_fails
                      (List.length (Model.trace s))
                      (Model.SdkUpload "body{}" "/home/daytona/project/a.css"))
      = Some "upload refused"
   /\ (forall n c, List.length (Model.trace s) < n ->
                   Model.raised (Model.oracle fourth_call_fails n c) = None))
  /\ exists s',
       Model.upload_file fourth_call_fails "/home/daytona/project/a.css"
         "body{}" s = (Returns true, s')
       /\ Model.uploaded s'
          = ("/home/daytona/project/a.css", "body{}") :: Model.uploaded s
       /\ Model.trace s'
          = Model.SdkExec
              "echo 'body{}' | base64 -d > /home/daytona/project/a.css"
            :: Model.SdkExec "mkdir -p /home/daytona/project"
            :: Model.SdkUpload "body{}" "/home/daytona/project/a.css"
            :: Model.trace s.
Proof.
  intros s.
  assert (H1 : Model.sandbox s = Some true) by reflexivity.
  assert (H2 : Model.raised
                 (Model.oracle fourth_call_fails
                    (List.length (Model.trace s))
                    (Model.SdkUpload "body{}" "/home/daytona/project/a.css"))
               = Some "upload refused") by reflexivity.
  assert (H3 : forall n c, List.length (Model.trace s) < n ->
                 Model.raised (Model.oracle fourth_call_fails n c) = None).
  { intros n c Hn. change (List.length (Model.trace s)) with 3 in Hn.
    cbn [fourth_call_fails Model.oracle].
    destruct (n =? 3)%nat eqn:E; [apply Nat.eqb_eq in E; lia | reflexivity]. }
  split; [now repeat split |].
  exact (upload_falls_back fourth_call_fails "/home/daytona/project/a.css"
           "body{}" "upload refused" s H1 H2 H3).
Defined.

Module SessionFacts.
Import Model Sessions.

Section Odict.

Context {V : Type}.

Lemma od_get_set (d : odict V) (k k' : string) (v : V) :
  od_get (od_set d k v) k' = if (k =? k') then Some v else od_get d k'.
Proof.
  induction d as [|[k0 v0] d IH]; cbn [od_set od_get]; [reflexivity |].
  destruct (k0 =? k) eqn:E0; cbn [od_get].
  - apply String.eqb_eq in E0. subst k0. now destruct (k =? k').
  - destruct (k0 =? k') eqn:E1; [|exact IH].
    apply String.eqb_eq in E1. subst k0. now rewrite String.eqb_sym, E0.
Qed.

Lemma od_get_none (d : odict V) (k : string) :
  od_get d k = None <-> ~ In k (od_keys d).
Proof.
  induction d as [|[k0 v0] d IH]; cbn [od_get od_keys map fst In].
  - tauto.
  - destruct (k0 =? k) eqn:E.
    + apply String.eqb_eq in E. split; [discriminate | tauto].
    + apply String.eqb_neq in E. fold (od_keys d). tauto.
Qed.

Lemma od_get_in (d : odict V) (k : string) (v : V) :
  od_get d k = Some v -> In (k, v) d.
Proof.
  induction d as [|[k0 v0] d IH]; cbn [od_get In]; [discriminate |].
  destruct (k0 =? k) eqn:E.
  - apply String.eqb_eq in E. intros [= ->]. left. now subst.
  - intros H. right. now apply IH.
Qed.

Lemma in_od_get (d : odict V) (k : string) (v : V) :
  NoDup (od_keys d) -> In (k, v) d -> od_get d k = Some v.
Proof.
  induction d as [|[k0 v0] d IH]; cbn [od_get In od_keys map fst];
    [intros _ [] |].
  intros H. apply NoDup_cons_iff in H as [Hin H]. fold (od_keys d) in Hin.
  intros [[= -> ->]|Hd].
  - now rewrite String.eqb_refl.
  - destruct (k0 =? k) eqn:E; [|now apply IH].
    apply String.eqb_eq in E. subst k0. exfalso. apply Hin.
    unfold od_keys. apply in_map_iff. now exists (k, v).
Qed.

Lemma od_keys_set (d : odict V) (k : string) (v : V) :
  od_keys (od_set d k v)
  = match od_get d k with
    | Some _ => od_keys d
    | None => (od_keys d ++ [k])%list
    end.
Proof.
  induction d as [|[k0 v0] d IH]; cbn [od_set od_get od_keys map fst app];
    [reflexivity |].
  destruct (k0 =? k); cbn [od_keys map fst]; [reflexivity |].
  fold (od_keys (od_set d k v)). rewrite IH. fold (od_keys d).
  now destruct (od_get d k).
Qed.

Lemma od_set_nodup (d : odict V) (k : string) (v : V) :
  NoDup (od_keys d) -> NoDup (od_keys (od_set d k v)).
Proof.
  intros H. rewrite od_keys_set. destruct (od_get d k) eqn:E; [exact H |].
  apply od_get_none in E.
  apply NoDup_app; [exact H | repeat constructor; intros [] |].
  intros x Hx [<-|[]]. contradiction.
Qed.

Lemma in_od_set (d : odict V) (k k' : string) (v v' : V) :
  In (k', v') (od_set d k v) -> (k' = k /\ v' = v) \/ In (k', v') d.
Proof.
  induction d as [|[k0 v0] d IH]; cbn [od_set In].
  - intros [[= <- <-]|[]]. now left.
  - destruct (k0 =? k) eqn:E; cbn [In].
    + apply String.eqb_eq in E. subst k0.
      intros [[= <- <-]|H]; [now left | right; now right].
    + intros [H|H]; [right; now left |].
      destruct (IH H) as [?|?]; [now left | right; now right].
Qed.

(** Popping a key: what comes out is what was stored, and the other
    keys keep their values and their order. *)
Lemma od_pop_get (d : odict V) (k : string) :
  fst (od_pop d k) = od_get d k.
Proof.
  induction d as [|[k0 v0] d IH]; cbn [od_pop od_get]; [reflexivity |].
  destruct (k0 =? k); [reflexivity |].
  destruct (od_pop d k). exact IH.
Qed.

Lemma filter_absent (d : odict V) (k : string) :
  ~ In k (od_keys d) -> filter (fun kv => negb (fst kv =? k)) d = d.
Proof.
  induction d as [|[k1 v1] d IH]; [reflexivity |].
  cbn [od_keys map fst In filter]. fold (od_keys d). intros H.
  destruct (k1 =? k) eqn:E1; [apply String.eqb_eq in E1; tauto |].
  cbn [negb]. f_equal. apply IH. tauto.
Qed.

Lemma od_pop_rest (d : odict V) (k : string) :
  NoDup (od_keys d) ->
  snd (od_pop d k) = filter (fun kv => negb (fst kv =? k)) d.
Proof.
  induction d as [|[k0 v0] d IH]; cbn [od_pop od_keys map fst filter];
    [reflexivity |].
  intros H. apply NoDup_cons_iff in H as [Hin H]. fold (od_keys d) in Hin.
  destruct (k0 =? k) eqn:E; cbn [negb snd].
  - apply String.eqb_eq in E. subst k0. symmetry. now apply filter_absent.
  - specialize (IH H). destruct (od_pop d k) as [found rest].
    cbn [snd] in *. now rewrite IH.
Qed.

Lemma od_pop_absent (d : odict V) (k : string) :
  od_get d k = None -> od_pop d k = (None, d).
Proof.
  induction d as [|[k0 v0] d IH]; cbn [od_pop od_get]; [reflexivity |].
  destruct (k0 =? k); [discriminate |].
  intros H. now rewrite (IH H).
Qed.

Lemma filter_keys_incl (p : string * V -> bool) (d : odict V) (k : string) :
  In k (od_keys (filter p d)) -> In k (od_keys d).
Proof.
  unfold od_keys. rewrite !in_map_iff. intros ((k', v) & E & H).
  apply filter_In in H as [H _]. now exists (k', v).
Qed.

Lemma filter_nodup (p : string * V -> bool) (d : odict V) :
  NoDup (od_keys d) -> NoDup (od_keys (filter p d)).
Proof.
  induction d as [|[k0 v0] d IH]; cbn [od_keys map fst filter];
    [constructor |].
  intros H. apply NoDup_cons_iff in H as [Hin H].
  destruct (p (k0, v0)); [|now apply IH].
  cbn [od_keys map fst]. constructor; [|now apply IH].
  intros Hk. apply Hin. now apply (filter_keys_incl p).
Qed.

Lemma od_get_filter_other (d : odict V) (k k' : string) :
  k' <> k ->
  od_get (filter (fun kv => negb (fst kv =? k)) d) k' = od_get d k'.
Proof.
  intros Hne. induction d as [|[k0 v0] d IH]; cbn [filter od_get fst];
    [reflexivity |].
  destruct (k0 =? k) eqn:E; cbn [negb od_get].
  - apply String.eqb_eq in E. subst k0.
    destruct (k =? k') eqn:E'; [apply String.eqb_eq in E'; congruence |].
    exact IH.
  - now rewrite IH.
Qed.

Lemma od_get_filter_self (d : odict V) (k : string) :
  od_get (filter (fun kv => negb (fst kv =? k)) d) k = None.
Proof.
  induction d as [|[k0 v0] d IH]; cbn [filter od_get fst]; [reflexivity |].
  destruct (k0 =? k) eqn:E; cbn [negb od_get]; [exact IH |].
  now rewrite E.
Qed.

(** The keys a filter selects, among distinct keys, tell of each entry
    whether the filter selects it. *)
Lemma mem_filter_keys (p : string * V -> bool) (d : odict V) (k : string)
    (v : V) :
  NoDup (od_keys d) -> In (k, v) d ->
  mem k (od_keys (filter p d)) = p (k, v).
Proof.
  intros Hd Hin. unfold mem.
  destruct (p (k, v)) eqn:Ep.
  - apply existsb_exists. exists k. split; [|apply String.eqb_refl].
    unfold od_keys. apply in_map_iff. exists (k, v). split; [reflexivity |].
    apply filter_In. now split.
  - destruct (existsb (String.eqb k) (od_keys (filter p d))) eqn:Ex;
      [|reflexivity].
    apply existsb_exists in Ex as (k' & Hk & E).
    apply String.eqb_eq in E. subst k'.
    unfold od_keys in Hk. apply in_map_iff in Hk as ((k', v') & E & Hf).
    cbn [fst] in E. subst k'. apply filter_In in Hf as [Hf Hp].
    pose proof (in_od_get d k v Hd Hin) as E1.
    pose proof (in_od_get d k v' Hd Hf) as E2.
    congruence.
Qed.

End Odict.

Lemma filter_all {A} (f : A -> bool) (l : list A) :
  (forall a, In a l -> f a = true) -> filter f l = l.
Proof. intros H. apply forallb_filter_id. now apply forallb_forall. Qed.

Lemma filter_none {A} (f : A -> bool) (l : list A) :
  (forall a, In a l -> f a = false) -> filter f l = [].
Proof.
  induction l as [|a l IH]; [reflexivity |]. intros H. cbn [filter].
  rewrite (H a (or_introl eq_refl)). apply IH. intros b Hb. apply H.
  now right.
Qed.

Lemma mem_keys (d : odict session) (kv : string * session) :
  In kv d -> mem (fst kv) (od_keys d) = true.
Proof.
  intros Hin. unfold mem. apply existsb_exists. exists (fst kv).
  split; [|apply String.eqb_refl].
  unfold od_keys. apply in_map_iff. now exists kv.
Qed.

Lemma timedelta_minutes_days (n : Z) :
  (Z.abs (n / 1440) <= 999999999)%Z ->
  timedelta_minutes n = Returns (n * 60000000)%Z.
Proof.
  intros H. unfold timedelta_minutes.
  change 86400000000%Z with (1440 * 60000000)%Z.
  rewrite Z.div_mul_cancel_r by lia.
  now apply Z.leb_le in H as ->.
Qed.

Lemma sandboxes_split (d : odict session) (k : string) (ids : list string) :
  sandboxes (filter (fun kv => mem (fst kv) (k :: ids)) d)
  = sandboxes (filter (fun kv => fst kv =? k) d)
    + sandboxes
        (filter (fun kv => mem (fst kv) ids)
           (filter (fun kv => negb (fst kv =? k)) d)).
Proof.
  unfold sandboxes, mem.
  induction d as [|[k0 x] d IH]; [reflexivity |].
  cbn [filter fst existsb] in *.
  destruct (k0 =? k) eqn:E; cbn [orb negb filter].
  - cbn [snd]. destruct (holds_sandbox x); cbn [List.length]; rewrite IH;
      reflexivity.
  - cbn [fst]. destruct (existsb (String.eqb k0) ids); cbn [filter snd];
      [|exact IH].
    destruct (holds_sandbox x); cbn [List.length]; rewrite IH; lia.
Qed.

Lemma sandboxes_one (d : odict session) (k : string) :
  NoDup (od_keys d) ->
  sandboxes (filter (fun kv => fst kv =? k) d)
  = match od_get d k with
    | Some x => if holds_sandbox x then 1 else 0
    | None => 0
    end.
Proof.
  unfold sandboxes.
  induction d as [|[k0 x] d IH]; [reflexivity |].
  cbn [od_keys map fst filter od_get]. fold (od_keys d). intros H.
  apply NoDup_cons_iff in H as [Hin H].
  destruct (k0 =? k) eqn:E; [|now apply IH].
  apply String.eqb_eq in E. subst k0.
  assert (Z : filter (fun kv : string * session => fst kv =? k) d = []).
  { clear IH H. induction d as [|[k1 x1] d IH]; [reflexivity |].
    cbn [od_keys map fst In filter] in *.
    destruct (k1 =? k) eqn:E1; [apply String.eqb_eq in E1; tauto |].
    apply IH. tauto. }
  rewrite Z. cbn [filter snd]. now destruct (holds_sandbox x).
Qed.

Section Manager.

Variable W : outside.

(** One session destroyed: the call returns, whatever the SDK
    answers. *)
Lemma destroy_session_outcome (session_id : string) (m : manager) :
  wf m ->
  exists m',
    destroy_session W session_id m = (Returns (registered session_id m), m')
    /\ sessions m'
       = filter (fun kv => negb (fst kv =? session_id)) (sessions m)
    /\ world m'
       = (repeat SdkDelete
            (sandboxes
               (filter (fun kv => fst kv =? session_id) (sessions m)))
          ++ world m)%list
    /\ drawn m' = drawn m /\ ticks m' = ticks m.
Proof.
  intros Hwf. unfold destroy_session, registered.
  rewrite (sandboxes_one _ _ Hwf).
  pose proof (od_pop_get (sessions m) session_id) as Hg.
  pose proof (od_pop_rest (sessions m) session_id Hwf) as Hr.
  destruct (od_get (sessions m) session_id) as [x|] eqn:Eg.
  - destruct (od_pop (sessions m) session_id) as [found rest].
    cbn [fst snd] in Hg, Hr. subst found. unfold on_agent.
    destruct (cleanup_outcome (sdk W)
                (set_trace (world (set_sessions rest m)) (agent x)))
      as (a & -> & _ & Ht & _).
    eexists. split; [reflexivity |].
    cbn [sessions world drawn ticks set_world set_sessions].
    rewrite Ht. cbn [sandbox set_trace trace world set_sessions].
    unfold holds_sandbox.
    split; [exact Hr |]. split; [|split; reflexivity].
    now destruct (sandbox (agent x)) as [[|]|].
  - rewrite (od_pop_absent _ _ Eg). exists m.
    split; [reflexivity |]. split; [|repeat split].
    symmetry. apply filter_absent. now apply od_get_none.
Qed.

Lemma destroy_each_outcome (ids : list string) (m : manager) :
  wf m ->
  exists m',
    destroy_each W ids m = (Returns tt, m')
    /\ sessions m'
       = filter (fun kv => negb (mem (fst kv) ids)) (sessions m)
    /\ world m'
       = (repeat SdkDelete
            (sandboxes (filter (fun kv => mem (fst kv) ids) (sessions m)))
          ++ world m)%list
    /\ drawn m' = drawn m /\ ticks m' = ticks m.
Proof.
  revert m. induction ids as [|sid ids IH]; intros m Hwf.
  - exists m. split; [reflexivity |]. cbn [mem existsb negb].
    split; [|split; [|split; reflexivity]].
    + symmetry. apply forallb_filter_id. now apply forallb_forall.
    + replace (filter (fun _ => false) (sessions m)) with (@nil (string * session));
        [reflexivity |].
      symmetry. clear. induction (sessions m); [reflexivity | assumption].
  - cbn [destroy_each].
    destruct (destroy_session_outcome sid m Hwf)
      as (m1 & -> & Hs1 & Hw1 & Hd1 & Ht1).
    assert (Hwf1 : wf m1).
    { unfold wf. rewrite Hs1. now apply filter_nodup. }
    destruct (IH m1 Hwf1) as (m2 & -> & Hs2 & Hw2 & Hd2 & Ht2).
    exists m2. split; [reflexivity |].
    split; [|split; [|split; congruence]].
    + rewrite Hs2, Hs1. clear.
      induction (sessions m) as [|[k x] d IHd]; [reflexivity |].
      unfold mem in *. cbn [filter fst existsb].
      destruct (k =? sid); cbn [negb orb filter fst]; [exact IHd |].
      destruct (existsb (String.eqb k) ids); cbn [negb]; [exact IHd |].
      now rewrite IHd.
    + rewrite Hw2, Hw1, Hs1, sandboxes_split, List.app_assoc, <- repeat_app.
      f_equal. f_equal. lia.
Qed.

End Manager.

End SessionFacts.
Import SessionFacts.

Module RouteFacts.
Import Model Sessions Routes.

(** *** What the statements of an agent leave in place *)

Lemma kept_rest_chat (E : env) (prompt : string) :
  keeps sandbox_kept (rest_chat E prompt).
Proof.
  unfold rest_chat, generate_web_code, chat. one_sandbox.
Qed.

Lemma kept_rest_update_file (E : env) (path content : string) :
  keeps sandbox_kept (rest_update_file E path content).
Proof. unfold rest_update_file. one_sandbox. Qed.

Lemma kept_get_preview_url (E : env) :
  keeps sandbox_kept (get_preview_url E).
Proof. one_sandbox. Qed.

(** A new agent whose sandbox is set up: three calls, all answered. *)
Lemma ensure_from_nothing (E : env) (s s' : state) :
  sandbox s = None ->
  web_ensure_sandbox E s = (Returns tt, s') ->
  s' = set_trace
         (SdkExec ("mkdir -p " ++ WORKSPACE_DIR)
          :: SdkCreate :: SdkConnect :: trace s)
         (set_sandbox (Some true) s).
Proof.
  intros Hs.
  unfold web_ensure_sandbox, _ensure_sandbox, create_sandbox,
    _setup_workspace, execute_command, need_sandbox, the_manager,
    bindM, get, modify, ret, perform.
  rewrite Hs.
  destruct (raised _); [discriminate |]. cbn beta iota.
  destruct (raised _); [discriminate |].
  cbn [sandbox set_sandbox set_trace trace].
  destruct (raised _); [discriminate |].
  intros [= <-]. reflexivity.
Qed.

(** The file store after [PUT /files/...] has been served. *)
Lemma rest_update_file_returned (E : env) (path content : string)
    (s s' : state) :
  sandbox s <> None ->
  rest_update_file E path content s = (Returns tt, s') ->
  project_files s' = dict_set (project_files s) path content.
Proof.
  intros Hs. unfold rest_update_file. unfold bindM at 1.
  pose proof (update_file_returned E path content s) as Hu.
  destruct (Model.update_file E path content s) as [[[]|e|] s1];
    try discriminate.
  specialize (Hu s1 Hs eq_refl).
  pose proof (keeps_deploy_and_preview store_same E s1) as Hd.
  unfold bindM, ret.
  destruct (deploy_and_preview E s1) as [[p|e|] s2]; try discriminate.
  intros [= <-]. cbn [snd] in Hd. unfold store_same in Hd. congruence.
Qed.

Section Routes.

Variable W : outside.

(** *** Finding a session *)

Lemma get_session_found (session_id : string) (m : manager) (x : session) :
  od_get (sessions m) session_id = Some x ->
  Sessions.get_session W session_id m
  = (Some (set_last_activity (now W (ticks m)) x),
     set_sessions
       (od_set (sessions m) session_id
          (set_last_activity (now W (ticks m)) x))
       (set_ticks (S (ticks m)) m)).
Proof.
  intros H. unfold Sessions.get_session, read_clock. now rewrite H.
Qed.

Lemma get_session_missing (session_id : string) (m : manager) :
  registered session_id m = false ->
  Sessions.get_session W session_id m = (None, m).
Proof.
  unfold registered, Sessions.get_session.
  now destruct (od_get (sessions m) session_id).
Qed.

(** *** Sound managers *)

Lemma sound_empty : sound empty_manager.
Proof. split; [constructor | intros k x []]. Qed.

Lemma sound_set (m : manager) (k : string) (x : session)
    (d : list call) (n t : nat) :
  sound m -> id x = k -> sandbox (agent x) = Some true ->
  sound {| sessions := od_set (sessions m) k x; world := d; drawn := n;
           ticks := t |}.
Proof.
  intros [Hwf Hall] Hi Hx. split.
  - unfold wf. cbn [sessions]. now apply od_set_nodup.
  - cbn [sessions]. intros k' x' Hin.
    apply in_od_set in Hin as [[-> ->]|Hin]; [now split | now apply Hall].
Qed.

Lemma sound_same (m m' : manager) :
  sessions m' = sessions m -> sound m -> sound m'.
Proof. unfold sound, wf. intros ->. trivial. Qed.

Lemma sound_get_session (session_id : string) (m : manager) :
  sound m -> sound (snd (Sessions.get_session W session_id m)).
Proof.
  intros Hm. destruct (od_get (sessions m) session_id) as [x|] eqn:E.
  - rewrite (get_session_found _ _ _ E). cbn [snd].
    destruct (proj2 Hm _ _ (od_get_in _ _ _ E)) as [Hi Hx].
    now apply (sound_set m).
  - rewrite get_session_missing; [exact Hm |].
    unfold registered. now rewrite E.
Qed.

Lemma get_session_some (session_id : string) (m m1 : manager)
    (x : session) :
  sound m ->
  Sessions.get_session W session_id m = (Some x, m1) ->
  sound m1 /\ od_get (sessions m1) session_id = Some x
  /\ id x = session_id /\ sandbox (agent x) = Some true.
Proof.
  intros Hm H. pose proof (sound_get_session session_id m Hm) as Hs.
  rewrite H in Hs. cbn [snd] in Hs. split; [exact Hs |].
  destruct (od_get (sessions m) session_id) as [x0|] eqn:E.
  - rewrite (get_session_found _ _ _ E) in H. injection H as <- <-.
    cbn [sessions set_sessions]. rewrite od_get_set, String.eqb_refl.
    split; [reflexivity |].
    exact (proj2 Hm _ _ (od_get_in _ _ _ E)).
  - rewrite get_session_missing in H; [discriminate |].
    unfold registered. now rewrite E.
Qed.

Lemma sound_with_agent {A} (c : M A) (session_id : string) (x : session)
    (m : manager) :
  keeps sandbox_kept c -> sound m ->
  id x = session_id -> sandbox (agent x) = Some true ->
  sound (snd (with_agent c session_id x m)).
Proof.
  intros Hc Hm Hi Hx. unfold with_agent, on_agent.
  pose proof (Hc (set_trace (world m) (agent x)) Hx) as [Ha _].
  destruct (c (set_trace (world m) (agent x))) as [r a].
  cbn [snd] in *. now apply (sound_set m).
Qed.

Lemma sound_create (requested : option string) (m : manager) :
  sound m -> sound (snd (Sessions.create_session W requested m)).
Proof.
  intros Hm. unfold Sessions.create_session, on_agent.
  pose proof (ensure_from_nothing (sdk W)
                (set_trace (world (set_drawn (S (drawn m)) m)) initial))
    as He.
  destruct (web_ensure_sandbox (sdk W) _) as [[[]|e|] a]; cbn [snd];
    try (apply (sound_same m); [reflexivity | exact Hm]).
  specialize (He a eq_refl eq_refl). unfold read_clock.
  cbn [snd sessions set_ticks set_world set_drawn].
  apply (sound_set m); [exact Hm | reflexivity |].
  rewrite He. reflexivity.
Qed.

Lemma sound_destroy (session_id : string) (m : manager) :
  sound m -> sound (snd (destroy_session W session_id m)).
Proof.
  intros [Hwf Hall].
  destruct (destroy_session_outcome W session_id m Hwf)
    as (m' & -> & Hs & _).
  cbn [snd]. split.
  - unfold wf. rewrite Hs. now apply filter_nodup.
  - rewrite Hs. intros k x Hin. apply filter_In in Hin as [Hin _].
    now apply Hall.
Qed.

Ltac found_or_not Hm session_id m :=
  let x := fresh "x" in
  let m1 := fresh "m" in
  let E := fresh "E" in
  destruct (Sessions.get_session W session_id m) as [[x|] m1] eqn:E;
  [ destruct (get_session_some _ _ _ _ Hm E) as (? & ? & ? & ?)
  | pose proof (sound_get_session session_id m Hm) as Hs;
    rewrite E in Hs; exact Hs ].

Lemma sound_after (r : rest) (m : manager) :
  sound m -> sound (after W r m).
Proof.
  intros Hm. destruct r as [request|sid|sid|sid prompt|sid|sid|sid path
                            |sid path content]; cbn [after].
  - unfold create_session.
    pose proof (sound_create
                  match request with
                  | Some requested => requested
                  | None => None
                  end m Hm) as H.
    now destruct (Sessions.create_session W _ m).
  - unfold get_session. pose proof (sound_get_session sid m Hm) as H.
    now destruct (Sessions.get_session W sid m) as [[x|] m1].
  - unfold delete_session. pose proof (sound_destroy sid m Hm) as H.
    now destruct (destroy_session W sid m).
  - unfold chat. found_or_not Hm sid m.
    pose proof (sound_with_agent (rest_chat (sdk W) prompt) sid x m0
                  (kept_rest_chat _ _)) as H3.
    destruct (with_agent _ sid x m0) as [[r a] m2]. now apply H3.
  - unfold get_preview. found_or_not Hm sid m.
    pose proof (sound_with_agent (get_preview_url (sdk W)) sid x m0
                  (kept_get_preview_url _)) as H3.
    destruct (with_agent _ sid x m0) as [[r a] m2]. now apply H3.
  - unfold list_files. found_or_not Hm sid m. assumption.
  - unfold get_file. found_or_not Hm sid m.
    now destruct (dict_get _ path).
  - unfold update_file. found_or_not Hm sid m.
    pose proof (sound_with_agent
                  (rest_update_file (sdk W) path
                     match content with
                     | Some c => c
                     | None => ""
                     end) sid x m0
                  (kept_rest_update_file _ _ _)) as H3.
    destruct (with_agent _ sid x m0) as [[r a] m2]. now apply H3.
Qed.

Lemma served_snoc (requests : list rest) (r : rest) :
  served W (requests ++ [r]) = after W r (served W requests).
Proof. unfold served. now rewrite fold_left_app. Qed.

Lemma sound_served (requests : list rest) : sound (served W requests).
Proof.
  induction requests as [|r requests IH] using rev_ind.
  - apply sound_empty.
  - rewrite served_snoc. now apply sound_after.
Qed.

End Routes.

End RouteFacts.
Import RouteFacts.

(** X17.  [destroy_session] always returns, even when the SDK fails
    to delete the sandbox: [True] if the session was registered and
    [False] if not.  The session is then no longer registered, the
    other sessions are as they were, the SDK was asked once to delete
    the sandbox if the session held one, and a second call returns
    [False] and changes nothing. *)
Theorem destroy_session_once (W : Sessions.outside) (session_id : string)
    (m : Sessions.manager) :
  wf m ->
  exists m',
    Sessions.destroy_session W session_id m
    = (Returns (registered session_id m), m')
    /\ registered session_id m' = false
    /\ (forall other, other <> session_id ->
        Sessions.od_get (Sessions.sessions m') other
        = Sessions.od_get (Sessions.sessions m) other)
    /\ Sessions.world m'
       = match Sessions.od_get (Sessions.sessions m) session_id with
         | Some x => if holds_sandbox x
                     then Model.SdkDelete :: Sessions.world m
                     else Sessions.world m
         | None => Sessions.world m
         end
    /\ Sessions.destroy_session W session_id m' = (Returns false, m').
Proof.
  intros Hwf.
  destruct (destroy_session_outcome W session_id m Hwf)
    as (m' & Hd & Hs & Hw & _).
  exists m'. split; [exact Hd |].
  assert (Hr : registered session_id m' = false).
  { unfold registered. now rewrite Hs, od_get_filter_self. }
  split; [exact Hr |]. split; [|split].
  - intros other Hne. rewrite Hs. now apply od_get_filter_other.
  - rewrite Hw, (sandboxes_one _ _ Hwf).
    destruct (Sessions.od_get (Sessions.sessions m) session_id) as [x|];
      [|reflexivity].
    now destruct (holds_sandbox x).
  - unfold Sessions.destroy_session. unfold registered in Hr.
    destruct (Sessions.od_get (Sessions.sessions m') session_id) eqn:E;
      [discriminate |].
    now rewrite (od_pop_absent _ _ E).
Qed.

(** X18.  [cleanup_all] always returns and leaves no session
    registered; the SDK was asked to delete one sandbox for each session
    that held one, and no other call was made. *)
Theorem cleanup_all_empties (W : Sessions.outside) (m : Sessions.manager) :
  wf m ->
  exists m',
    Sessions.cleanup_all W m = (Returns tt, m')
    /\ Sessions.sessions m' = []
    /\ Sessions.world m'
       = (repeat Model.SdkDelete (sandboxes (Sessions.sessions m))
          ++ Sessions.world m)%list.
Proof.
  intros Hwf. unfold Sessions.cleanup_all.
  destruct (destroy_each_outcome W (Sessions.od_keys (Sessions.sessions m))
              m Hwf) as (m' & Hd & Hs & Hw & _).
  exists m'. split; [exact Hd |]. split.
  - rewrite Hs. apply filter_none. intros kv Hin.
    now rewrite (mem_keys _ _ Hin).
  - rewrite Hw. do 2 f_equal. f_equal. apply filter_all. intros kv Hin.
    now apply mem_keys.
Qed.

(** X19.  When the age is one a [timedelta] can hold and the cutoff,
    the clock reading less the age, is a date a [datetime] can hold,
    [cleanup_inactive] returns and keeps, in their order, the sessions
    last active at the cutoff or later: a session last active exactly at
    the cutoff stays.  One sandbox is deleted for each session removed
    that held one. *)
Theorem cleanup_inactive_cutoff (W : Sessions.outside)
    (max_age_minutes : Z) (m : Sessions.manager) :
  let cutoff :=
    (Sessions.now W (Sessions.ticks m) - max_age_minutes * 60000000)%Z in
  wf m ->
  (Z.abs (max_age_minutes / 1440) <= 999999999)%Z ->
  (0 <= cutoff <= Sessions.MAX_DATETIME)%Z ->
  exists m',
    Sessions.cleanup_inactive W max_age_minutes m = (Returns tt, m')
    /\ Sessions.sessions m'
       = filter (fun kv => (cutoff <=? Sessions.last_activity (snd kv))%Z)
           (Sessions.sessions m)
    /\ Sessions.world m'
       = (repeat Model.SdkDelete
            (sandboxes
               (filter
                  (fun kv => (Sessions.last_activity (snd kv) <? cutoff)%Z)
                  (Sessions.sessions m)))
          ++ Sessions.world m)%list.
Proof.
  intros cutoff Hwf Hdays Hrange.
  unfold Sessions.cleanup_inactive, Sessions.read_clock.
  rewrite (timedelta_minutes_days _ Hdays). cbn [bind].
  unfold Sessions.datetime_sub. fold cutoff.
  destruct Hrange as [H0 H1].
  apply Z.leb_le in H0 as ->. apply Z.leb_le in H1 as ->. cbn [andb].
  set (old := fun kv : string * Sessions.session =>
                (Sessions.last_activity (snd kv) <? cutoff)%Z).
  set (m1 := Sessions.set_ticks _ m).
  assert (Hwf1 : wf m1) by exact Hwf.
  destruct (destroy_each_outcome W
              (Sessions.od_keys (filter old (Sessions.sessions m1)))
              m1 Hwf1) as (m' & Hd & Hs & Hw & _).
  exists m'. split; [exact Hd |].
  assert (Hm : forall kv, In kv (Sessions.sessions m) ->
               mem (fst kv)
                 (Sessions.od_keys (filter old (Sessions.sessions m)))
               = old kv).
  { intros [k x] Hin. now apply mem_filter_keys. }
  split.
  - rewrite Hs. apply filter_ext_in. intros kv Hin.
    cbn [Sessions.sessions m1 Sessions.set_ticks] in *.
    rewrite (Hm kv Hin). unfold old.
    now rewrite Z.leb_antisym.
  - rewrite Hw. do 2 f_equal. f_equal. apply filter_ext_in. intros kv Hin.
    now apply Hm.
Qed.

Lemma destroy_session_once_witness :
  let m := served steady_clock [PostSession None; PostSession None] in
  wf m
  /\ exists m',
       Sessions.destroy_session steady_clock "1b9d6bcd" m
       = (Returns (registered "1b9d6bcd" m), m')
       /\ registered "1b9d6bcd" m' = false
       /\ (forall other, other <> "1b9d6bcd" ->
           Sessions.od_get (Sessions.sessions m') other
           = Sessions.od_get (Sessions.sessions m) other)
       /\ Sessions.world m'
          = match Sessions.od_get (Sessions.sessions m) "1b9d6bcd" with
            | Some x => if holds_sandbox x
                        then Model.SdkDelete :: Sessions.world m
                        else Sessions.world m
            | None => Sessions.world m
            end
       /\ Sessions.destroy_session steady_clock "1b9d6bcd" m'
          = (Returns false, m').
Proof.
  intros m.
  assert (H : wf m).
  { vm_compute. repeat constructor; cbn [In]; intuition discriminate. }
  split; [exact H |].
  exact (destroy_session_once steady_clock "1b9d6bcd" m H).
Defined.

Lemma cleanup_all_empties_witness :
  let m := served steady_clock [PostSession None; PostSession None] in
  wf m
  /\ exists m',
       Sessions.cleanup_all steady_clock m = (Returns tt, m')
       /\ Sessions.sessions m' = []
       /\ Sessions.world m'
          = (repeat Model.SdkDelete (sandboxes (Sessions.sessions m))
             ++ Sessions.world m)%list.
Proof.
  intros m.
  assert (H : wf m).
  { vm_compute. repeat constructor; cbn [In]; intuition discriminate. }
  split; [exact H |].
  exact (cleanup_all_empties steady_clock m H).
Defined.

Lemma cleanup_inactive_cutoff_witness :
  let m := served steady_clock [PostSession None; PostSession None] in
  let cutoff := (63900000000000000 + 4 * 600000000 - 20 * 60000000)%Z in
  (wf m
   /\ (Z.abs (20 / 1440) <= 999999999)%Z
   /\ (0 <= cutoff <= Sessions.MAX_DATETIME)%Z)
  /\ exists m',
       Sessions.cleanup_inactive steady_clock 20 m = (Returns tt, m')
       /\ Sessions.sessions m'
          = filter
              (fun kv => (cutoff <=? Sessions.last_activity (snd kv))%Z)
              (Sessions.sessions m)
       /\ Sessions.world m'
          = (repeat Model.SdkDelete
               (sandboxes
                  (filter
                     (fun kv =>
                        (Sessions.last_activity (snd kv) <? cutoff)%Z)
                     (Sessions.sessions m)))
             ++ Sessions.world m)%list.
Proof.
  intros m cutoff.
  assert (H : wf m).
  { vm_compute. repeat constructor; cbn [In]; intuition discriminate. }
  assert (Hd : (Z.abs (20 / 1440) <= 999999999)%Z) by (vm_compute; discriminate).
  assert (Hc : (0 <= cutoff <= Sessions.MAX_DATETIME)%Z).
  { split; vm_compute; discriminate. }
  split; [now repeat split |].
  exact (cleanup_inactive_cutoff steady_clock 20 m H Hd Hc).
Defined.

(** X20.  For a session identifier that is not registered, each of
    the seven endpoints of a session answers 404 with the detail Session
    not found, and leaves the manager as it was: no call is made, no
    clock is read and no session is touched. *)
Theorem unknown_session_not_found (W : Sessions.outside)
    (session_id prompt path : string) (content : option string)
    (m : Sessions.manager) :
  registered session_id m = false ->
  Routes.get_session W session_id m = (Routes.session_not_found, m)
  /\ Routes.delete_session W session_id m = (Routes.session_not_found, m)
  /\ Routes.chat W session_id prompt m = (Routes.session_not_found, m)
  /\ Routes.get_preview W session_id m = (Routes.session_not_found, m)
  /\ Routes.list_files W session_id m = (Routes.session_not_found, m)
  /\ Routes.get_file W session_id path m = (Routes.session_not_found, m)
  /\ Routes.update_file W session_id path content m
     = (Routes.session_not_found, m).
Proof.
  intros H. pose proof (get_session_missing W session_id m H) as Hg.
  unfold Routes.get_session, Routes.delete_session, Routes.chat,
    Routes.get_preview, Routes.list_files, Routes.get_file,
    Routes.update_file.
  rewrite Hg. unfold Sessions.destroy_session.
  unfold registered in H.
  destruct (Sessions.od_get (Sessions.sessions m) session_id) eqn:E;
    [discriminate |].
  rewrite (od_pop_absent _ _ E). cbn [Routes.uncaught].
  repeat split.
Qed.

Lemma unknown_session_not_found_witness :
  let m := served steady_clock [PostSession None] in
  registered "9c5b94b1" m = false
  /\ Routes.get_session steady_clock "9c5b94b1" m
     = (Routes.session_not_found, m)
  /\ Routes.delete_session steady_clock "9c5b94b1" m
     = (Routes.session_not_found, m)
  /\ Routes.chat steady_clock "9c5b94b1" "a page" m
     = (Routes.session_not_found, m)
  /\ Routes.get_preview steady_clock "9c5b94b1" m
     = (Routes.session_not_found, m)
  /\ Routes.list_files steady_clock "9c5b94b1" m
     = (Routes.session_not_found, m)
  /\ Routes.get_file steady_clock "9c5b94b1" "app.js" m
     = (Routes.session_not_found, m)
  /\ Routes.update_file steady_clock "9c5b94b1" "app.js" (Some "let x") m
     = (Routes.session_not_found, m).
Proof.
  intros m.
  assert (H : registered "9c5b94b1" m = false) by (vm_compute; reflexivity).
  split; [exact H |].
  exact (unknown_session_not_found steady_clock "9c5b94b1" "a page"
           "app.js" (Some "let x") m H).
Defined.

(** X21.  After any sequence of requests to the REST endpoints,
    answered one after the other since the server started, every session
    of the manager is registered under its own identifier, holds a
    created sandbox, and is the one its identifier finds. *)
Theorem served_sessions_hold_sandboxes (W : Sessions.outside)
    (requests : list rest) (k : string) (x : Sessions.session) :
  In (k, x) (Sessions.sessions (served W requests)) ->
  Sessions.id x = k
  /\ Model.sandbox (Sessions.agent x) = Some true
  /\ Sessions.od_get (Sessions.sessions (served W requests)) k = Some x.
Proof.
  intros Hin. destruct (sound_served W requests) as [Hwf Hall].
  destruct (Hall k x Hin) as [Hi Hx].
  split; [exact Hi |]. split; [exact Hx |].
  now apply in_od_get.
Qed.

Lemma served_sessions_hold_sandboxes_witness :
  let requests :=
    [ PostSession None; PutFile "1b9d6bcd" "app.js" (Some "let x");
      PostSession (Some (Some "a-model")); DeleteSession "1b9d6bcd" ] in
  let x := match Sessions.sessions (served steady_clock requests) with
           | kx :: _ => snd kx
           | [] => {| Sessions.id := ""; Sessions.agent := Model.initial;
                      Sessions.model := ""; Sessions.status := "";
                      Sessions.files := []; Sessions.created_at := 0;
                      Sessions.last_activity := 0 |}
           end in
  In ("9c5b94b1", x) (Sessions.sessions (served steady_clock requests))
  /\ Sessions.id x = "9c5b94b1"
  /\ Model.sandbox (Sessions.agent x) = Some true
  /\ Sessions.od_get (Sessions.sessions (served steady_clock requests))
       "9c5b94b1" = Some x.
Proof.
  intros requests x.
  assert (H : In ("9c5b94b1", x)
                (Sessions.sessions (served steady_clock requests))).
  { vm_compute. left. reflexivity. }
  split; [exact H |].
  exact (served_sessions_hold_sandboxes steady_clock requests "9c5b94b1" x
           H).
Defined.

(** X22.  On a server that has answered any sequence of REST
    requests, a [PUT /files/{session_id}/{path}] that is answered is
    answered with the status updated and the path, and a [GET] of the
    same path then returns the content that was put, the empty text if
    the body had none. *)
Theorem put_then_get_file (W : Sessions.outside) (requests : list rest)
    (session_id path : string) (content : option string)
    (answer : string * string) (m' : Sessions.manager) :
  Routes.update_file W session_id path content (served W requests)
  = (Routes.Ok answer, m') ->
  answer = ("updated", path)
  /\ fst (Routes.get_file W session_id path m')
     = Routes.Ok (path, match content with
                        | Some c => c
                        | None => ""
                        end).
Proof.
  pose proof (sound_served W requests) as Hm.
  set (m := served W requests) in *. clearbody m.
  unfold Routes.update_file.
  destruct (Sessions.get_session W session_id m) as [[x|] m1] eqn:E;
    [|discriminate].
  destruct (get_session_some W _ _ _ _ Hm E) as (Hm1 & Hg & Hi & Hx).
  unfold Routes.with_agent, Sessions.on_agent.
  set (text := match content with Some c => c | None => "" end).
  pose proof (rest_update_file_returned (Sessions.sdk W) path text
                (Model.set_trace (Sessions.world m1) (Sessions.agent x)))
    as Hr.
  destruct (Model.rest_update_file (Sessions.sdk W) path text _)
    as [[[]|e|] a]; cbn [Routes.uncaught]; try discriminate.
  intros [= <- <-]. split; [reflexivity |].
  specialize (Hr a). cbn [Model.sandbox Model.set_trace] in Hr.
  rewrite Hx in Hr. specialize (Hr ltac:(discriminate) eq_refl).
  unfold Routes.get_file.
  erewrite get_session_found; cycle 1.
  { cbn [Sessions.sessions Sessions.set_sessions Sessions.set_world].
    rewrite od_get_set, String.eqb_refl. reflexivity. }
  cbn [Sessions.agent Sessions.set_last_activity Sessions.set_agent].
  rewrite Hr. cbn [Model.project_files Model.set_trace].
  now rewrite dict_get_set, String.eqb_refl.
Qed.

Lemma put_then_get_file_witness :
  let requests := [PostSession None] in
  let put := Routes.update_file steady_clock "1b9d6bcd" "app.js"
               (Some "let x") (served steady_clock requests) in
  put = (Routes.Ok ("updated", "app.js"), snd put)
  /\ ("updated", "app.js") = ("updated", "app.js")
  /\ fst (Routes.get_file steady_clock "1b9d6bcd" "app.js" (snd put))
     = Routes.Ok ("app.js", "let x").
Proof.
  intros requests put.
  assert (H : put = (Routes.Ok ("updated", "app.js"), snd put))
    by (vm_compute; reflexivity).
  split; [exact H |].
  exact (put_then_get_file steady_clock requests "1b9d6bcd" "app.js"
           (Some "let x") ("updated", "app.js") (snd put) H).
Defined.

(** X23.  On a server that has answered any sequence of REST
    requests, [DELETE /sessions/{session_id}] answers destroyed if the
    session is registered and 404 if not, whatever the SDK answers;
    after it [GET /sessions/{session_id}] answers 404, and the SDK was
    asked exactly once to delete a sandbox if the session was
    registered. *)
Theorem delete_then_not_found (W : Sessions.outside)
    (requests : list rest) (session_id : string) :
  let m := served W requests in
  exists m',
    Routes.delete_session W session_id m
    = (if registered session_id m then Routes.Ok "destroyed"
       else Routes.session_not_found, m')
    /\ Routes.get_session W session_id m' = (Routes.session_not_found, m')
    /\ Sessions.world m'
       = (if registered session_id m
          then Model.SdkDelete :: Sessions.world m
          else Sessions.world m).
Proof.
  intros m. destruct (sound_served W requests) as [Hwf Hall]. fold m in Hwf, Hall.
  destruct (destroy_session_outcome W session_id m Hwf)
    as (m' & Hd & Hs & Hw & _).
  exists m'. unfold Routes.delete_session. rewrite Hd.
  cbn [Routes.uncaught]. split; [now destruct (registered session_id m) |].
  split.
  - unfold Routes.get_session. rewrite get_session_missing; [reflexivity |].
    unfold registered. now rewrite Hs, od_get_filter_self.
  - rewrite Hw, (sandboxes_one _ _ Hwf). unfold registered.
    destruct (Sessions.od_get (Sessions.sessions m) session_id) as [x|] eqn:E;
      [|reflexivity].
    destruct (Hall _ _ (od_get_in _ _ _ E)) as [_ Hx].
    unfold holds_sandbox. now rewrite Hx.
Qed.

(** X24.  [POST /sessions], when it is answered, answers with the
    first eight characters of the identifier drawn and the status
    active, after exactly three SDK calls (connect, create, make the
    workspace directory); the session is then found by
    [GET /sessions/{session_id}], active, with no preview URL and no
    file.  When the set-up of the sandbox fails, no session is
    registered. *)
Theorem create_then_get (W : Sessions.outside)
    (request : option (option string)) (m m' : Sessions.manager)
    (r : Routes.response Routes.SessionResponse) :
  Routes.create_session W request m = (r, m') ->
  match r with
  | Routes.Ok answer =>
      let session_id :=
        take 8 (Sessions.uuid4 W (Sessions.drawn m)) in
      answer = {| Routes.sr_session_id := session_id;
                  Routes.sr_status := "active";
                  Routes.sr_preview_url := None;
                  Routes.sr_files := None |}
      /\ Sessions.world m'
         = Model.SdkExec ("mkdir -p " ++ Model.WORKSPACE_DIR)
           :: Model.SdkCreate :: Model.SdkConnect :: Sessions.world m
      /\ fst (Routes.get_session W session_id m')
         = Routes.Ok {| Routes.sr_session_id := session_id;
                        Routes.sr_status := "active";
                        Routes.sr_preview_url := None;
                        Routes.sr_files := Some [] |}
  | _ => Sessions.sessions m' = Sessions.sessions m
  end.
Proof.
  unfold Routes.create_session, Sessions.create_session, Sessions.on_agent.
  pose proof (ensure_from_nothing (Sessions.sdk W)
                (Model.set_trace
                   (Sessions.world
                      (Sessions.set_drawn (S (Sessions.drawn m)) m))
                   Model.initial)) as He.
  destruct (Model.web_ensure_sandbox (Sessions.sdk W) _) as [[[]|e|] a];
    cbn [Routes.uncaught]; try (intros [= <- <-]; reflexivity).
  specialize (He a eq_refl eq_refl). unfold Sessions.read_clock.
  intros [= <- <-]. cbn [Sessions.id]. split; [reflexivity |].
  split; [rewrite He; reflexivity |].
  unfold Routes.get_session.
  erewrite get_session_found; cycle 1.
  { cbn [Sessions.sessions Sessions.set_sessions].
    rewrite od_get_set, String.eqb_refl. reflexivity. }
  cbn [fst Sessions.id Sessions.status Sessions.agent
       Sessions.set_last_activity].
  rewrite He. reflexivity.
Qed.

Lemma create_then_get_witness :
  let m := served steady_clock [PostSession None] in
  let post := Routes.create_session steady_clock (Some None) m in
  post = (fst post, snd post)
  /\ Routes.sr_session_id
       match fst post with
       | Routes.Ok answer => answer
       | _ => {| Routes.sr_session_id := ""; Routes.sr_status := "";
                 Routes.sr_preview_url := None; Routes.sr_files := None |}
       end = "9c5b94b1"
  /\ fst (Routes.get_session steady_clock "9c5b94b1" (snd post))
     = Routes.Ok {| Routes.sr_session_id := "9c5b94b1";
                    Routes.sr_status := "active";
                    Routes.sr_preview_url := None;
                    Routes.sr_files := Some [] |}.
Proof.
  intros m post.
  assert (H : post = (fst post, snd post)) by (vm_compute; reflexivity).
  split; [exact H |].
  pose proof (create_then_get steady_clock (Some None) m (snd post)
                (fst post) H) as T.
  assert (E : fst post
              = Routes.Ok {| Routes.sr_session_id := "9c5b94b1";
                             Routes.sr_status := "active";
                             Routes.sr_preview_url := None;
                             Routes.sr_files := None |})
    by (vm_compute; reflexivity).
  rewrite E in T |- *. destruct T as (_ & _ & T).
  split; [reflexivity | exact T].
Defined.

Module StoreFacts.
Import Model.

Lemma dict_set_nodup (d : dict) (k v : string) :
  NoDup (keys d) -> NoDup (keys (dict_set d k v)).
Proof.
  intros H. rewrite keys_dict_set. destruct (dict_mem k d) eqn:E; [exact H |].
  apply dict_mem_keys in E.
  apply NoDup_app; [exact H | repeat constructor; intros [] |].
  intros x Hx [<-|[]]. contradiction.
Qed.

Lemma store_all_nodup (files d : dict) :
  NoDup (keys d) -> NoDup (keys (store_all files d)).
Proof.
  revert d. induction files as [|fc files IH]; intros d H; [exact H |].
  cbn [store_all fold_left]. apply IH. now apply dict_set_nodup.
Qed.

Lemma store_all_get (files d : dict) (k : string) :
  NoDup (keys files) ->
  dict_get (store_all files d) k
  = match dict_get files k with
    | Some c => Some c
    | None => dict_get d k
    end.
Proof.
  revert d. induction files as [|[k0 v0] files IH]; intros d H;
    [reflexivity |].
  cbn [keys map fst] in H. apply NoDup_cons_iff in H as [Hin H].
  fold (keys files) in Hin.
  unfold store_all. cbn [fold_left fst snd dict_get].
  fold (store_all files (dict_set d k0 v0)). rewrite (IH _ H).
  rewrite dict_get_set.
  destruct (k0 =? k) eqn:E; [|reflexivity].
  apply String.eqb_eq in E. subst k0.
  apply dict_mem_keys in Hin. unfold dict_mem in Hin.
  now destruct (dict_get files k).
Qed.

Lemma in_keys_get (d : dict) (k : string) :
  In k (keys d) -> exists c, dict_get d k = Some c.
Proof.
  intros H. destruct (dict_get d k) as [c|] eqn:E; [now exists c |].
  exfalso. revert H. apply dict_mem_keys. unfold dict_mem. now rewrite E.
Qed.

Lemma parse_keys_nodup (response : string) :
  exists files,
    Parse._parse_web_files response = Returns files
    /\ NoDup (keys files) /\ files <> [].
Proof.
  destruct (parse_web_files_nonempty response) as (files & E & Hne).
  destruct (parse_steps response (fun files => NoDup (keys files)))
    as (files' & E' & H).
  - intros labelled _. unfold Parse.store_matches.
    assert (G : forall ms d, NoDup (keys d) ->
              NoDup (keys (fold_left (fun files fc =>
                dict_set files (strip (fst fc)) (strip (snd fc))) ms d))).
    { induction ms as [|fc ms IH]; intros d Hd; [exact Hd |].
      cbn [fold_left]. apply IH. now apply dict_set_nodup. }
    apply G. constructor.
  - intros f name v Hf _ _ _ _ _. now apply dict_set_nodup.
  - exists files. rewrite E in E'. injection E' as <-. now repeat split.
Qed.

Lemma post_then {A} (c : M A) (s : state)
    (Q Q' : outcome A -> state -> Prop) :
  post c s Q -> (forall r s', Q r s' -> Q' r s') -> post c s Q'.
Proof. unfold post. auto. Qed.

Section Store.

Variable E : env.

Lemma for_each_store (files : dict) (s : state) :
  post
    (for_each files
       (fun fc =>
          upload_file E (workspace_path (fst fc)) (snd fc) >>
          store_file (fst fc) (snd fc)))
    s
    (fun r s' =>
       r = Returns tt ->
       project_files s' = store_all files (project_files s)).
Proof.
  revert s. induction files as [|[f c] files IH]; intros s.
  - unfold post. reflexivity.
  - cbn [for_each fst snd]. apply post_bind, post_bind.
    unfold post at 1. rewrite upload_file_unfold.
    pose proof (keeps_try_upload store_same E (workspace_path f) c s) as H.
    destruct (try_upload E (workspace_path f) c s) as [[[]|e|] s1];
      cbn [fst snd] in *; try discriminate.
    unfold store_file. apply post_modify.
    eapply post_then; [apply IH |].
    intros r s' Hr Er. rewrite (Hr Er).
    cbn [project_files set_project_files record_upload set_uploaded].
    red in H. rewrite H. reflexivity.
Qed.

Lemma generate_web_code_stores (prompt : string) (s : state) :
  post (generate_web_code E prompt) s (stores_parsed s).
Proof.
  unfold generate_web_code, stores_parsed.
  apply post_bind, post_get.
  apply post_bind, (post_keeps store_same);
    [apply keeps_chat; exact _ |].
  intros [response|e|] s1 H1; trivial.
  apply post_bind, post_lift.
  destruct (parse_keys_nodup response) as (files & -> & Hn & Hne).
  apply post_bind, (post_keeps store_same);
    [apply keeps_web_ensure_sandbox; exact _ |].
  intros [[]|e|] s2 H2; trivial.
  apply post_bind.
  apply (post_then _ _ _ _ (for_each_store files s2)).
  intros [[]|e|] s3 H3; trivial. specialize (H3 eq_refl).
  apply post_bind, post_modify, post_ret.
  exists files. split; [exact Hn |]. split; [exact Hne |].
  split; [reflexivity |].
  cbn [project_files set_history]. red in H1, H2. congruence.
Qed.

Lemma kept_generate_web_code (prompt : string) :
  keeps sandbox_kept (generate_web_code E prompt).
Proof. unfold generate_web_code, chat. one_sandbox. Qed.

Lemma kept_start_preview_server :
  keeps sandbox_kept (start_preview_server E).
Proof. one_sandbox. Qed.

(** The preview of a created sandbox: one call, and the link is kept. *)
Lemma get_preview_url_returned (s s' : state) (p : option reply) :
  sandbox s = Some true ->
  get_preview_url E s = (Returns p, s') ->
  exists preview,
    p = Some preview
    /\ preview = oracle E (List.length (trace s)) (SdkPreviewLink 8000)
    /\ s' = set_preview (Some (url preview)) (token preview)
              (set_trace (SdkPreviewLink 8000 :: trace s) s).
Proof.
  intros Hs.
  unfold get_preview_url, manager_get_preview_url, the_manager, bindM, get,
    modify, ret, perform.
  rewrite Hs. cbn beta iota. rewrite Hs. cbn beta iota.
  destruct (raised _) eqn:Er; [discriminate |].
  intros [= <- <-]. eexists. split; [reflexivity |]. split; reflexivity.
Qed.

Lemma rest_chat_returned (prompt : string) (s a : state)
    (result : web_result) :
  sandbox s = Some true ->
  rest_chat E prompt s = (Returns result, a) ->
  stores_parsed s (Returns result) a /\ preview_url a <> None.
Proof.
  intros Hs. unfold rest_chat. unfold bindM at 1.
  pose proof (generate_web_code_stores prompt s) as Hg.
  pose proof (kept_generate_web_code prompt s Hs) as [Hk _].
  unfold post in Hg.
  destruct (generate_web_code E prompt s) as [[r|e|] s1];
    cbn [fst snd] in *; try discriminate.
  unfold deploy_and_preview. unfold bindM at 1. unfold bindM at 1.
  pose proof (keeps_start_preview_server store_same E s1) as Hp.
  pose proof (kept_start_preview_server s1 Hk) as [Hk2 _].
  destruct (start_preview_server E s1) as [[[]|e|] s2];
    cbn [fst snd] in *; try discriminate.
  pose proof (get_preview_url_returned s2) as Hu.
  destruct (get_preview_url E s2) as [[p|e|] s3]; try discriminate.
  destruct (Hu s3 p Hk2 eq_refl) as (preview & _ & _ & ->).
  unfold ret. intros [= <- <-]. split; [|discriminate].
  destruct Hg as (files & Hn & Hne & Hr & Hf).
  exists files. split; [exact Hn |]. split; [exact Hne |].
  split; [exact Hr |].
  cbn [project_files set_preview set_trace]. red in Hp. congruence.
Qed.

End Store.

End StoreFacts.
Import StoreFacts.

(** X25.  On a server that has answered any sequence of REST
    requests, a [POST /chat] that is answered carries the message Code
    generated successfully, at least one file name and a preview URL;
    every file it names is then returned by
    [GET /files/{session_id}/{name}], and its code is the content so
    returned for index.html, or the empty text when index.html is not
    among the files. *)
Theorem chat_files_are_served (W : Sessions.outside)
    (requests : list rest) (session_id prompt : string)
    (answer : Routes.ChatResponse) (m' : Sessions.manager) :
  Routes.chat W session_id prompt (served W requests)
  = (Routes.Ok answer, m') ->
  Routes.cr_message answer = "Code generated successfully"
  /\ Routes.cr_files answer <> []
  /\ Routes.cr_preview_url answer <> None
  /\ (forall name, In name (Routes.cr_files answer) ->
      exists content,
        fst (Routes.get_file W session_id name m')
        = Routes.Ok (name, content)
        /\ (name = "index.html" -> Routes.cr_code answer = Some content))
  /\ (~ In "index.html" (Routes.cr_files answer) ->
      Routes.cr_code answer = Some "").
Proof.
  pose proof (sound_served W requests) as Hm.
  set (m := served W requests) in *. clearbody m.
  unfold Routes.chat.
  destruct (Sessions.get_session W session_id m) as [[x|] m1] eqn:E;
    [|discriminate].
  destruct (get_session_some W _ _ _ _ Hm E) as (Hm1 & Hg & Hi & Hx).
  unfold Routes.with_agent, Sessions.on_agent.
  pose proof (rest_chat_returned (Sessions.sdk W) prompt
                (Model.set_trace (Sessions.world m1) (Sessions.agent x)))
    as Hr.
  destruct (Model.rest_chat (Sessions.sdk W) prompt _) as [[result|e|] a];
    cbn [Routes.uncaught]; try discriminate.
  intros [= <- <-].
  destruct (Hr a result Hx eq_refl) as [(files & Hn & Hne & -> & Hf) Hp].
  cbn [Routes.cr_message Routes.cr_files Routes.cr_preview_url
       Routes.cr_code Model.wr_message Model.wr_files Model.wr_code
       web_result_of].
  split; [reflexivity |]. split.
  { destruct files; [contradiction | discriminate]. }
  split; [exact Hp |].
  assert (Hget : forall name,
            fst (Routes.get_file W session_id name
                   (Sessions.set_sessions
                      (Sessions.od_set
                         (Sessions.sessions
                            (Sessions.set_world (Model.trace a) m1))
                         session_id (Sessions.set_agent a x))
                      (Sessions.set_world (Model.trace a) m1)))
            = match dict_get files name with
              | Some c => Routes.Ok (name, c)
              | None =>
                  match dict_get (Model.project_files (Sessions.agent x))
                          name with
                  | Some c => Routes.Ok (name, c)
                  | None => Routes.HTTPException 404 "File not found"
                  end
              end).
  { intros name. unfold Routes.get_file.
    erewrite get_session_found; cycle 1.
    { cbn [Sessions.sessions Sessions.set_sessions].
      rewrite od_get_set, String.eqb_refl. reflexivity. }
    cbn [Sessions.agent Sessions.set_last_activity Sessions.set_agent].
    rewrite Hf, (store_all_get _ _ _ Hn).
    cbn [Model.project_files Model.set_trace].
    destruct (dict_get files name); [reflexivity |].
    now destruct (dict_get _ name). }
  split.
  - intros name Hin. destruct (in_keys_get _ _ Hin) as [c Hc].
    exists c. rewrite Hget, Hc. split; [reflexivity |].
    intros ->. now rewrite Hc.
  - intros Hnot. apply dict_mem_keys in Hnot. unfold dict_mem in Hnot.
    now destruct (dict_get files "index.html").
Qed.

Lemma chat_files_are_served_witness :
  let requests := [PostSession None] in
  let post := Routes.chat steady_clock "1b9d6bcd" "a page"
                (served steady_clock requests) in
  let answer :=
    {| Routes.cr_message := "Code generated successfully";
       Routes.cr_code := Some "<h1>Hi</h1>";
       Routes.cr_files := ["index.html"];
       Routes.cr_preview_url := Some "https://preview.example" |} in
  post = (Routes.Ok answer, snd post)
  /\ Routes.cr_message answer = "Code generated successfully"
  /\ Routes.cr_files answer <> []
  /\ Routes.cr_preview_url answer <> None
  /\ (forall name, In name (Routes.cr_files answer) ->
      exists content,
        fst (Routes.get_file steady_clock "1b9d6bcd" name (snd post))
        = Routes.Ok (name, content)
        /\ (name = "index.html" -> Routes.cr_code answer = Some content))
  /\ (~ In "index.html" (Routes.cr_files answer) ->
      Routes.cr_code answer = Some "").
Proof.
  intros requests post answer.
  assert (H : post = (Routes.Ok answer, snd post))
    by (vm_compute; reflexivity).
  split; [exact H |].
  exact (chat_files_are_served steady_clock requests "1b9d6bcd" "a page"
           answer (snd post) H).
Defined.

(** X26.  On a server that has answered any sequence of REST
    requests, a [GET /preview/{session_id}] that is answered has made
    one call, for the preview link of port 8000, and answers with a URL;
    [GET /sessions/{session_id}] then reports that URL. *)
Theorem preview_is_recorded (W : Sessions.outside) (requests : list rest)
    (session_id : string) (answer : Routes.PreviewResponse)
    (m' : Sessions.manager) :
  Routes.get_preview W session_id (served W requests)
  = (Routes.Ok answer, m') ->
  exists u status,
    Routes.pr_url answer = Some u
    /\ Sessions.world m'
       = Model.SdkPreviewLink 8000 :: Sessions.world (served W requests)
    /\ fst (Routes.get_session W session_id m') = Routes.Ok status
    /\ Routes.sr_session_id status = session_id
    /\ Routes.sr_preview_url status = Some u.
Proof.
  pose proof (sound_served W requests) as Hm.
  set (m := served W requests) in *. clearbody m.
  unfold Routes.get_preview.
  destruct (Sessions.get_session W session_id m) as [[x|] m1] eqn:E;
    [|discriminate].
  destruct (get_session_some W _ _ _ _ Hm E) as (Hm1 & Hg & Hi & Hx).
  assert (Hw : Sessions.world m1 = Sessions.world m).
  { unfold Sessions.get_session in E.
    destruct (Sessions.od_get (Sessions.sessions m) session_id);
      [|discriminate].
    unfold Sessions.read_clock in E. now injection E as _ <-. }
  unfold Routes.with_agent, Sessions.on_agent.
  pose proof (get_preview_url_returned (Sessions.sdk W)
                (Model.set_trace (Sessions.world m1) (Sessions.agent x)))
    as Hr.
  destruct (Model.get_preview_url (Sessions.sdk W) _) as [[p|e|] a];
    cbn [Routes.uncaught]; try discriminate.
  destruct (Hr a p Hx eq_refl) as (preview & -> & _ & ->).
  intros [= <- <-]. cbn [Routes.pr_url option_map].
  eexists. eexists. split; [reflexivity |].
  split; [cbn; now rewrite Hw |].
  unfold Routes.get_session.
  erewrite get_session_found; cycle 1.
  { cbn [Sessions.sessions Sessions.set_sessions].
    rewrite od_get_set, String.eqb_refl. reflexivity. }
  cbn [fst]. split; [reflexivity |]. split; [exact Hi | reflexivity].
Qed.

Lemma preview_is_recorded_witness :
  let requests := [PostSession None] in
  let get := Routes.get_preview steady_clock "1b9d6bcd"
               (served steady_clock requests) in
  let answer := {| Routes.pr_url := Some "https://preview.example";
                   Routes.pr_token := Some "secret" |} in
  get = (Routes.Ok answer, snd get)
  /\ exists u status,
       Routes.pr_url answer = Some u
       /\ Sessions.world (snd get)
          = Model.SdkPreviewLink 8000
            :: Sessions.world (served steady_clock requests)
       /\ fst (Routes.get_session steady_clock "1b9d6bcd" (snd get))
          = Routes.Ok status
       /\ Routes.sr_session_id status = "1b9d6bcd"
       /\ Routes.sr_preview_url status = Some u.
Proof.
  intros requests get answer.
  assert (H : get = (Routes.Ok answer, snd get))
    by (vm_compute; reflexivity).
  split; [exact H |].
  exact (preview_is_recorded steady_clock requests "1b9d6bcd" answer
           (snd get) H).
Defined.

(** X27.  The entries [GET /files/{session_id}] lists have their
    name equal to their path and no content, and a path is listed
    exactly when [GET /files/{session_id}/{path}] then returns a
    content for it. *)
Theorem listed_files_are_readable (W : Sessions.outside)
    (session_id : string) (m m1 : Sessions.manager)
    (listing : list Routes.FileInfo) :
  Routes.list_files W session_id m = (Routes.Ok listing, m1) ->
  (forall info, In info listing ->
     Routes.fi_name info = Routes.fi_path info
     /\ Routes.fi_content info = None)
  /\ forall name,
       In name (map Routes.fi_path listing)
       <-> exists content,
             fst (Routes.get_file W session_id name m1)
             = Routes.Ok (name, content).
Proof.
  unfold Routes.list_files.
  destruct (Sessions.get_session W session_id m) as [[x|] m0] eqn:E;
    [|discriminate].
  intros [= <- <-].
  assert (Hg : Sessions.od_get (Sessions.sessions m0) session_id = Some x).
  { unfold Sessions.get_session in E.
    destruct (Sessions.od_get (Sessions.sessions m) session_id);
      [|discriminate].
    unfold Sessions.read_clock in E. injection E as <- <-.
    cbn [Sessions.sessions Sessions.set_sessions].
    now rewrite od_get_set, String.eqb_refl. }
  rewrite map_map. cbn [Routes.fi_path]. rewrite map_id.
  split.
  - intros info Hin. apply in_map_iff in Hin as (f & <- & _). now split.
  - intros name. unfold Routes.get_file.
    rewrite (get_session_found W _ _ _ Hg).
    cbn [Sessions.agent Sessions.set_last_activity].
    split.
    + intros Hin. destruct (in_keys_get _ _ Hin) as [c Hc].
      exists c. now rewrite Hc.
    + intros [c Hc].
      destruct (dict_get (Model.project_files (Sessions.agent x)) name)
        as [c'|] eqn:Ec; [|discriminate].
      destruct (in_dec string_dec name
                  (keys (Model.project_files (Sessions.agent x))))
        as [Hin|Hnot]; [exact Hin |].
      apply dict_mem_keys in Hnot. unfold dict_mem in Hnot.
      now rewrite Ec in Hnot.
Qed.

Lemma listed_files_are_readable_witness :
  let m := served steady_clock
             [ PostSession None;
               PutFile "1b9d6bcd" "app.js" (Some "let x");
               PutFile "1b9d6bcd" "css/site.css" (Some "p{}") ] in
  let get := Routes.list_files steady_clock "1b9d6bcd" m in
  let listing :=
    [ {| Routes.fi_path := "app.js"; Routes.fi_name := "app.js";
         Routes.fi_content := None |};
      {| Routes.fi_path := "css/site.css"; Routes.fi_name := "css/site.css";
         Routes.fi_content := None |} ] in
  get = (Routes.Ok listing, snd get)
  /\ (forall info, In info listing ->
        Routes.fi_name info = Routes.fi_path info
        /\ Routes.fi_content info = None)
  /\ forall name,
       In name (map Routes.fi_path listing)
       <-> exists content,
             fst (Routes.get_file steady_clock "1b9d6bcd" name (snd get))
             = Routes.Ok (name, content).
Proof.
  intros m get listing.
  assert (H : get = (Routes.Ok listing, snd get))
    by (vm_compute; reflexivity).
  split; [exact H |].
  exact (listed_files_are_readable steady_clock "1b9d6bcd" m (snd get)
           listing H).
Defined.
